(** * web2vault: chunking, map-reduce generation, prompt chaining and
    output sanitizing

    A shallow embedding of [web2vault/utils.py], [web2vault/chunker.py],
    [web2vault/generators/base.py], [web2vault/generators/practice.py] and
    [web2vault/generators/deep_dive.py], followed by the properties of the
    specification that concern them and by further properties of the same
    code.

    Conventions of the embedding.
    - A Python [str] is a list of characters; a character is a code point
      below 256 (the type [ascii]), classified as CPython classifies the
      first 256 code points.
    - A Python [int] is a [Z]; indices and lengths that are never negative
      are [nat].
    - A call of the language model goes through the abstract provider
      interface of [llm/base.py]; every call is recorded in a log, and a
      call may raise.
    - A method that no class of the package defines raises
      [AttributeError] where it is called; this is the case of the two
      helper methods that two prompts of [practice.py] end with.
    - The [verbose] flag defaults to [False] and only prints progress lines;
      the embedding follows the code with [verbose = False]. *)

From Stdlib Require Import String Ascii List ZArith Lia Bool Arith.
Import ListNotations.

Set Implicit Arguments.
Local Open Scope list_scope.

(* ================================================================== *)
(** * Python strings *)
(* ================================================================== *)

Module Py.

Definition str := list ascii.

(** A literal. *)
Definition lit (s : string) : str := list_ascii_of_string s.

Definition nl : ascii := "010"%char.

Definition code (c : ascii) : N := N_of_ascii c.

Definition is_nl (c : ascii) : bool := Ascii.eqb c nl.

(** [str.isspace] on one character, which is also the class [\s] of the
    [re] module on [str] patterns: TAB, LF, VT, FF, CR, the separators
    0x1C to 0x1F, SPACE, NEL (0x85) and NBSP (0xA0). *)
Definition isspace (c : ascii) : bool :=
  let n := code c in
  (((9 <=? n) && (n <=? 13)) || ((28 <=? n) && (n <=? 32))
   || (n =? 133) || (n =? 160))%N.

(** [str.isdigit] on one character: the decimal digits and the
    superscript digits two, three and one (0xB2, 0xB3, 0xB9). *)
Definition isdigit (c : ascii) : bool :=
  let n := code c in
  (((48 <=? n) && (n <=? 57)) || (n =? 178) || (n =? 179) || (n =? 185))%N.

(** The class [\d] of the [re] module: decimal digits only. *)
Definition isdecimal (c : ascii) : bool :=
  let n := code c in ((48 <=? n) && (n <=? 57))%N.

(** [str.lower], character by character: A to Z and the capital letters
    0xC0 to 0xDE except the multiplication sign 0xD7. *)
Definition lower_char (c : ascii) : ascii :=
  let n := code c in
  if (((65 <=? n) && (n <=? 90))
      || ((192 <=? n) && (n <=? 222) && negb (n =? 215)))%N
  then ascii_of_N (n + 32) else c.

Definition lower (s : str) : str := map lower_char s.

(** [s.lstrip(chars)], [s.rstrip(chars)] and [s.strip(chars)] for a
    character class. *)
Fixpoint lstrip_of (p : ascii -> bool) (s : str) : str :=
  match s with
  | [] => []
  | c :: s' => if p c then lstrip_of p s' else s
  end.

Fixpoint rstrip_of (p : ascii -> bool) (s : str) : str :=
  match s with
  | [] => []
  | c :: s' =>
      match rstrip_of p s' with
      | [] => if p c then [] else [c]
      | r => c :: r
      end
  end.

Definition strip_of (p : ascii -> bool) (s : str) : str :=
  rstrip_of p (lstrip_of p s).

Definition lstrip : str -> str := lstrip_of isspace.
Definition rstrip : str -> str := rstrip_of isspace.
Definition strip : str -> str := strip_of isspace.

(** Truth value of a string: [not s] is [is_empty s]. *)
Definition is_empty (s : str) : bool :=
  match s with [] => true | _ => false end.

Fixpoint eqb (a b : str) : bool :=
  match a, b with
  | [], [] => true
  | x :: a', y :: b' => Ascii.eqb x y && eqb a' b'
  | _, _ => false
  end.

(** [s.startswith(p)]. *)
Fixpoint startswith (s p : str) {struct p} : bool :=
  match p with
  | [] => true
  | x :: p' =>
      match s with
      | [] => false
      | y :: s' => Ascii.eqb x y && startswith s' p'
      end
  end.

(** [p in s]. *)
Fixpoint contains (p s : str) : bool :=
  startswith s p ||
  match s with
  | [] => false
  | _ :: s' => contains p s'
  end.

(** [s.find(p)] as an option: [None] stands for [-1]. *)
Fixpoint find (p s : str) : option nat :=
  if startswith s p then Some 0
  else match s with
       | [] => None
       | _ :: s' => option_map S (find p s')
       end.

(** [s.find(p, start)]. *)
Definition find_from (p s : str) (start : nat) : option nat :=
  if length s <? start then None
  else option_map (fun i => start + i) (find p (skipn start s)).

(** [s.rfind(p)] as an option: the highest index of an occurrence. *)
Fixpoint rfind (p s : str) : option nat :=
  match s with
  | [] => if startswith s p then Some 0 else None
  | _ :: s' =>
      match rfind p s' with
      | Some i => Some (S i)
      | None => if startswith s p then Some 0 else None
      end
  end.

(** The [int] a [find] or [rfind] returns. *)
Definition index_of (o : option nat) : Z :=
  match o with Some i => Z.of_nat i | None => (-1)%Z end.

(** [s.split(sep)] for a one-character separator: never empty. *)
Fixpoint split_char (sep : ascii) (s : str) : str * list str :=
  match s with
  | [] => ([], [])
  | c :: s' =>
      let '(cur, rest) := split_char sep s' in
      if Ascii.eqb c sep then ([], cur :: rest) else (c :: cur, rest)
  end.

Definition split (sep : ascii) (s : str) : list str :=
  let '(cur, rest) := split_char sep s in cur :: rest.

(** [sep.join(parts)]. *)
Fixpoint join (sep : str) (parts : list str) : str :=
  match parts with
  | [] => []
  | [a] => a
  | a :: rest => a ++ sep ++ join sep rest
  end.

(** [s[:n]] and [s[n:]] for [n >= 0]. *)
Definition slice_to (n : nat) (s : str) : str := firstn n s.
Definition slice_from (n : nat) (s : str) : str := skipn n s.

(** [s * n]. *)
Fixpoint times (s : str) (n : nat) : str :=
  match n with
  | O => []
  | S n' => s ++ times s n'
  end.

(** [int(s)] for a run of decimal digits. *)
Definition digit_value (c : ascii) : Z := Z.of_N (code c) - 48.

Definition int_of_digits (s : str) : Z :=
  fold_left (fun acc c => 10 * acc + digit_value c)%Z s 0%Z.

(** [s[:n]] for an [int] [n]: a negative [n] counts from the end. *)
Definition slice_to_int (n : Z) (s : str) : str :=
  if (n <? 0)%Z then firstn (length s - Z.to_nat (- n)) s
  else firstn (Z.to_nat n) s.

End Py.

Import Py.

(* ================================================================== *)
(** * The fragment of [re] the program uses *)
(* ================================================================== *)

Module Re.

(** Patterns: one character of a class, concatenation, the empty pattern,
    greedy and lazy repetition of a class, a greedy option and a capturing
    group. *)
Inductive regex : Type :=
| Chr (p : ascii -> bool)
| Eps
| Cat (r1 r2 : regex)
| Star (greedy : bool) (p : ascii -> bool)
| Opt (r : regex)
| Group (r : regex).

Definition Plus (p : ascii -> bool) : regex := Cat (Chr p) (Star true p).

Fixpoint Lit (s : str) : regex :=
  match s with
  | [] => Eps
  | c :: s' => Cat (Chr (Ascii.eqb c)) (Lit s')
  end.

Section Matcher.
Variable A : Type.

(** Backtracking in the order of the [re] module: a greedy repetition
    tries the longest run first, a lazy one the shortest. *)
Fixpoint star_greedy (p : ascii -> bool) (s : str)
         (k : str -> option A) : option A :=
  match s with
  | c :: s' =>
      if p c then
        match star_greedy p s' k with
        | Some x => Some x
        | None => k s
        end
      else k s
  | [] => k s
  end.

Fixpoint star_lazy (p : ascii -> bool) (s : str)
         (k : str -> option A) : option A :=
  match k s with
  | Some x => Some x
  | None =>
      match s with
      | c :: s' => if p c then star_lazy p s' k else None
      | [] => None
      end
  end.

(** [run r s caps k]: match [r] at the head of [s], then continue with
    [k] on what is left and on the groups captured so far. *)
Fixpoint run (r : regex) (s : str) (caps : list str)
         (k : str -> list str -> option A) : option A :=
  match r with
  | Chr p =>
      match s with
      | c :: s' => if p c then k s' caps else None
      | [] => None
      end
  | Eps => k s caps
  | Cat r1 r2 => run r1 s caps (fun s' caps' => run r2 s' caps' k)
  | Star true p => star_greedy p s (fun s' => k s' caps)
  | Star false p => star_lazy p s (fun s' => k s' caps)
  | Opt r' =>
      match run r' s caps k with
      | Some x => Some x
      | None => k s caps
      end
  | Group r' =>
      run r' s caps
          (fun s' caps' =>
             k s' (caps' ++ [firstn (length s - length s') s]))
  end.
End Matcher.

(** [re.match(r, s)]: what is left after the match, and the groups. *)
Definition match_ (r : regex) (s : str) : option (str * list str) :=
  run r s [] (fun rest caps => Some (rest, caps)).

(** [re.search(r, s)]: the leftmost position where [r] matches. *)
Fixpoint search (r : regex) (s : str) : option (str * list str) :=
  match match_ r s with
  | Some m => Some m
  | None =>
      match s with
      | [] => None
      | _ :: s' => search r s'
      end
  end.

(** [re.sub("^" + r, "", s, count=1)] without [re.MULTILINE]: the anchor
    admits a match at the start of [s] only. *)
Definition sub_at_start (r : regex) (s : str) : str :=
  match match_ r s with
  | Some (rest, _) => rest
  | None => s
  end.

(** [re.split(r"(?=^" + marker + ")", s, flags=re.MULTILINE)]: [s] is cut,
    keeping every character, before each occurrence of [marker] that
    starts a line; an occurrence at the very start leaves an empty first
    piece.  [bol] tells whether the head of [s] starts a line. *)
Fixpoint split_lines_before (marker : str) (bol : bool) (s : str)
  : str * list str :=
  match s with
  | [] => ([], [])
  | c :: s' =>
      let '(cur, rest) := split_lines_before marker (is_nl c) s' in
      if bol && startswith s marker then ([], (c :: cur) :: rest)
      else (c :: cur, rest)
  end.

Definition split_before (marker : str) (s : str) : list str :=
  let '(cur, rest) := split_lines_before marker true s in cur :: rest.

(** [re.split(r"\n\n+", s)]: every maximal run of two or more newlines is
    a separator and is removed.  [in_sep] tells that the head of [s]
    continues a separator. *)
Fixpoint split_blank_lines (in_sep : bool) (s : str) : str * list str :=
  match s with
  | [] => ([], [])
  | c :: s' =>
      if is_nl c && in_sep then split_blank_lines true s'
      else if is_nl c && startswith s' [nl] then
        let '(cur, rest) := split_blank_lines true s' in ([], cur :: rest)
      else
        let '(cur, rest) := split_blank_lines false s' in (c :: cur, rest)
  end.

Definition split_paragraphs (s : str) : list str :=
  let '(cur, rest) := split_blank_lines false s in cur :: rest.

(** [re.sub(r"\n{4,}", "\n\n\n", s)]: [pending] newlines have been read
    and not yet written. *)
Definition emit_newlines (pending : nat) : str :=
  repeat nl (if 4 <=? pending then 3 else pending).

Fixpoint collapse_from (pending : nat) (s : str) : str :=
  match s with
  | [] => emit_newlines pending
  | c :: s' =>
      if is_nl c then collapse_from (S pending) s'
      else emit_newlines pending ++ c :: collapse_from 0 s'
  end.

Definition collapse_newlines (s : str) : str := collapse_from 0 s.

(** The class [\w] of the [re] module on [str] patterns: [str.isalnum] or
    an underscore. *)
Definition is_word (c : ascii) : bool :=
  let n := code c in
  (((48 <=? n) && (n <=? 57)) || ((65 <=? n) && (n <=? 90)) || (n =? 95)
   || ((97 <=? n) && (n <=? 122)) || (n =? 170)
   || ((178 <=? n) && (n <=? 179)) || (n =? 181)
   || ((185 <=? n) && (n <=? 186)) || ((188 <=? n) && (n <=? 190))
   || ((192 <=? n) && (n <=? 214)) || ((216 <=? n) && (n <=? 246))
   || ((248 <=? n) && (n <=? 255)))%N.

(** [re.sub("[class]+", rep, s)]: every maximal run of the class is
    replaced by [rep].  [in_run] tells that the head of [s] continues a
    run. *)
Fixpoint sub_runs (p : ascii -> bool) (rep : str) (in_run : bool) (s : str)
  : str :=
  match s with
  | [] => []
  | c :: s' =>
      if p c then
        if in_run then sub_runs p rep true s'
        else rep ++ sub_runs p rep true s'
      else c :: sub_runs p rep false s'
  end.

End Re.

(* ================================================================== *)
(** * utils.py *)
(* ================================================================== *)

Module Utils.

(** [len(text) // 4]. *)
Definition estimate_tokens (text : str) : Z :=
  (Z.of_nat (length text) / 4)%Z.

Definition is_dash (c : ascii) : bool := Ascii.eqb c "-".

(** The complement of [[^\w\s-]]. *)
Definition slug_keep (c : ascii) : bool :=
  Re.is_word c || isspace c || is_dash c.

(** The class [[\s_]]. *)
Definition space_or_underscore (c : ascii) : bool :=
  isspace c || Ascii.eqb c "_".

Definition slugify (text : str) (max_length : Z) : str :=
  let text := strip (lower text) in
  let text := filter slug_keep text in
  let text := Re.sub_runs space_or_underscore (lit "-") false text in
  let text := Re.sub_runs is_dash (lit "-") false text in
  let text := strip_of is_dash text in
  let text :=
    if (max_length <? Z.of_nat (length text))%Z
    then rstrip_of is_dash (slice_to_int max_length text)
    else text in
  if is_empty text then lit "untitled" else text.

(** The class of the characters removed from a file name: the double
    quote, the angle brackets, the colon, the slash, the backslash, the
    bar, the question mark and the asterisk. *)
Definition forbidden (c : ascii) : bool :=
  existsb (Ascii.eqb c) ("034"%char :: lit "<>:/\|?*").

Definition dot_or_space (c : ascii) : bool :=
  Ascii.eqb c "." || Ascii.eqb c " ".

Definition sanitize_filename (name : str) : str :=
  let name := filter (fun c => negb (forbidden c)) name in
  let name := strip_of dot_or_space name in
  if is_empty name then lit "untitled" else name.

End Utils.

Import Utils.

(* ================================================================== *)
(** * chunker.py *)
(* ================================================================== *)

Module Chunker.

(** [not section.strip()]. *)
Definition blank (s : str) : bool := is_empty (strip s).

(** The loop of [_merge_sections], on the pair [(chunks, current)]. *)
Fixpoint merge_loop (sections : list str) (max_tokens : Z)
         (chunks : list str) (current : str) : list str * str :=
  match sections with
  | [] => (chunks, current)
  | section :: rest =>
      if blank section then merge_loop rest max_tokens chunks current
      else
        let combined := current ++ section in
        if (estimate_tokens combined <=? max_tokens)%Z
        then merge_loop rest max_tokens chunks combined
        else
          merge_loop rest max_tokens
                     (if blank current then chunks else chunks ++ [current])
                     section
  end.

Definition _merge_sections (sections : list str) (max_tokens : Z)
  : list str :=
  let '(chunks, current) := merge_loop sections max_tokens [] [] in
  let chunks := if blank current then chunks else chunks ++ [current] in
  match chunks with
  | [] => if blank current then [] else [current]
  | _ => chunks
  end.

Definition _split_by_paragraphs (text : str) (max_tokens : Z) : list str :=
  _merge_sections (Re.split_paragraphs text) max_tokens.

Definition fits (max_tokens : Z) (c : str) : bool :=
  (estimate_tokens c <=? max_tokens)%Z.

Definition split_by_headings (markdown : str) (max_tokens : Z) : list str :=
  if fits max_tokens markdown then [markdown]
  else
    let sections := Re.split_before (lit "## ") markdown in
    let chunks := _merge_sections sections max_tokens in
    if forallb (fits max_tokens) chunks then chunks
    else
      let refined :=
        flat_map (fun chunk =>
                    if fits max_tokens chunk then [chunk]
                    else _merge_sections
                           (Re.split_before (lit "# ") chunk) max_tokens)
                 chunks in
      flat_map (fun chunk =>
                  if fits max_tokens chunk then [chunk]
                  else _split_by_paragraphs chunk max_tokens)
               refined.

Definition needs_chunking (content : str) (max_input_tokens : Z) : bool :=
  let available := (max_input_tokens - 10000)%Z in
  (available <? estimate_tokens content)%Z.

Definition chunk_content (content : str) (max_input_tokens : Z) : list str :=
  let available := (max_input_tokens - 10000)%Z in
  if (estimate_tokens content <=? available)%Z then [content]
  else split_by_headings content available.

End Chunker.

(* ================================================================== *)
(** * llm/base.py: the provider interface, and running against it *)
(* ================================================================== *)

Module Llm.

(** The arguments of one [LLMProvider.generate] call. *)
Record request : Type := Request {
  req_system : str;
  req_user : str;
  req_max_output_tokens : Z
}.

(** What a computation can raise: a failure of the provider, an index out
    of range, or the lookup of a method that no class defines. *)
Inductive exn : Type := GenerationError | IndexError | AttributeError.

Inductive outcome (A : Type) : Type :=
| Ok (a : A)
| Raise (e : exn).
Arguments Ok {A} a.
Arguments Raise {A} e.

(** The abstract class [LLMProvider].  The provider answers a request from
    its own state, or fails; nothing is assumed about its answers. *)
Class LLMProvider : Type := {
  provider_state : Type;
  respond : request -> provider_state -> option str * provider_state;
  max_input_tokens : Z;
  default_max_output_tokens : Z
}.

Section Run.
Context {P : LLMProvider}.

(** The provider's state and the log of the calls made so far. *)
Record world : Type := World {
  provider : provider_state;
  calls : list request
}.

Definition M (A : Type) : Type := world -> outcome A * world.

Definition ret {A} (a : A) : M A := fun w => (Ok a, w).

Definition raise {A} (e : exn) : M A := fun w => (Raise e, w).

Definition bind {A B} (m : M A) (k : A -> M B) : M B :=
  fun w =>
    match m w with
    | (Ok a, w') => k a w'
    | (Raise e, w') => (Raise e, w')
    end.

(** [self._llm.generate(system, user, max_output_tokens=n)]. *)
Definition generate (system user : str) (n : Z) : M str :=
  fun w =>
    let r := Request system user n in
    let '(answer, p') := respond r (provider w) in
    let w' := World p' (calls w ++ [r]) in
    match answer with
    | Some text => (Ok text, w')
    | None => (Raise GenerationError, w')
    end.

(** A [for] loop that appends one result per element. *)
Fixpoint for_each {A B} (f : A -> M B) (xs : list A) : M (list B) :=
  match xs with
  | [] => ret []
  | x :: xs' =>
      bind (f x) (fun y =>
      bind (for_each f xs') (fun ys =>
      ret (y :: ys)))
  end.

End Run.

End Llm.

Import Llm.

Notation "x <- m ;; k" := (bind m (fun x => k))
  (at level 61, m at next level, right associativity).

(* ================================================================== *)
(** * generators/base.py *)
(* ================================================================== *)

Module Base.

(** What a subclass of [NoteGenerator] defines, and the two merge prompts;
    the texts of the prompts are left open. *)
Record NoteGenerator : Type := {
  note_type : str;
  _system_prompt : str;
  _user_prompt : str -> str -> str -> str;
  _reduce_system_prompt : str;
  _reduce_user_prompt : str -> str -> str
}.

(** [r"^---\s*\n.*?\n---\s*\n?"] with [re.DOTALL], after the anchor. *)
Definition frontmatter_re : Re.regex :=
  Re.Cat (Re.Lit (lit "---"))
  (Re.Cat (Re.Star true isspace)
  (Re.Cat (Re.Chr is_nl)
  (Re.Cat (Re.Star false (fun _ => true))
  (Re.Cat (Re.Lit (nl :: lit "---"))
  (Re.Cat (Re.Star true isspace)
          (Re.Opt (Re.Chr is_nl))))))).

(** [r"^(#)\s+(.+)"]: the dot does not match a newline. *)
Definition h1_re : Re.regex :=
  Re.Cat (Re.Group (Re.Chr (Ascii.eqb "#"%char)))
  (Re.Cat (Re.Plus isspace)
          (Re.Group (Re.Plus (fun c => negb (is_nl c))))).

(** The test of lines 212 to 222: a level-1 heading that duplicates the
    title. *)
Definition duplicates_title (note_type text title : str) : bool :=
  match Re.match_ h1_re text with
  | Some (_, caps) =>
      if length (nth 0 caps []) =? 1 then
        let heading_text := strip (nth 1 caps []) in
        let title_normalized := strip (lower title) in
        let heading_normalized := strip (lower heading_text) in
        eqb heading_normalized title_normalized
        || startswith title_normalized heading_normalized
        || startswith heading_normalized title_normalized
        || contains note_type heading_normalized
      else false
  | None => false
  end.

Definition drop_first_line (text : str) : str :=
  match find [nl] text with
  | Some first_line_end => strip (slice_from (first_line_end + 1) text)
  | None => []
  end.

Definition strip_title_heading (note_type text title : str) : str :=
  if duplicates_title note_type text title then drop_first_line text
  else text.

(** ["\n".join(line.rstrip() for line in text.split("\n"))]. *)
Definition rstrip_lines (text : str) : str :=
  join [nl] (map rstrip (split nl text)).

Definition _clean_output (note_type text title : str) : str :=
  if is_empty text then text
  else
    let text := strip text in
    let text := Re.sub_at_start frontmatter_re text in
    let text := strip text in
    let text := strip_title_heading note_type text title in
    let text := Re.collapse_newlines text in
    let text := rstrip_lines text in
    strip text.

Definition truncation_marker : str :=
  nl :: nl :: lit "[Content truncated to fit context window]".

Definition sum_tokens (parts : list str) : Z :=
  fold_right Z.add 0%Z (map estimate_tokens parts).

Section Generator.
Context {P : LLMProvider}.
Variable self : NoteGenerator.

Definition _max_output_tokens : Z := default_max_output_tokens.

(** [self._math_formatting_instructions()] and
    [self._vault_linking_instructions()], which the prompts of
    [practice.py] and [summary.py] call.  No class of the package defines
    either method, and [NoteGenerator] has no [__getattr__]: looking the
    method up on [self] raises [AttributeError]. *)
Definition _math_formatting_instructions : M str := raise AttributeError.

Definition _vault_linking_instructions : M str := raise AttributeError.

(** The allowance of [_fit_content_to_context], with its floor. *)
Definition available_for (other_parts : list str) : Z :=
  let overhead := 10000%Z in
  let other_tokens := sum_tokens other_parts in
  let available := (max_input_tokens - overhead - other_tokens)%Z in
  if (available <=? 0)%Z then 10000%Z else available.

Definition _fit_content_to_context (content : str) (other_parts : list str)
  : str :=
  let available := available_for other_parts in
  let content_tokens := estimate_tokens content in
  if (content_tokens <=? available)%Z then content
  else
    let max_chars := (available * 4)%Z in
    let truncated := slice_to (Z.to_nat max_chars) content in
    let last_para := index_of (rfind [nl; nl] truncated) in
    let truncated :=
      if (max_chars / 2 <? last_para)%Z
      then slice_to (Z.to_nat last_para) truncated
      else truncated in
    truncated ++ truncation_marker.

(** The single-call [_generate_body] of the base class. *)
Definition _generate_body (content title url : str) : M str :=
  generate (_system_prompt self) (_user_prompt self content title url)
           _max_output_tokens.

Definition separator : str := [nl; nl] ++ lit "---" ++ [nl; nl].

Definition merge_call (title combined : str) : M str :=
  generate (_reduce_system_prompt self)
           (_reduce_user_prompt self title combined)
           _max_output_tokens.

(** One pass of the [for i in range(0, len(partial_results), 2)] loop. *)
Fixpoint merge_pairs (title : str) (partial_results : list str)
  : M (list str) :=
  match partial_results with
  | a :: b :: rest =>
      m <- merge_call title (a ++ separator ++ b) ;;
      ms <- merge_pairs title rest ;;
      ret (m :: ms)
  | [a] => ret [a]
  | [] => ret []
  end.

(** The [while len(partial_results) > 1] loop, counting its rounds.  The
    loop is cut after [fuel] rounds, which is reported by [None]. *)
Fixpoint reduce_rounds (fuel : nat) (title : str)
         (partial_results : list str) (rounds : nat) (w : world)
  : option (outcome (list str * nat) * world) :=
  if length partial_results <=? 1
  then Some (Ok (partial_results, rounds), w)
  else
    match fuel with
    | O => None
    | S fuel' =>
        match merge_pairs title partial_results w with
        | (Ok merged, w') => reduce_rounds fuel' title merged (S rounds) w'
        | (Raise e, w') => Some (Raise e, w')
        end
    end.

(** [partial_results[0]]. *)
Definition first_of (partial_results : list str) : M str :=
  match partial_results with
  | r :: _ => ret r
  | [] => raise IndexError
  end.

(** The hierarchical branch of [_reduce_results]: the loop, then
    [partial_results[0]]; the number of rounds is returned with it. *)
Definition reduce_hierarchically (fuel : nat) (title : str)
           (partial_results : list str) (w : world)
  : option (outcome (str * nat) * world) :=
  match reduce_rounds fuel title partial_results 0 w with
  | None => None
  | Some (Raise e, w') => Some (Raise e, w')
  | Some (Ok (final, rounds), w') =>
      match first_of final w' with
      | (Ok r, w'') => Some (Ok (r, rounds), w'')
      | (Raise e, w'') => Some (Raise e, w'')
      end
  end.

Definition forget_rounds (r : option (outcome (str * nat) * world))
  : option (outcome str * world) :=
  match r with
  | None => None
  | Some (Ok (text, _), w) => Some (Ok text, w)
  | Some (Raise e, w) => Some (Raise e, w)
  end.

Definition _reduce_results (fuel : nat) (partial_results : list str)
           (title : str) (w : world) : option (outcome str * world) :=
  let combined := join separator partial_results in
  let available := (max_input_tokens - 10000)%Z in
  if (estimate_tokens combined <=? available)%Z
  then Some (merge_call title combined w)
  else forget_rounds (reduce_hierarchically fuel title partial_results w).

(** [_generate_from_chunks]; [generate_body] is [self._generate_body],
    which a subclass may override. *)
Definition _generate_from_chunks
           (generate_body : str -> str -> str -> M str)
           (fuel : nat) (markdown title url : str) (w : world)
  : option (outcome str * world) :=
  let chunks := Chunker.chunk_content markdown max_input_tokens in
  match for_each (fun chunk => generate_body chunk title url) chunks w with
  | (Raise e, w') => Some (Raise e, w')
  | (Ok partial_results, w') =>
      if length partial_results =? 1
      then Some (first_of partial_results w')
      else _reduce_results fuel partial_results title w'
  end.

End Generator.

End Base.

(* ================================================================== *)
(** * generators/practice.py *)
(* ================================================================== *)

Module Practice.

(** A topic of the plan: the dict with keys [name], [concepts], [count]. *)
Record topic : Type := Topic {
  name : str;
  concepts : str;
  count : Z
}.

(** The texts of the prompts, which are left open.  [_system_text] and
    [_section_system_text] are the string literals that [_system_prompt]
    and [_section_system_prompt] begin with. *)
Record prompts : Type := {
  _system_text : str;
  _plan_system_prompt : str;
  _plan_user_prompt : str -> str -> str -> str;
  _section_system_text : str;
  _section_user_prompt : str -> str -> str -> topic -> Z -> str
}.

(** [r"\((\d+)\s+questions?"]. *)
Definition count_re : Re.regex :=
  Re.Cat (Re.Chr (Ascii.eqb "("%char))
  (Re.Cat (Re.Group (Re.Plus isdecimal))
  (Re.Cat (Re.Plus isspace)
  (Re.Cat (Re.Lit (lit "question"))
          (Re.Opt (Re.Chr (Ascii.eqb "s"%char)))))).

(** The loop state of [_parse_topics]; [current_name] starts as [None]. *)
Record parser : Type := Parser {
  topics : list topic;
  current_name : option str;
  current_concepts : list str;
  current_count : Z
}.

(** [if current_name]. *)
Definition named (p : parser) : bool :=
  match current_name p with
  | Some (_ :: _) => true
  | _ => false
  end.

Definition flush (p : parser) : list topic :=
  match current_name p with
  | Some (c :: n) =>
      topics p ++ [Topic (c :: n) (join [nl] (current_concepts p))
                         (current_count p)]
  | _ => topics p
  end.

(** [stripped.split(".", 1)[-1]]. *)
Definition after_first_dot (s : str) : str :=
  match find (lit ".") s with
  | Some i => slice_from (i + 1) s
  | None => s
  end.

Definition topic_name (stripped : str) : str :=
  let fallback :=
    strip_of (Ascii.eqb "*"%char) (strip (after_first_dot stripped)) in
  match find (lit "**") stripped with
  | Some start =>
      match find_from (lit "**") stripped (start + 2) with
      | Some end_ =>
          slice_to (end_ - (start + 2)) (slice_from (start + 2) stripped)
      | None => fallback
      end
  | None => fallback
  end.

Definition topic_count (stripped : str) : Z :=
  match Re.search count_re stripped with
  | Some (_, caps) => int_of_digits (nth 0 caps [])
  | None => 5%Z
  end.

Definition is_topic_line (stripped : str) : bool :=
  match stripped with
  | c :: _ => isdigit c && contains (lit "**") stripped
  | [] => false
  end.

Definition parse_line (p : parser) (line : str) : parser :=
  let stripped := strip line in
  if is_topic_line stripped then
    Parser (flush p) (Some (topic_name stripped)) [] (topic_count stripped)
  else if named p && startswith stripped (lit "-") then
    Parser (topics p) (current_name p) (current_concepts p ++ [stripped])
           (current_count p)
  else p.

Definition _parse_topics (plan : str) : list topic :=
  flush (fold_left parse_line (split nl plan) (Parser [] None [] 5%Z)).

Section Generator.
Context {P : LLMProvider}.
Variable self : Base.NoteGenerator.
Variable tpl : prompts.

(** [_system_prompt]: the text, then what the two helper methods
    return. *)
Definition _system_prompt : M str :=
  math <- Base._math_formatting_instructions ;;
  vault <- Base._vault_linking_instructions ;;
  ret ((_system_text tpl ++ math) ++ vault).

(** [_section_system_prompt], written the same way. *)
Definition _section_system_prompt : M str :=
  math <- Base._math_formatting_instructions ;;
  vault <- Base._vault_linking_instructions ;;
  ret ((_section_system_text tpl ++ math) ++ vault).

(** The loop over the topics: [question_number] is the running counter.
    The arguments of a call are evaluated in order, the system prompt
    first. *)
Fixpoint topic_sections (fitted_content title url : str)
         (todo : list topic) (question_number : Z) : M (list str) :=
  match todo with
  | [] => ret []
  | t :: rest =>
      system <- _section_system_prompt ;;
      section <- generate system
                          (_section_user_prompt tpl fitted_content title url
                                                t question_number)
                          Base._max_output_tokens ;;
      sections <- topic_sections fitted_content title url rest
                                 (question_number + count t)%Z ;;
      ret (section :: sections)
  end.

Definition overhead_buffer : str := times (lit "prompt overhead buffer") 50.

Definition _generate_body (content title url : str) : M str :=
  plan <- generate (_plan_system_prompt tpl)
                   (_plan_user_prompt tpl content title url) 3072%Z ;;
  let topics := _parse_topics plan in
  match topics with
  | [] =>
      system <- _system_prompt ;;
      generate system (Base._user_prompt self content title url)
               Base._max_output_tokens
  | _ =>
      let fitted_content :=
        Base._fit_content_to_context content [plan; overhead_buffer] in
      all_sections <- topic_sections fitted_content title url topics 1%Z ;;
      ret (join [nl; nl] all_sections)
  end.

End Generator.

End Practice.

(* ================================================================== *)
(** * generators/deep_dive.py *)
(* ================================================================== *)

Module DeepDive.

(** A section of the outline: the dict with keys [heading], [points]. *)
Record section : Type := Section_ {
  heading : str;
  points : str
}.

Record prompts : Type := {
  _outline_system_prompt : str;
  _outline_user_prompt : str -> str -> str -> str;
  _expand_system_prompt : str;
  _expand_user_prompt : str -> str -> str -> section -> str -> str
}.

Record parser : Type := Parser {
  sections : list section;
  current_heading : option str;
  current_points : list str
}.

Definition headed (p : parser) : bool :=
  match current_heading p with
  | Some (_ :: _) => true
  | _ => false
  end.

Definition flush (p : parser) : list section :=
  match current_heading p with
  | Some (c :: h) =>
      sections p ++ [Section_ (c :: h) (join [nl] (current_points p))]
  | _ => sections p
  end.

Definition parse_line (p : parser) (line : str) : parser :=
  let stripped := strip line in
  if startswith stripped (lit "## ") && negb (startswith stripped (lit "### "))
  then Parser (flush p) (Some stripped) []
  else if headed p then
    if is_empty stripped then p
    else Parser (sections p) (current_heading p) (current_points p ++ [line])
  else p.

Definition _parse_outline_sections (outline : str) : list section :=
  flush (fold_left parse_line (split nl outline) (Parser [] None [])).

Section Generator.
Context {P : LLMProvider}.
Variable self : Base.NoteGenerator.
Variable tpl : prompts.

Definition overhead_buffer : str := times (lit "prompt overhead buffer") 50.

Definition _generate_body (content title url : str) : M str :=
  outline <- generate (_outline_system_prompt tpl)
                      (_outline_user_prompt tpl content title url) 4096%Z ;;
  let sections := _parse_outline_sections outline in
  match sections with
  | [] =>
      generate (Base._system_prompt self)
               (Base._user_prompt self content title url)
               Base._max_output_tokens
  | _ =>
      let fitted_content :=
        Base._fit_content_to_context content [outline; overhead_buffer] in
      expanded_sections <-
        for_each (fun s =>
                    generate (_expand_system_prompt tpl)
                             (_expand_user_prompt tpl fitted_content title url
                                                  s outline)
                             Base._max_output_tokens)
                 sections ;;
      ret (join [nl; nl] expanded_sections)
  end.

End Generator.

End DeepDive.


(* ================================================================== *)
(** * Vocabulary of the properties *)
(* ================================================================== *)

(** What follows a maximal run of a class: the end, or a character outside
    the class. *)
Definition stops (p : ascii -> bool) (b : str) : Prop :=
  match b with
  | [] => True
  | c :: _ => p c = false
  end.

Definition not_nl (c : ascii) : bool := negb (is_nl c).

(** ** Chunking *)

Definition blank_line : str := [nl; nl].

(** No paragraph boundary inside: ["\n\n" not in c]. *)
Definition unsplittable (c : str) : Prop := contains blank_line c = false.

(** [c] is a contiguous part of [s]. *)
Definition infix (c s : str) : Prop := exists a b, s = a ++ c ++ b.

(** A chunk is within budget or a part of the text. *)
Definition within_or_part (text : str) (max_tokens : Z) (c : str) : Prop :=
  Chunker.fits max_tokens c = true \/ infix c text.

(** Over budget only when an unsplittable part of the text. *)
Definition best_effort (text : str) (max_tokens : Z) (c : str) : Prop :=
  Chunker.fits max_tokens c = true \/ (unsplittable c /\ infix c text).

(** The chunks, each trimmed, can be read off the text in order, with
    nothing but whitespace before, between and after them. *)
Fixpoint reassembles (chunks : list str) (text : str) : bool :=
  match chunks with
  | [] => forallb isspace text
  | c :: rest =>
      let body := strip c in
      let text' := lstrip text in
      startswith text' body && reassembles rest (skipn (length body) text')
  end.

(** The characters of a text that are not whitespace, in order. *)
Definition ink (s : str) : str := filter (fun c => negb (isspace c)) s.

(** ** Sanitizing *)

Definition summary : str := lit "summary".
Definition mars_title : str := lit "Mars - Summary".
Definition mars : str := lit "# Mars".
Definition unrelated : str := lit "# Unrelated Topic".
Definition four_newlines : str := [nl; nl; nl; nl].

(** A text made of a frontmatter block and nothing else. *)
Definition only_frontmatter : str :=
  lit "---" ++ nl :: lit "tags: [mars]" ++ nl :: lit "---".

(** The last three steps of [_clean_output]. *)
Definition finish (text : str) : str :=
  strip (Base.rstrip_lines (Re.collapse_newlines text)).

(** The end of what is left of a line: nothing, or the newline. *)
Definition line_end (r : str) : bool :=
  match r with
  | [] => true
  | d :: _ => is_nl d
  end.

(** [Base.rstrip_lines] in one pass from the right. *)
Fixpoint rstrip_each (s : str) : str :=
  match s with
  | [] => []
  | c :: s' =>
      let r := rstrip_each s' in
      if is_nl c then nl :: r
      else if isspace c && line_end r then r
      else c :: r
  end.

(** No line ends in whitespace. *)
Definition tidy (s : str) : Prop := rstrip_each s = s.

(** ** Context fitting *)



(** ** Generation *)

(** ⌈n / 2⌉ *)
Definition half_up (n : nat) : nat := (n + 1) / 2.

(** The pairs a round merges: first with second, third with fourth, and
    so on; a last element without a partner is in no pair. *)
Fixpoint adjacent_pairs (l : list str) : list (str * str) :=
  match l with
  | a :: b :: rest => (a, b) :: adjacent_pairs rest
  | _ => []
  end.

Section Terms.
Context {P : LLMProvider}.
Variable self : Base.NoteGenerator.

(** The provider never fails. *)
Definition reliable : Prop :=
  forall r s, fst (respond r s) <> None.

(** What one call with request [r] makes of the world [w]: the answer of
    the provider decides the outcome, and the call is logged. *)
Definition one_call (r : request) (w : world) : outcome str * world :=
  (match fst (respond r (provider w)) with
   | Some text => Ok text
   | None => Raise GenerationError
   end,
   World (snd (respond r (provider w))) (calls w ++ [r])).

(** The allowance of [_fit_content_to_context] before its floor. *)
Definition raw_allowance (other_parts : list str) : Z :=
  (max_input_tokens - 10000 - Base.sum_tokens other_parts)%Z.

(** The merge request for a combined text. *)
Definition merge_request (title combined : str) : request :=
  Request (Base._reduce_system_prompt self)
          (Base._reduce_user_prompt self title combined)
          Base._max_output_tokens.

(** The merge request for a pair of results. *)
Definition pair_request (title : str) (ab : str * str) : request :=
  merge_request title (fst ab ++ Base.separator ++ snd ab).

(** The direct request of a style, with its base prompts. *)
Definition direct_request (content title url : str) : request :=
  Request (Base._system_prompt self)
          (Base._user_prompt self content title url)
          Base._max_output_tokens.

(** The answers of the provider to requests sent one after the other
    from the state [s], with its state after them; [None] when one of them
    fails. *)
Fixpoint answers (reqs : list request) (s : provider_state)
  : option (list str * provider_state) :=
  match reqs with
  | [] => Some ([], s)
  | r :: reqs' =>
      match respond r s with
      | (Some a, s') =>
          match answers reqs' s' with
          | Some (rest, s'') => Some (a :: rest, s'')
          | None => None
          end
      | (None, _) => None
      end
  end.

(** What a round carries over unmerged: the last result, when the number
    of results is odd. *)
Definition carried (l : list str) : list str :=
  if Nat.odd (length l) then [last l []] else [].

(** One round of the pairwise reduction, by what can be observed of it:
    from the results [l] in the world [w], one merge request per pair of
    adjacent results is sent, in order, and every one is answered; the
    results [l'] are the answers, followed by the result carried over. *)
Definition round_of (title : str) (l : list str) (w : world)
           (l' : list str) (w' : world) : Prop :=
  exists merged,
    answers (map (pair_request title) (adjacent_pairs l)) (provider w)
    = Some (merged, provider w')
    /\ calls w' = calls w ++ map (pair_request title) (adjacent_pairs l)
    /\ l' = merged ++ carried l.

(** A round that fails: the merge requests of its first [j] pairs are
    answered, the next one is sent and fails, and no request follows. *)
Definition failed_round (title : str) (l : list str) (w w' : world) : Prop :=
  let reqs := map (pair_request title) (adjacent_pairs l) in
  exists j merged s,
    j < length reqs
    /\ answers (firstn j reqs) (provider w) = Some (merged, s)
    /\ respond (nth j reqs (pair_request title ([], []))) s
       = (None, provider w')
    /\ calls w' = calls w ++ firstn (S j) reqs.

(** [k] rounds in a row, each on two or more results. *)
Inductive pair_rounds (title : str)
  : list str -> world -> nat -> list str -> world -> Prop :=
| rounds_none (l : list str) (w : world) : pair_rounds title l w 0 l w
| rounds_next (l : list str) (w : world) (l1 : list str) (w1 : world)
              (k : nat) (l' : list str) (w' : world) :
    2 <= length l ->
    round_of title l w l1 w1 ->
    pair_rounds title l1 w1 k l' w' ->
    pair_rounds title l w (S k) l' w'.

End Terms.

(** ** A provider, a style and prompts to run the code on

    The provider counts its calls and answers [ok] every time; it accepts
    10002 tokens, which leaves chunks of 2 tokens. *)
Definition terse : LLMProvider := {|
  provider_state := nat;
  respond := fun _ n => (Some (lit "ok"), S n);
  max_input_tokens := 10002;
  default_max_output_tokens := 4096
|}.

(** The same provider, answering with the user prompt it was given. *)
Definition echo : LLMProvider := {|
  provider_state := nat;
  respond := fun r n => (Some (req_user r), S n);
  max_input_tokens := 10002;
  default_max_output_tokens := 4096
|}.

(** A style whose user prompts are the content alone. *)
Definition plain : Base.NoteGenerator := {|
  Base.note_type := summary;
  Base._system_prompt := lit "system";
  Base._user_prompt := fun content _ _ => content;
  Base._reduce_system_prompt := lit "merge";
  Base._reduce_user_prompt := fun _ combined => combined
|}.

(** Prompts that show the starting number as a run of plus signs. *)
Definition practice_prompts : Practice.prompts := {|
  Practice._system_text := lit "system";
  Practice._plan_system_prompt := lit "plan";
  Practice._plan_user_prompt := fun content _ _ => content;
  Practice._section_system_text := lit "section";
  Practice._section_user_prompt :=
    fun _ _ _ t first => Practice.name t ++ times (lit "+") (Z.to_nat first)
|}.

Definition deep_dive_prompts : DeepDive.prompts := {|
  DeepDive._outline_system_prompt := lit "outline";
  DeepDive._outline_user_prompt := fun content _ _ => content;
  DeepDive._expand_system_prompt := lit "expand";
  DeepDive._expand_user_prompt := fun _ _ _ s _ => DeepDive.heading s
|}.

Definition start {P : LLMProvider} (s : provider_state) : world :=
  World s [].

(** A plan of three topics; the second one gives no count. *)
Definition three_topics : str :=
  lit "1. **A** (3 questions: 2 multiple choice, 1 true/false)"
  ++ nl :: lit "   - a concept"
  ++ nl :: lit "2. **B**"
  ++ nl :: lit "3. **C** (2 questions)".

(** Three paragraphs of 4, 4 and 12 characters. *)
Definition three_paragraphs : str :=
  lit "aaaa" ++ [nl; nl] ++ lit "bbbb" ++ [nl; nl] ++ lit "cccccccccccc".

(** Three paragraphs of 12 characters, each a chunk of its own. *)
Definition long_a : str := lit "aaaaaaaaaaaa".
Definition long_b : str := lit "bbbbbbbbbbbb".
Definition long_c : str := lit "cccccccccccc".

Definition three_long_paragraphs : str :=
  long_a ++ [nl; nl] ++ long_b ++ [nl; nl] ++ long_c.

(** ** Further vocabulary *)

(* ---------- vocabulary (to move) ---------- *)
Definition has_ink (c : str) : Prop := Chunker.blank c = false.
Definition all_space (w : str) : Prop := forallb isspace w = true.



(** The test of lines 217 to 222 on a heading text. *)
Definition heading_matches (note_type title heading : str) : bool :=
  let title_normalized := strip (lower title) in
  let heading_normalized := strip (lower (strip heading)) in
  eqb heading_normalized title_normalized
  || startswith title_normalized heading_normalized
  || startswith heading_normalized title_normalized
  || contains note_type heading_normalized.

Definition fence : str := lit "---".

Definition no_nl (l : str) : Prop := forallb not_nl l = true.

Definition is_section_line (line : str) : bool :=
  startswith (strip line) (lit "## ")
  && negb (startswith (strip line) (lit "### ")).

Definition has_text (line : str) : bool := negb (is_empty (strip line)).

Definition outline_lines (ls : list str) : list DeepDive.section :=
  DeepDive.flush
    (fold_left DeepDive.parse_line ls (DeepDive.Parser [] None [])).

Definition is_bullet (stripped : str) : bool := startswith stripped (lit "-").

Definition plan_lines (ls : list str) : list Practice.topic :=
  Practice.flush
    (fold_left Practice.parse_line ls (Practice.Parser [] None [] 5%Z)).

Definition small_plan : str :=
  lit "Plan:" ++ nl :: lit "1. **Basics** (3 questions)" ++ nl
    :: lit "   - orbit" ++ nl :: lit "2. **Moons**" ++ nl
    :: lit "  - Phobos" ++ nl :: lit "  see also" ++ nl :: lit "- Deimos".

Definition stars : str := lit "**".

(** The characters of a slug: a dash, or a word character that is not an
    underscore and that [str.lower] leaves alone. *)
Definition slug_char (c : ascii) : bool :=
  is_dash c
  || (Re.is_word c && negb (Ascii.eqb c "_") && Ascii.eqb (lower_char c) c).

(** A slug: not empty, made of slug characters, without two dashes in a
    row and without a dash at either end. *)
Definition is_slug (s : str) : Prop :=
  is_empty s = false
  /\ forallb slug_char s = true
  /\ contains (lit "--") s = false
  /\ strip_of is_dash s = s.

(** A file name without the forbidden characters and without a dot or a
    space at either end. *)
Definition is_filename (s : str) : Prop :=
  is_empty s = false
  /\ forallb (fun c => negb (forbidden c)) s = true
  /\ strip_of dot_or_space s = s.

Definition slug_body (text : str) : str :=
  strip_of is_dash
    (Re.sub_runs is_dash (lit "-") false
       (Re.sub_runs space_or_underscore (lit "-") false
          (filter slug_keep (strip (lower text))))).

(** The slug before the fallback to [untitled]. *)
Definition slug_cut (text : str) (max_length : Z) : str :=
  let body := slug_body text in
  if (max_length <? Z.of_nat (length body))%Z
  then rstrip_of is_dash (slice_to_int max_length body)
  else body.

(* ================================================================== *)
(** * Properties of the string operations *)
(* ================================================================== *)

Section Strip.
Variable p : ascii -> bool.

Lemma rstrip_of_head (s : str) (a : ascii) (r : str) :
  rstrip_of p s = a :: r -> exists s', s = a :: s'.
Proof.
  destruct s as [|c s']; simpl; [discriminate|].
  destruct (rstrip_of p s'); [destruct (p c)|]; intros E; inversion E; eauto.
Qed.

Lemma rstrip_of_idem (s : str) :
  rstrip_of p (rstrip_of p s) = rstrip_of p s.
Proof.
  induction s as [|c s' IH]; simpl; [reflexivity|].
  destruct (rstrip_of p s') as [|a r] eqn:E.
  - destruct (p c) eqn:Hc; simpl; [reflexivity|now rewrite Hc].
  - simpl in *. rewrite IH. reflexivity.
Qed.

Lemma rstrip_of_nil_lstrip (s : str) :
  rstrip_of p s = [] -> lstrip_of p s = [].
Proof.
  induction s as [|c s' IH]; simpl; [reflexivity|].
  destruct (rstrip_of p s'); [|discriminate].
  destruct (p c); [auto|discriminate].
Qed.

Lemma lstrip_of_fixed (c : ascii) (s : str) :
  p c = false -> lstrip_of p (c :: s) = c :: s.
Proof. intros H; simpl; now rewrite H. Qed.

Lemma lstrip_of_head (s : str) (a : ascii) (r : str) :
  lstrip_of p s = a :: r -> p a = false.
Proof.
  induction s as [|c s' IH]; simpl; [discriminate|].
  destruct (p c) eqn:Hc; [exact IH|].
  intros E; inversion E; subst; exact Hc.
Qed.

Lemma lstrip_rstrip_comm (s : str) :
  lstrip_of p (rstrip_of p s) = rstrip_of p (lstrip_of p s).
Proof.
  induction s as [|c s' IH]; [reflexivity|].
  cbn [lstrip_of rstrip_of].
  destruct (p c) eqn:Hc.
  - destruct (rstrip_of p s') as [|a r] eqn:E.
    + rewrite <- IH. reflexivity.
    + rewrite <- IH. cbn [lstrip_of]. now rewrite Hc.
  - cbn [rstrip_of].
    destruct (rstrip_of p s') as [|a r]; [rewrite Hc|]; simpl; now rewrite Hc.
Qed.

Lemma lstrip_of_idem (s : str) :
  lstrip_of p (lstrip_of p s) = lstrip_of p s.
Proof.
  destruct (lstrip_of p s) as [|b t] eqn:E; [reflexivity|].
  apply lstrip_of_fixed. eapply lstrip_of_head; eauto.
Qed.

Lemma strip_of_idem (s : str) :
  strip_of p (strip_of p s) = strip_of p s.
Proof.
  unfold strip_of.
  now rewrite lstrip_rstrip_comm, rstrip_of_idem, lstrip_of_idem.
Qed.

Lemma strip_of_rstrip_of (s : str) :
  strip_of p (rstrip_of p s) = strip_of p s.
Proof.
  unfold strip_of. now rewrite lstrip_rstrip_comm, rstrip_of_idem.
Qed.

End Strip.

Lemma strip_idem (s : str) : strip (strip s) = strip s.
Proof. apply strip_of_idem. Qed.

Lemma taken_prefix (a b : str) :
  firstn (length (a ++ b) - length b) (a ++ b) = a.
Proof.
  rewrite length_app, Nat.add_sub, firstn_app, Nat.sub_diag, firstn_all.
  simpl. apply app_nil_r.
Qed.

(* ================================================================== *)
(** * Properties of the matcher *)
(* ================================================================== *)

Lemma star_greedy_exact (A : Type) (p : ascii -> bool) (a b : str)
      (k : str -> option A) (x : A) :
  forallb p a = true -> stops p b -> k b = Some x ->
  Re.star_greedy p (a ++ b) k = Some x.
Proof.
  intros Ha Hb Hk. induction a as [|c a IH]; simpl.
  - destruct b as [|d b]; simpl; [exact Hk|].
    simpl in Hb. now rewrite Hb.
  - simpl in Ha. apply andb_prop in Ha as [Hc Ha].
    rewrite Hc, (IH Ha). reflexivity.
Qed.

(** A text that does not begin with a dash has no frontmatter block. *)
Lemma frontmatter_needs_dash (text : str) :
  startswith text (lit "-") = false ->
  Re.sub_at_start Base.frontmatter_re text = text.
Proof.
  unfold Re.sub_at_start, Re.match_. intros H.
  destruct text as [|c text]; [reflexivity|].
  cbn -[Ascii.eqb] in *.
  destruct (Ascii.eqb "-" c); [simpl in H; discriminate H|reflexivity].
Qed.

(** The heading pattern on a line ["# " ++ h]: the groups are ["#"] and
    the heading text. *)
Lemma h1_match_line (c : ascii) (h tail : str) :
  isspace c = false ->
  forallb (fun c => negb (is_nl c)) (c :: h) = true ->
  stops (fun c => negb (is_nl c)) tail ->
  Re.match_ Base.h1_re (lit "# " ++ (c :: h) ++ tail)
  = Some (tail, [lit "#"; c :: h]).
Proof.
  intros Hc Hh Ht. unfold Re.match_, Base.h1_re, Re.Plus.
  simpl in Hh. apply andb_prop in Hh as [Hc' Hh].
  cbn -[Ascii.eqb isspace is_nl Nat.sub firstn].
  change (Ascii.eqb "#" "#") with true. change (isspace " ") with true.
  cbv iota. rewrite Hc, Hc'.
  apply star_greedy_exact; [exact Hh|exact Ht|].
  f_equal. f_equal.
  replace (S (S (S (length (h ++ tail)))) - S (S (length (h ++ tail))))
    with 1 by lia.
  cbn [firstn]. f_equal. f_equal.
  change (c :: h ++ tail) with ((c :: h) ++ tail).
  change (S (length (h ++ tail))) with (length ((c :: h) ++ tail)).
  apply taken_prefix.
Qed.

Lemma rstrip_of_app (p : ascii -> bool) (a b : str) :
  rstrip_of p (a ++ b)
  = match rstrip_of p b with
    | [] => rstrip_of p a
    | r => a ++ r
    end.
Proof.
  induction a as [|c a IH]; simpl.
  - now destruct (rstrip_of p b).
  - rewrite IH. destruct (rstrip_of p b) as [|x r] eqn:E; [reflexivity|].
    destruct (a ++ x :: r) eqn:E'; [|reflexivity].
    now destruct a.
Qed.

Section Sanitizer.
Variable note_type : str.
Variable title : str.

Let clean (text : str) : str := Base._clean_output note_type text title.

(** Cleaning starts by trimming: it cannot tell a text from its trimmed
    form. *)
Lemma clean_strip (text : str) : clean text = clean (strip text).
Proof.
  unfold clean, Base._clean_output.
  destruct text as [|c text]; [reflexivity|].
  cbn [is_empty]. rewrite strip_idem.
  destruct (strip (c :: text)) as [|a r] eqn:E; [|reflexivity].
  reflexivity.
Qed.

(** The sanitizer on a text that is already trimmed and carries no
    frontmatter block. *)
Lemma clean_trimmed (text : str) :
  strip text = text ->
  Re.sub_at_start Base.frontmatter_re text = text ->
  clean text
  = strip (Base.rstrip_lines
             (Re.collapse_newlines
                (Base.strip_title_heading note_type text title))).
Proof.
  intros Hs Hf. unfold clean, Base._clean_output.
  destruct text as [|c text]; [reflexivity|].
  cbn [is_empty]. now rewrite Hs, Hf, Hs.
Qed.

End Sanitizer.

Lemma stripped_line (c : ascii) (l rest : str) :
  isspace c = false ->
  rstrip (c :: l) = c :: l ->
  strip ((c :: l) ++ nl :: rest)
  = match rstrip rest with
    | [] => c :: l
    | r => (c :: l) ++ nl :: r
    end.
Proof.
  intros Hc Hl. unfold strip, strip_of.
  change ((c :: l) ++ nl :: rest) with (c :: (l ++ nl :: rest)).
  rewrite lstrip_of_fixed by exact Hc.
  change (c :: (l ++ nl :: rest)) with ((c :: l) ++ nl :: rest).
  rewrite rstrip_of_app. unfold rstrip in *.
  change (rstrip_of isspace (nl :: rest))
    with (match rstrip_of isspace rest with
          | [] => if isspace nl then [] else [nl]
          | x :: r => nl :: x :: r
          end).
  destruct (rstrip_of isspace rest); [|reflexivity].
  change (isspace nl) with true. cbv iota. exact Hl.
Qed.

Lemma clean_mars_line (nt rest : str) :
  Base._clean_output nt (mars ++ nl :: rest) mars_title
  = finish (strip rest).
Proof.
  unfold finish. rewrite clean_strip.
  change mars with ("#"%char :: lit " Mars").
  rewrite stripped_line by reflexivity.
  destruct (rstrip rest) as [|a r] eqn:E.
  - unfold strip, strip_of. fold lstrip.
    unfold lstrip. rewrite (rstrip_of_nil_lstrip isspace rest E).
    vm_compute. reflexivity.
  - rewrite clean_trimmed.
    + unfold Base.strip_title_heading.
      assert (D : Base.duplicates_title nt
                    (("#"%char :: lit " Mars") ++ nl :: a :: r) mars_title
                  = true).
      { unfold Base.duplicates_title.
        change (("#"%char :: lit " Mars") ++ nl :: a :: r)
          with (lit "# " ++ ("M"%char :: lit "ars") ++ nl :: a :: r).
        rewrite h1_match_line by reflexivity.
        vm_compute. reflexivity. }
      rewrite D. unfold Base.drop_first_line.
      cbn -[strip]. rewrite <- E. unfold strip, rstrip.
      now rewrite strip_of_rstrip_of.
    + assert (HT : strip (("#"%char :: lit " Mars") ++ nl :: rest)
                   = ("#"%char :: lit " Mars") ++ nl :: a :: r)
        by (rewrite stripped_line, E by reflexivity; reflexivity).
      rewrite <- HT. apply strip_idem.
    + apply frontmatter_needs_dash. reflexivity.
Qed.

Lemma split_char_line (l rest : str) :
  forallb not_nl l = true ->
  split_char nl (l ++ nl :: rest) = (l, split nl rest).
Proof.
  intros H. induction l as [|c l IH].
  - cbn -[Ascii.eqb]. unfold split.
    destruct (split_char nl rest). reflexivity.
  - simpl in H. apply andb_prop in H as [Hc H].
    cbn -[Ascii.eqb]. rewrite (IH H).
    unfold not_nl, is_nl in Hc. apply negb_true_iff in Hc. now rewrite Hc.
Qed.

Lemma rstrip_lines_line (l rest : str) :
  forallb not_nl l = true ->
  Base.rstrip_lines (l ++ nl :: rest)
  = rstrip l ++ nl :: Base.rstrip_lines rest.
Proof.
  intros H. unfold Base.rstrip_lines, split at 1.
  rewrite (split_char_line _ _ H). unfold split.
  destruct (split_char nl rest). reflexivity.
Qed.

Lemma collapse_line (l rest : str) :
  forallb not_nl l = true ->
  Re.collapse_from 0 (l ++ rest) = l ++ Re.collapse_from 0 rest.
Proof.
  intros H. induction l as [|c l IH]; [reflexivity|].
  simpl in H. apply andb_prop in H as [Hc H].
  unfold not_nl in Hc. apply negb_true_iff in Hc.
  cbn [app Re.collapse_from]. rewrite Hc, (IH H). reflexivity.
Qed.

Lemma collapse_from_pending (n : nat) (s : str) :
  exists t, Re.collapse_from (S n) s = nl :: t.
Proof.
  revert n. induction s as [|c s IH]; intros n; cbn [Re.collapse_from].
  - unfold Re.emit_newlines.
    destruct (4 <=? S n); simpl; eauto.
  - destruct (is_nl c); [apply IH|].
    unfold Re.emit_newlines.
    destruct (4 <=? S n); simpl; eauto.
Qed.

Lemma clean_unrelated_alone (nt : str) :
  contains nt (lit "unrelated topic") = false ->
  Base._clean_output nt unrelated mars_title = unrelated.
Proof.
  intros Hnt. rewrite clean_trimmed by reflexivity.
  unfold Base.strip_title_heading.
  assert (D : Base.duplicates_title nt unrelated mars_title = false).
  { unfold Base.duplicates_title.
    change unrelated
      with (lit "# " ++ ("U"%char :: lit "nrelated Topic") ++ []).
    rewrite h1_match_line by reflexivity.
    vm_compute. vm_compute in Hnt. exact Hnt. }
  rewrite D. reflexivity.
Qed.

Lemma clean_unrelated_line (nt rest : str) :
  contains nt (lit "unrelated topic") = false ->
  exists tail,
    Base._clean_output nt (unrelated ++ nl :: rest) mars_title
    = unrelated ++ tail
    /\ (tail = [] \/ exists t, tail = nl :: t).
Proof.
  intros Hnt. rewrite clean_strip.
  change unrelated with ("#"%char :: lit " Unrelated Topic").
  rewrite stripped_line by reflexivity.
  destruct (rstrip rest) as [|a r] eqn:E.
  - exists []. split; [|now left].
    rewrite app_nil_r. apply clean_unrelated_alone, Hnt.
  - rewrite clean_trimmed.
    + unfold Base.strip_title_heading.
      assert (D : Base.duplicates_title nt
                    (("#"%char :: lit " Unrelated Topic") ++ nl :: a :: r)
                    mars_title = false).
      { unfold Base.duplicates_title.
        change (("#"%char :: lit " Unrelated Topic") ++ nl :: a :: r)
          with (lit "# " ++ ("U"%char :: lit "nrelated Topic")
                     ++ nl :: a :: r).
        rewrite h1_match_line by reflexivity.
        vm_compute. vm_compute in Hnt. exact Hnt. }
      rewrite D. unfold Re.collapse_newlines.
      rewrite collapse_line by reflexivity.
      change (Re.collapse_from 0 (nl :: a :: r))
        with (Re.collapse_from 1 (a :: r)).
      destruct (collapse_from_pending 0 (a :: r)) as [t Ht]. rewrite Ht.
      rewrite rstrip_lines_line by reflexivity.
      change (rstrip ("#"%char :: lit " Unrelated Topic"))
        with ("#"%char :: lit " Unrelated Topic").
      unfold strip, strip_of.
      change (("#"%char :: lit " Unrelated Topic")
                ++ nl :: Base.rstrip_lines t)
        with ("#"%char ::
                (lit " Unrelated Topic" ++ nl :: Base.rstrip_lines t)).
      rewrite lstrip_of_fixed by reflexivity.
      change ("#"%char ::
                (lit " Unrelated Topic" ++ nl :: Base.rstrip_lines t))
        with (("#"%char :: lit " Unrelated Topic")
                ++ nl :: Base.rstrip_lines t).
      rewrite rstrip_of_app.
      destruct (rstrip_of isspace (nl :: Base.rstrip_lines t))
        as [|x u] eqn:Eu.
      * exists []. split; [|now left]. now rewrite app_nil_r.
      * destruct (rstrip_of_head _ _ Eu) as [s' Hs']. inversion Hs'; subst x.
        exists (nl :: u). split; [reflexivity|right; eauto].
    + assert (HT : strip (("#"%char :: lit " Unrelated Topic") ++ nl :: rest)
                   = ("#"%char :: lit " Unrelated Topic") ++ nl :: a :: r)
        by (rewrite stripped_line, E by reflexivity; reflexivity).
      rewrite <- HT. apply strip_idem.
    + apply frontmatter_needs_dash. reflexivity.
Qed.

(** C8.  With the expected title "Mars - Summary": a text whose first line
    is "# Mars" loses that line, whatever the note type (the text alone
    becomes empty, and with more lines the result is what the last three
    steps make of the rest); a text whose first line is "# Unrelated
    Topic" keeps that line as its first line, for every note type that
    does not occur in "unrelated topic". *)
Theorem duplicate_heading_removal :
  (forall nt, Base._clean_output nt mars mars_title = [])
  /\ (forall nt rest,
        Base._clean_output nt (mars ++ nl :: rest) mars_title
        = finish (strip rest))
  /\ (forall nt,
        contains nt (lit "unrelated topic") = false ->
        Base._clean_output nt unrelated mars_title = unrelated)
  /\ (forall nt rest,
        contains nt (lit "unrelated topic") = false ->
        exists tail,
          Base._clean_output nt (unrelated ++ nl :: rest) mars_title
          = unrelated ++ tail
          /\ (tail = [] \/ exists t, tail = nl :: t)).
Proof.
  split; [intros nt; vm_compute; reflexivity|].
  split; [exact clean_mars_line|].
  split; [exact clean_unrelated_alone|exact clean_unrelated_line].
Qed.

Lemma duplicate_heading_removal_witness :
  contains summary (lit "unrelated topic") = false
  /\ Base._clean_output summary unrelated mars_title = unrelated
  /\ exists tail,
       Base._clean_output summary
         (unrelated ++ nl :: lit "Olympus Mons.  ") mars_title
       = unrelated ++ tail
       /\ (tail = [] \/ exists t, tail = nl :: t).
Proof.
  split; [reflexivity|]. split.
  - apply (proj1 (proj2 (proj2 duplicate_heading_removal))). reflexivity.
  - apply (proj2 (proj2 (proj2 duplicate_heading_removal))). reflexivity.
Defined.

(** C10.  The sanitizer returns the empty string for some non-empty raw
    texts: a text that is only the heading "# Mars" under the title
    "Mars - Summary", and a text that is only a frontmatter block, under
    any title. *)
Theorem sanitizer_can_return_empty :
  (mars <> [] /\ forall nt, Base._clean_output nt mars mars_title = [])
  /\ (only_frontmatter <> []
      /\ forall nt title, Base._clean_output nt only_frontmatter title = []).
Proof.
  split; (split; [discriminate|]).
  - intros nt. vm_compute. reflexivity.
  - intros nt title. vm_compute. reflexivity.
Qed.

Arguments Ascii.eqb : simpl never.

Lemma rstrip_each_cons (c : ascii) (s : str) :
  rstrip_each (c :: s)
  = if is_nl c then nl :: rstrip_each s
    else if isspace c && line_end (rstrip_each s) then rstrip_each s
         else c :: rstrip_each s.
Proof. reflexivity. Qed.

Lemma split_char_no_sep (sep : ascii) (s : str) :
  forallb (fun c => negb (Ascii.eqb c sep)) (fst (split_char sep s)) = true.
Proof.
  induction s as [|c s IH]; [reflexivity|].
  cbn [split_char]. destruct (split_char sep s) as [cur rest].
  destruct (Ascii.eqb c sep) eqn:E; [reflexivity|].
  cbn [fst forallb] in *. now rewrite E, IH.
Qed.

Lemma rstrip_line_end (cur : str) :
  forallb (fun c => negb (Ascii.eqb c nl)) cur = true ->
  line_end (rstrip cur) = is_empty (rstrip cur).
Proof.
  intros H. destruct (rstrip cur) as [|d r] eqn:E; [reflexivity|].
  destruct (rstrip_of_head _ _ E) as [s' Hs']. subst cur.
  cbn [forallb] in H. apply andb_prop in H as [H _].
  apply negb_true_iff in H. exact H.
Qed.

Lemma rstrip_lines_cons (c : ascii) (s : str) :
  Base.rstrip_lines (c :: s)
  = if is_nl c then nl :: Base.rstrip_lines s
    else match split_char nl s with
         | (cur, rest) => join [nl] (rstrip (c :: cur) :: map rstrip rest)
         end.
Proof.
  unfold Base.rstrip_lines, split. cbn [split_char].
  destruct (split_char nl s) as [cur rest]. unfold is_nl.
  destruct (Ascii.eqb c nl); reflexivity.
Qed.

Lemma rstrip_lines_each (s : str) : Base.rstrip_lines s = rstrip_each s.
Proof.
  induction s as [|c s IH]; [reflexivity|].
  rewrite rstrip_lines_cons. cbn [rstrip_each]. rewrite <- IH.
  destruct (is_nl c) eqn:Ec; [reflexivity|].
  unfold Base.rstrip_lines, split.
  pose proof (split_char_no_sep nl s) as Hn.
  destruct (split_char nl s) as [cur rest]. cbn [fst] in Hn.
  pose proof (rstrip_line_end cur Hn) as Hl.
  unfold rstrip in *. cbn [map rstrip_of].
  destruct (rstrip_of isspace cur) as [|d r] eqn:E.
  - destruct rest as [|l rest]; cbn [join map app line_end].
    + rewrite andb_true_r. now destruct (isspace c).
    + change (is_nl nl) with true. rewrite andb_true_r.
      now destruct (isspace c).
  - cbn [is_empty] in Hl.
    destruct rest as [|l rest]; cbn [join map app line_end] in *;
      rewrite Hl, andb_false_r; reflexivity.
Qed.

Lemma rstrip_each_length (s : str) : length (rstrip_each s) <= length s.
Proof.
  induction s as [|c s IH]; [reflexivity|]. cbn [rstrip_each].
  destruct (is_nl c); [simpl; lia|].
  destruct (isspace c && line_end (rstrip_each s)); simpl; lia.
Qed.

Lemma rstrip_each_idem (s : str) :
  rstrip_each (rstrip_each s) = rstrip_each s.
Proof.
  induction s as [|c s IH]; [reflexivity|]. cbn [rstrip_each].
  destruct (is_nl c) eqn:Ec.
  - cbn [rstrip_each]. change (is_nl nl) with true. cbv iota. now rewrite IH.
  - destruct (isspace c && line_end (rstrip_each s)) eqn:E; [exact IH|].
    cbn [rstrip_each]. rewrite Ec, IH. rewrite E. reflexivity.
Qed.

Lemma tidy_tail (c : ascii) (s : str) : tidy (c :: s) -> tidy s.
Proof.
  unfold tidy. cbn [rstrip_each]. pose proof (rstrip_each_length s) as L.
  destruct (is_nl c); [intros H; injection H; auto|].
  destruct (isspace c && line_end (rstrip_each s)).
  - intros H. rewrite H in L. simpl in L. lia.
  - intros H; injection H; auto.
Qed.

Lemma tidy_lstrip (s : str) : tidy s -> tidy (lstrip s).
Proof.
  induction s as [|c s IH]; [auto|]. intros H. unfold lstrip.
  cbn [lstrip_of]. destruct (isspace c); [|exact H].
  apply IH. eapply tidy_tail; eauto.
Qed.

Lemma tidy_rstrip (s : str) : tidy s -> tidy (rstrip s).
Proof.
  induction s as [|c s IH]; [auto|]. intros H.
  pose proof (tidy_tail H) as Hs. specialize (IH Hs).
  unfold rstrip in *. cbn [rstrip_of].
  destruct (rstrip_of isspace s) as [|d r] eqn:E.
  - destruct (isspace c) eqn:Ec; [reflexivity|].
    unfold tidy. rewrite rstrip_each_cons. cbn [rstrip_each line_end].
    destruct (is_nl c) eqn:En.
    + unfold is_nl in En. apply Ascii.eqb_eq in En. subst c. discriminate.
    + now rewrite Ec.
  - unfold tidy in *. rewrite rstrip_each_cons in H |- *. rewrite IH.
    rewrite Hs in H.
    destruct (is_nl c) eqn:En.
    + injection H as H1. now rewrite <- H1.
    + destruct (rstrip_of_head _ _ E) as [s' Hs']. subst s.
      cbn [line_end] in *.
      destruct (isspace c && is_nl d); [|reflexivity].
      exfalso. apply (f_equal (@length _)) in H. simpl in H. lia.
Qed.

Lemma tidy_strip (s : str) : tidy s -> tidy (strip s).
Proof. intros H. apply tidy_rstrip, tidy_lstrip, H. Qed.

Lemma contains_app_r (p a b : str) :
  contains p (a ++ b) = false -> contains p b = false.
Proof.
  induction a as [|c a IH]; [auto|]. cbn [app contains].
  intros H. apply orb_false_iff in H as [_ H]. auto.
Qed.

Lemma startswith_repeat_nl (n : nat) (s : str) :
  4 <= n -> startswith (repeat nl n ++ s) four_newlines = true.
Proof.
  intros H. do 4 (destruct n as [|n]; [lia|]). reflexivity.
Qed.

Lemma collapse_from_fixed (s : str) : forall n,
  contains four_newlines (repeat nl n ++ s) = false ->
  Re.collapse_from n s = repeat nl n ++ s.
Proof.
  assert (short : forall n t, contains four_newlines (repeat nl n ++ t) = false
                         -> Re.emit_newlines n = repeat nl n).
  { intros n t H. unfold Re.emit_newlines.
    destruct (Nat.leb_spec 4 n) as [Hn|Hn]; [|reflexivity].
    destruct (repeat nl n ++ t) eqn:E;
      cbn [contains] in H; apply orb_false_iff in H as [H _];
      rewrite <- E, startswith_repeat_nl in H by exact Hn; discriminate. }
  induction s as [|c s IH]; intros n H; cbn [Re.collapse_from].
  - rewrite app_nil_r. eapply short; eauto.
  - destruct (is_nl c) eqn:Ec.
    + unfold is_nl in Ec. apply Ascii.eqb_eq in Ec. subst c.
      assert (E : repeat nl n ++ nl :: s = repeat nl (S n) ++ s).
      { change (nl :: s) with ([nl] ++ s). rewrite app_assoc.
        f_equal. cbn [repeat]. symmetry. apply repeat_cons. }
      rewrite E in *. apply IH, H.
    + rewrite (short _ _ H). f_equal. f_equal.
      apply (IH 0). cbn [repeat app].
      change (c :: s) with ([c] ++ s) in H. rewrite app_assoc in H.
      eapply contains_app_r; eauto.
Qed.

Lemma collapse_fixed (s : str) :
  contains four_newlines s = false -> Re.collapse_newlines s = s.
Proof. intros H. apply (collapse_from_fixed s 0 H). Qed.

Section Idempotence.
Variable note_type : str.
Variable title : str.

Let clean (text : str) : str := Base._clean_output note_type text title.

Lemma clean_is_trimmed (x : str) : strip (clean x) = clean x.
Proof.
  unfold clean, Base._clean_output.
  destruct (is_empty x) eqn:E; [destruct x; [reflexivity|discriminate]|].
  apply strip_idem.
Qed.

Lemma clean_is_tidy (x : str) : tidy (clean x).
Proof.
  unfold clean, Base._clean_output.
  destruct (is_empty x) eqn:E; [destruct x; [reflexivity|discriminate]|].
  apply tidy_strip. rewrite rstrip_lines_each. apply rstrip_each_idem.
Qed.

(** C2, amended.  A second pass of the sanitizer changes nothing when the
    first result does not itself begin with a frontmatter block, does not
    begin with a heading that duplicates the title, and has no run of four
    newlines. *)
Theorem clean_twice (x : str) :
  Re.match_ Base.frontmatter_re (clean x) = None ->
  Base.duplicates_title note_type (clean x) title = false ->
  contains four_newlines (clean x) = false ->
  clean (clean x) = clean x.
Proof.
  intros Hf Hd Hc. unfold clean at 1.
  rewrite clean_trimmed.
  - unfold Base.strip_title_heading. fold (clean x). rewrite Hd.
    rewrite (collapse_fixed _ Hc), rstrip_lines_each.
    rewrite (clean_is_tidy x). apply clean_is_trimmed.
  - apply clean_is_trimmed.
  - unfold Re.sub_at_start. fold (clean x). now rewrite Hf.
Qed.

End Idempotence.

Lemma clean_twice_witness :
  let y := Base._clean_output summary
             (mars ++ nl :: lit "The red planet.  ") mars_title in
  Re.match_ Base.frontmatter_re y = None
  /\ Base.duplicates_title summary y mars_title = false
  /\ contains four_newlines y = false
  /\ Base._clean_output summary y mars_title = y.
Proof.
  cbv zeta. do 3 (split; [reflexivity|]).
  apply (clean_twice summary mars_title
           (mars ++ nl :: lit "The red planet.  ")); reflexivity.
Defined.

(** C2 as stated fails.  A second pass removes a second duplicate heading,
    a second frontmatter block, and the newlines that the first pass laid
    bare when it trimmed whitespace-only lines. *)
Lemma clean_not_idempotent :
  let clean x := Base._clean_output summary x mars_title in
  let headings := mars ++ nl :: mars ++ nl :: lit "body" in
  let blocks := only_frontmatter ++ nl :: only_frontmatter
                  ++ nl :: lit "body" in
  let spaces := lit "a" ++ nl :: lit " " ++ nl :: lit " " ++ nl :: lit " "
                  ++ nl :: lit " " ++ nl :: lit "b" in
  clean (clean headings) <> clean headings
  /\ clean (clean blocks) <> clean blocks
  /\ clean (clean spaces) <> clean spaces.
Proof. vm_compute. repeat split; discriminate. Qed.

Lemma startswith_length (p s : str) :
  startswith s p = true -> length p <= length s.
Proof.
  revert s. induction p as [|x p IH]; intros s H; simpl; [lia|].
  destruct s as [|y s]; simpl in H; [discriminate|].
  apply andb_prop in H as [_ H]. apply IH in H. simpl. lia.
Qed.

Lemma rfind_none (p s : str) :
  rfind p s = None ->
  forall j, j <= length s -> startswith (skipn j s) p = false.
Proof.
  induction s as [|c s IH]; cbn [rfind].
  - destruct (startswith [] p) eqn:E; [discriminate|].
    intros _ j Hj. simpl in Hj. assert (j = 0) by lia. subst. exact E.
  - destruct (rfind p s) as [k|] eqn:Ek; [discriminate|].
    destruct (startswith (c :: s) p) eqn:E; [discriminate|].
    intros _ [|j] Hj; [exact E|]. simpl in Hj. apply IH; [reflexivity|lia].
Qed.

Lemma rfind_some (p s : str) (i : nat) :
  rfind p s = Some i ->
  startswith (skipn i s) p = true
  /\ forall j, i < j -> j <= length s -> startswith (skipn j s) p = false.
Proof.
  revert i. induction s as [|c s IH]; intros i; cbn [rfind].
  - destruct (startswith [] p) eqn:E; [|discriminate].
    intros H; inversion H; subst. split; [exact E|].
    simpl. intros j Hj Hj'. lia.
  - destruct (rfind p s) as [k|] eqn:Ek.
    + intros H; inversion H; subst. destruct (IH k eq_refl) as [H1 H2].
      split; [exact H1|].
      intros [|j] Hj Hj'; [lia|]. simpl in Hj'. apply H2; lia.
    + destruct (startswith (c :: s) p) eqn:E; [|discriminate].
      intros H; inversion H; subst. split; [exact E|].
      intros [|j] Hj Hj'; [lia|]. simpl in Hj'. cbn [skipn].
      apply rfind_none; [exact Ek|lia].
Qed.

Lemma rfind_le (p s : str) (i : nat) :
  rfind p s = Some i -> i <= length s.
Proof.
  revert i. induction s as [|c s IH]; intros i; cbn [rfind].
  - destruct (startswith [] p); [|discriminate].
    intros H; inversion H; simpl; lia.
  - destruct (rfind p s) as [k|] eqn:Ek.
    + intros H; inversion H; subst. specialize (IH k eq_refl). simpl. lia.
    + destruct (startswith (c :: s) p); [|discriminate].
      intros H; inversion H; simpl; lia.
Qed.

Lemma rfind_bound (p s : str) (i : nat) :
  rfind p s = Some i -> i + length p <= length s.
Proof.
  intros H. pose proof (rfind_le _ _ H) as Hi.
  apply rfind_some in H as [H _].
  apply startswith_length in H.
  rewrite length_skipn in H. lia.
Qed.

Section Fit.
Context {P : LLMProvider}.

Lemma available_positive (others : list str) :
  (0 < Base.available_for others)%Z.
Proof.
  unfold Base.available_for.
  destruct (Z.leb_spec (max_input_tokens - 10000 - Base.sum_tokens others) 0);
    lia.
Qed.

Lemma over_allowance_length (content : str) (a : Z) :
  (0 < a)%Z -> (a < estimate_tokens content)%Z ->
  Z.to_nat (a * 4) < length content.
Proof.
  unfold estimate_tokens. intros Ha H.
  assert (4 * (a + 1) <= Z.of_nat (length content))%Z.
  { pose proof (Z.mul_div_le (Z.of_nat (length content)) 4 ltac:(lia)).
    nia. }
  lia.
Qed.


End Fit.


(** No paragraph boundary inside: ["\n\n" not in c]. *)
(* ================================================================== *)
(** * What chunking keeps and what it loses *)
(* ================================================================== *)

Lemma ink_app (a b : str) : ink (a ++ b) = ink a ++ ink b.
Proof. apply filter_app. Qed.

Lemma ink_blank (s : str) : Chunker.blank s = true -> ink s = [].
Proof.
  unfold Chunker.blank, strip, strip_of. intros H.
  assert (E : lstrip_of isspace s = []).
  { destruct (rstrip_of isspace (lstrip_of isspace s)) eqn:E;
      [|discriminate].
    apply rstrip_of_nil_lstrip in E. now rewrite lstrip_of_idem in E. }
  clear H. induction s as [|c s IH]; [reflexivity|].
  cbn [lstrip_of] in E. unfold ink in *. cbn [filter].
  destruct (isspace c); [apply IH, E|discriminate].
Qed.

Lemma split_lines_before_concat (marker s : str) : forall bol,
  fst (Re.split_lines_before marker bol s)
    ++ concat (snd (Re.split_lines_before marker bol s)) = s.
Proof.
  induction s as [|c s IH]; intros bol; [reflexivity|].
  cbn [Re.split_lines_before]. specialize (IH (is_nl c)).
  destruct (Re.split_lines_before marker (is_nl c) s) as [cur rest].
  cbn [fst snd] in IH.
  destruct (bol && startswith (c :: s) marker); cbn [fst snd concat app];
    now rewrite IH.
Qed.

(** Cutting before headings keeps every character. *)
Lemma split_before_concat (marker s : str) :
  concat (Re.split_before marker s) = s.
Proof.
  unfold Re.split_before.
  pose proof (split_lines_before_concat marker s true) as H.
  destruct (Re.split_lines_before marker true s). exact H.
Qed.

Lemma split_blank_lines_ink (s : str) : forall b,
  ink (fst (Re.split_blank_lines b s)
         ++ concat (snd (Re.split_blank_lines b s))) = ink s.
Proof.
  assert (drop : forall c t, is_nl c = true -> ink (c :: t) = ink t).
  { intros c t H. unfold is_nl in H. apply Ascii.eqb_eq in H. now subst. }
  induction s as [|c s IH]; intros b; [reflexivity|].
  cbn [Re.split_blank_lines].
  destruct (is_nl c && b) eqn:E1.
  - apply andb_prop in E1 as [Hc _]. now rewrite IH, drop.
  - destruct (is_nl c && startswith s [nl]) eqn:E2.
    + apply andb_prop in E2 as [Hc _]. specialize (IH true).
      destruct (Re.split_blank_lines true s) as [cur rest].
      cbn [fst snd concat app] in *. now rewrite IH, drop.
    + specialize (IH false).
      destruct (Re.split_blank_lines false s) as [cur rest].
      cbn [fst snd app] in *. unfold ink in *. cbn [filter].
      now rewrite IH.
Qed.

(** Cutting at blank lines removes newlines only. *)
Lemma split_paragraphs_ink (s : str) :
  ink (concat (Re.split_paragraphs s)) = ink s.
Proof.
  unfold Re.split_paragraphs.
  pose proof (split_blank_lines_ink s false) as H.
  destruct (Re.split_blank_lines false s). exact H.
Qed.

Lemma merge_loop_ink (max_tokens : Z) (sections : list str) :
  forall chunks current,
    ink (concat (fst (Chunker.merge_loop sections max_tokens chunks current))
           ++ snd (Chunker.merge_loop sections max_tokens chunks current))
    = ink (concat chunks ++ current) ++ ink (concat sections).
Proof.
  induction sections as [|section rest IH]; intros chunks current;
    cbn [Chunker.merge_loop fst snd concat].
  - cbn. now rewrite app_nil_r.
  - rewrite (ink_app section).
    destruct (Chunker.blank section) eqn:Eb.
    + now rewrite IH, (ink_blank _ Eb).
    + destruct (estimate_tokens (current ++ section) <=? max_tokens)%Z.
      * rewrite IH, !ink_app. now rewrite <- !app_assoc.
      * rewrite IH. destruct (Chunker.blank current) eqn:Ec.
        -- rewrite !ink_app, (ink_blank _ Ec), app_nil_r.
           now rewrite <- !app_assoc.
        -- rewrite concat_app. cbn [concat]. rewrite app_nil_r.
           rewrite !ink_app. now rewrite <- !app_assoc.
Qed.

(** Merging drops whitespace-only sections and nothing else. *)
Lemma merge_sections_ink (sections : list str) (max_tokens : Z) :
  ink (concat (Chunker._merge_sections sections max_tokens))
  = ink (concat sections).
Proof.
  unfold Chunker._merge_sections.
  pose proof (merge_loop_ink max_tokens sections [] []) as H.
  destruct (Chunker.merge_loop sections max_tokens [] [])
    as [chunks current].
  cbn [fst snd concat app] in H. cbn [ink filter app] in H.
  rewrite <- H, ink_app.
  destruct (Chunker.blank current) eqn:Ec.
  - rewrite (ink_blank _ Ec), app_nil_r. now destruct chunks.
  - assert (E : ink (concat (chunks ++ [current]))
                = ink (concat chunks) ++ ink current).
    { rewrite concat_app. cbn [concat]. now rewrite app_nil_r, ink_app. }
    destruct (chunks ++ [current]) eqn:E'; [|exact E].
    now destruct chunks.
Qed.

Lemma flat_map_ink (f : str -> list str) (l : list str) :
  (forall x, ink (concat (f x)) = ink x) ->
  ink (concat (flat_map f l)) = ink (concat l).
Proof.
  intros H. induction l as [|x l IH]; [reflexivity|].
  cbn [flat_map concat]. now rewrite concat_app, !ink_app, H, IH.
Qed.

(** Chunking keeps every character that is not whitespace, once, and in
    order. *)
Theorem split_keeps_ink (markdown : str) (max_tokens : Z) :
  ink (concat (Chunker.split_by_headings markdown max_tokens))
  = ink markdown.
Proof.
  unfold Chunker.split_by_headings.
  destruct (Chunker.fits max_tokens markdown).
  { cbn [concat]. now rewrite app_nil_r. }
  assert (H0 : ink (concat (Chunker._merge_sections
                              (Re.split_before (lit "## ") markdown)
                              max_tokens)) = ink markdown)
    by now rewrite merge_sections_ink, split_before_concat.
  match goal with |- context [forallb ?f ?l] => destruct (forallb f l) end;
    [exact H0|].
  rewrite flat_map_ink.
  - rewrite flat_map_ink; [exact H0|].
    intros chunk. destruct (Chunker.fits max_tokens chunk).
    + cbn [concat]. now rewrite app_nil_r.
    + now rewrite merge_sections_ink, split_before_concat.
  - intros chunk. destruct (Chunker.fits max_tokens chunk).
    + cbn [concat]. now rewrite app_nil_r.
    + unfold Chunker._split_by_paragraphs.
      now rewrite merge_sections_ink, split_paragraphs_ink.
Qed.

(** C1 fails on the code.  With a budget of 2 tokens the three paragraphs
    come back as two chunks, the first of which is the first two
    paragraphs run together: the blank line between them lay inside the
    chunk, not on its boundary, and the chunks no longer reassemble into
    the text.  Sections cut at headings, in contrast, reassemble. *)
Theorem paragraphs_run_together :
  Chunker.split_by_headings three_paragraphs 2
  = [lit "aaaabbbb"; lit "cccccccccccc"]
  /\ reassembles (Chunker.split_by_headings three_paragraphs 2)
                 three_paragraphs = false
  /\ (let sections := lit "## A" ++ nl :: lit "aaaa" ++ nl ::
                      lit "## B" ++ nl :: lit "bbbbbbbb" in
      Chunker.split_by_headings sections 2
      = [lit "## A" ++ nl :: lit "aaaa" ++ [nl];
         lit "## B" ++ nl :: lit "bbbbbbbb"]
      /\ reassembles (Chunker.split_by_headings sections 2) sections = true).
Proof. vm_compute. repeat split. Qed.

(* ================================================================== *)
(** * The budget of a chunk *)
(* ================================================================== *)

Lemma unsplittable_cons (c : ascii) (x : str) :
  unsplittable (c :: x) <->
  (is_nl c && startswith x [nl] = false) /\ unsplittable x.
Proof.
  unfold unsplittable, blank_line. cbn [contains startswith].
  rewrite orb_false_iff. unfold is_nl.
  rewrite (Ascii.eqb_sym nl c).
  destruct x as [|y x]; cbn [startswith]; rewrite ?andb_true_r; tauto.
Qed.

Lemma split_blank_lines_inv (s : str) : forall (b : bool) cur rest,
  Re.split_blank_lines b s = (cur, rest) ->
  unsplittable cur /\ Forall unsplittable rest
  /\ (startswith cur [nl] = true -> startswith s [nl] = true /\ b = false).
Proof.
  induction s as [|c s IH]; intros b cur rest; cbn [Re.split_blank_lines].
  - intros H; inversion H; subst. repeat split; auto; discriminate.
  - destruct (is_nl c && b) eqn:E1.
    + intros H. destruct (IH _ _ _ H) as (H1 & H2 & H3).
      split; [exact H1|split; [exact H2|]].
      intros Hc. destruct (H3 Hc) as [_ ?]. discriminate.
    + destruct (is_nl c && startswith s [nl]) eqn:E2.
      * destruct (Re.split_blank_lines true s) as [cur' rest'] eqn:E.
        intros H; inversion H; subst.
        destruct (IH _ _ _ E) as (H1 & H2 & H3).
        split; [reflexivity|split; [constructor; assumption|discriminate]].
      * destruct (Re.split_blank_lines false s) as [cur' rest'] eqn:E.
        intros H; inversion H; subst.
        destruct (IH _ _ _ E) as (H1 & H2 & H3).
        split; [|split; [exact H2|]].
        -- apply unsplittable_cons. split; [|exact H1].
           destruct (is_nl c) eqn:Ec; [|reflexivity].
           destruct (startswith cur' [nl]) eqn:Es; [|reflexivity].
           destruct (H3 eq_refl) as [H4 _].
           rewrite H4 in E2. discriminate E2.
        -- cbn [startswith]. rewrite andb_true_r. intros Hc.
           split; [exact Hc|].
           unfold is_nl in E1. rewrite Ascii.eqb_sym, Hc in E1.
           exact E1.
Qed.

Lemma paragraphs_unsplittable (text : str) :
  Forall unsplittable (Re.split_paragraphs text).
Proof.
  unfold Re.split_paragraphs.
  destruct (Re.split_blank_lines false text) as [cur rest] eqn:E.
  destruct (split_blank_lines_inv _ _ E) as (H1 & H2 & _).
  constructor; assumption.
Qed.

Section Merge.
Variable max_tokens : Z.
Variable R : str -> Prop.
Hypothesis R_fits : forall c, Chunker.fits max_tokens c = true -> R c.

Lemma merge_loop_inv (sections : list str) :
  Forall R sections ->
  forall chunks current,
    Forall R chunks ->
    (Chunker.blank current = true \/ R current) ->
    Forall R (fst (Chunker.merge_loop sections max_tokens chunks current))
    /\ (Chunker.blank
          (snd (Chunker.merge_loop sections max_tokens chunks current)) = true
        \/ R (snd (Chunker.merge_loop sections max_tokens chunks current))).
Proof.
  induction 1 as [|section rest Hs Hrest IH]; intros chunks current Hc Hcur;
    cbn [Chunker.merge_loop].
  - auto.
  - destruct (Chunker.blank section); [apply IH; auto|].
    destruct (estimate_tokens (current ++ section) <=? max_tokens)%Z eqn:E.
    + apply IH; [exact Hc|right; apply R_fits; exact E].
    + apply IH; [|right; exact Hs].
      destruct (Chunker.blank current) eqn:Eb; [exact Hc|].
      apply Forall_app. split; [exact Hc|].
      constructor; [|constructor]. destruct Hcur; [discriminate|assumption].
Qed.

Lemma merge_sections_inv (sections : list str) :
  Forall R sections ->
  Forall R (Chunker._merge_sections sections max_tokens).
Proof.
  intros H. unfold Chunker._merge_sections.
  pose proof (@merge_loop_inv sections H [] [] (Forall_nil _)
                (or_introl eq_refl)) as [H1 H2].
  destruct (Chunker.merge_loop sections max_tokens [] []) as [chunks current].
  cbn [fst snd] in *.
  destruct (Chunker.blank current) eqn:Eb.
  - destruct chunks; [constructor|exact H1].
  - destruct H2 as [H2|H2]; [discriminate|].
    assert (Forall R (chunks ++ [current]))
      by (apply Forall_app; split; [exact H1|repeat constructor; exact H2]).
    destruct (chunks ++ [current]); [repeat constructor; exact H2|assumption].
Qed.

End Merge.

Lemma infix_refl (s : str) : infix s s.
Proof. exists [], []. now rewrite app_nil_r. Qed.

Lemma infix_trans (a b c : str) : infix a b -> infix b c -> infix a c.
Proof.
  intros (x & y & ->) (u & v & ->). exists (u ++ x), (y ++ v).
  now rewrite <- !app_assoc.
Qed.

Lemma infix_cons (c : ascii) (x s : str) : infix x s -> infix x (c :: s).
Proof. intros (a & b & ->). now exists (c :: a), b. Qed.

Lemma infix_concat (l : list str) (x : str) : In x l -> infix x (concat l).
Proof.
  induction l as [|y l IH]; intros H; [contradiction|]. cbn [concat].
  destruct H as [->|H].
  - now exists [], (concat l).
  - destruct (IH H) as (a & b & E). exists (y ++ a), b.
    now rewrite E, <- app_assoc.
Qed.

(** The pieces cut before headings are parts of the text. *)
Lemma split_before_infix (marker s x : str) :
  In x (Re.split_before marker s) -> infix x s.
Proof.
  intros H. apply infix_concat in H.
  now rewrite split_before_concat in H.
Qed.

Lemma split_blank_lines_infix (s : str) : forall b,
  (b = false ->
   exists t, s = fst (Re.split_blank_lines b s) ++ t)
  /\ Forall (fun x => infix x s)
            (fst (Re.split_blank_lines b s)
               :: snd (Re.split_blank_lines b s)).
Proof.
  induction s as [|c s IH]; intros b; cbn [Re.split_blank_lines].
  - split; [now exists []|]. repeat constructor. apply infix_refl.
  - destruct (is_nl c && b) eqn:E1.
    + split.
      * intros ->. now rewrite andb_false_r in E1.
      * destruct (IH true) as [_ H]. eapply Forall_impl; [|exact H].
        intros x. apply infix_cons.
    + destruct (is_nl c && startswith s [nl]) eqn:E2.
      * destruct (IH true) as [_ H].
        destruct (Re.split_blank_lines true s) as [cur rest].
        cbn [fst snd] in *. split; [now exists (c :: s)|].
        constructor; [now exists [], (c :: s)|].
        eapply Forall_impl; [|exact H]. intros x. apply infix_cons.
      * destruct (IH false) as [Hpre H].
        destruct (Hpre eq_refl) as [t Ht]. clear Hpre.
        destruct (Re.split_blank_lines false s) as [cur rest].
        cbn [fst snd] in *.
        assert (E : c :: s = (c :: cur) ++ t) by (cbn [app]; now f_equal).
        split; [intros _; now exists t|].
        apply Forall_cons_iff in H as [_ Hrest].
        constructor.
        -- now exists [], t.
        -- eapply Forall_impl; [|exact Hrest]. intros x. apply infix_cons.
Qed.

(** The paragraphs are parts of the text. *)
Lemma split_paragraphs_infix (s x : str) :
  In x (Re.split_paragraphs s) -> infix x s.
Proof.
  unfold Re.split_paragraphs.
  destruct (split_blank_lines_infix s false) as [_ H].
  destruct (Re.split_blank_lines false s) as [cur rest].
  cbn [fst snd] in H. rewrite Forall_forall in H. apply H.
Qed.

Lemma merged_headings_part (marker text chunk : str) (max_tokens : Z) :
  infix chunk text ->
  Forall (within_or_part text max_tokens)
         (Chunker._merge_sections (Re.split_before marker chunk)
                                  max_tokens).
Proof.
  intros H. apply merge_sections_inv; [intros c Hc; now left|].
  apply Forall_forall. intros x Hx. right.
  eapply infix_trans; [eapply split_before_infix; eauto|exact H].
Qed.

Lemma split_by_paragraphs_best_effort (text chunk : str) (max_tokens : Z) :
  infix chunk text ->
  Forall (best_effort text max_tokens)
         (Chunker._split_by_paragraphs chunk max_tokens).
Proof.
  intros H. unfold Chunker._split_by_paragraphs.
  apply merge_sections_inv; [intros c Hc; now left|].
  pose proof (paragraphs_unsplittable chunk) as Hu.
  rewrite Forall_forall in *. intros x Hx. right. split; [now apply Hu|].
  eapply infix_trans; [eapply split_paragraphs_infix; eauto|exact H].
Qed.

Lemma Forall_flat_map (A B : Type) (Q : B -> Prop) (f : A -> list B)
      (l : list A) :
  (forall a, In a l -> Forall Q (f a)) -> Forall Q (flat_map f l).
Proof.
  induction l as [|a l IH]; intros H; simpl; [constructor|].
  apply Forall_app. split; [apply H; now left|].
  apply IH. intros b Hb. apply H. now right.
Qed.

Lemma split_by_headings_best_effort (markdown : str) (max_tokens : Z) :
  Forall (best_effort markdown max_tokens)
         (Chunker.split_by_headings markdown max_tokens).
Proof.
  unfold Chunker.split_by_headings.
  destruct (Chunker.fits max_tokens markdown) eqn:E.
  { repeat constructor. exact E. }
  match goal with |- context [forallb ?f ?l] =>
    destruct (forallb f l) eqn:Ea end.
  { rewrite forallb_forall in Ea. apply Forall_forall.
    intros x Hx. left. apply Ea, Hx. }
  pose proof (merged_headings_part (lit "## ") max_tokens
                (infix_refl markdown)) as H2.
  rewrite Forall_forall in H2.
  apply Forall_flat_map. intros chunk Hchunk.
  destruct (Chunker.fits max_tokens chunk) eqn:Ec.
  { repeat constructor. exact Ec. }
  apply split_by_paragraphs_best_effort.
  apply in_flat_map in Hchunk as (big & Hbig & Hin).
  destruct (Chunker.fits max_tokens big) eqn:Eb.
  - destruct Hin as [<-|[]]. congruence.
  - assert (Hpart : infix big markdown).
    { destruct (H2 big Hbig) as [Hf|Hp]; [congruence|exact Hp]. }
    pose proof (merged_headings_part (lit "# ") max_tokens Hpart) as H1.
    rewrite Forall_forall in H1.
    destruct (H1 chunk Hin) as [Hf|Hp]; [congruence|exact Hp].
Qed.

(** C3.  A chunk that [split_by_headings] returns over the budget is a
    part of the text with no blank line inside: only a paragraph that
    cannot be split further may exceed the budget.  Hence, when every such
    part of the text is within the budget, every chunk is. *)
Theorem budget_respected (markdown : str) (max_tokens : Z) :
  (forall c,
      In c (Chunker.split_by_headings markdown max_tokens) ->
      (max_tokens < estimate_tokens c)%Z ->
      contains [nl; nl] c = false /\ infix c markdown)
  /\ ((forall x,
         infix x markdown -> contains [nl; nl] x = false ->
         (estimate_tokens x <= max_tokens)%Z) ->
      forall c,
        In c (Chunker.split_by_headings markdown max_tokens) ->
        (estimate_tokens c <= max_tokens)%Z).
Proof.
  pose proof (split_by_headings_best_effort markdown max_tokens) as H.
  rewrite Forall_forall in H. split.
  - intros c Hin Hover. destruct (H c Hin) as [Hf|Hu]; [|exact Hu].
    unfold Chunker.fits in Hf. apply Z.leb_le in Hf. lia.
  - intros Hall c Hin. destruct (H c Hin) as [Hf|[Hu Hp]].
    + unfold Chunker.fits in Hf. now apply Z.leb_le in Hf.
    + now apply Hall.
Qed.

Lemma budget_respected_witness :
  let huge := lit "one paragraph, no blank line" in
  let markdown := lit "## A" ++ nl :: lit "tiny" ++ [nl; nl] ++ huge in
  In huge (Chunker.split_by_headings markdown 3)
  /\ (3 < estimate_tokens huge)%Z
  /\ contains [nl; nl] huge = false
  /\ infix huge markdown.
Proof.
  cbv zeta.
  assert (H : In (lit "one paragraph, no blank line")
                 (Chunker.split_by_headings
                    (lit "## A" ++ nl :: lit "tiny" ++ [nl; nl]
                       ++ lit "one paragraph, no blank line") 3))
    by (vm_compute; auto).
  split; [exact H|]. split; [reflexivity|].
  apply (proj1 (budget_respected _ _) _ H). reflexivity.
Defined.

Lemma half_up_SS (n : nat) : half_up (S (S n)) = S (half_up n).
Proof.
  unfold half_up. replace (S (S n) + 1) with (n + 1 + 1 * 2) by lia.
  rewrite Nat.div_add by lia. lia.
Qed.

Lemma half_up_lt (n : nat) : 2 <= n -> half_up n < n.
Proof.
  unfold half_up. intros H.
  apply Nat.Div0.div_lt_upper_bound. lia.
Qed.

Lemma half_up_pos (n : nat) : 1 <= n -> 1 <= half_up n.
Proof.
  unfold half_up. intros H.
  apply Nat.div_le_lower_bound; lia.
Qed.

Lemma log2_up_half (n : nat) :
  2 <= n -> Nat.log2_up n = S (Nat.log2_up (half_up n)).
Proof.
  intros Hn. pose proof (half_up_pos (n := n) ltac:(lia)) as Hm.
  assert (Hlo : 2 * half_up n <= n + 1).
  { unfold half_up. apply Nat.Div0.mul_div_le. }
  assert (Hhi : n <= 2 * half_up n).
  { unfold half_up.
    pose proof (Nat.div_mod_eq (n + 1) 2).
    pose proof (Nat.mod_upper_bound (n + 1) 2 ltac:(lia)). lia. }
  apply Nat.log2_up_unique; [lia|]. cbn [Nat.pred].
  destruct (Nat.eq_dec (half_up n) 1) as [E|E].
  - rewrite E in *. cbn. lia.
  - pose proof (Nat.log2_up_spec (half_up n) ltac:(lia)) as [H1 H2].
    assert (Hb : 0 < Nat.log2_up (half_up n))
      by (apply Nat.log2_up_pos; lia).
    destruct (Nat.log2_up (half_up n)) as [|b]; [lia|].
    cbn [Nat.pred] in H1. rewrite !Nat.pow_succ_r' in *. lia.
Qed.

Lemma pairs_ind (A : Type) (Q : list A -> Prop) :
  Q [] -> (forall a, Q [a]) ->
  (forall a b rest, Q rest -> Q (a :: b :: rest)) ->
  forall l, Q l.
Proof.
  intros H0 H1 H2.
  assert (H : forall l, Q l /\ forall a, Q (a :: l)).
  { induction l as [|x l [IH1 IH2]]; split; auto. }
  intros l. apply H.
Qed.

Lemma adjacent_pairs_length (l : list str) :
  length (adjacent_pairs l) + half_up (length l) = length l.
Proof.
  induction l as [| a | a b rest IH] using pairs_ind; try reflexivity.
  cbn [adjacent_pairs length]. rewrite half_up_SS. lia.
Qed.

Lemma echo_reliable : reliable (P := echo).
Proof. intros r s. discriminate. Qed.

Section Reduction.
Context {P : LLMProvider}.
Variable self : Base.NoteGenerator.

Lemma generate_log (system user : str) (n : Z) (w : world) :
  calls (snd (generate system user n w))
  = calls w ++ [Request system user n].
Proof.
  unfold generate. destruct (respond _ _) as [[text|] p']; reflexivity.
Qed.

(** One call: the answer of the provider decides the outcome. *)
Lemma generate_answer (system user : str) (n : Z) (w : world) :
  generate system user n w
  = (match fst (respond (Request system user n) (provider w)) with
     | Some text => Ok text
     | None => Raise GenerationError
     end,
     World (snd (respond (Request system user n) (provider w)))
           (calls w ++ [Request system user n])).
Proof.
  unfold generate. destruct (respond _ _) as [[text|] p']; reflexivity.
Qed.

Lemma generate_reliable :
  reliable ->
  forall system user n w,
  exists text w', generate system user n w = (Ok text, w').
Proof.
  intros R system user n w. rewrite generate_answer.
  specialize (R (Request system user n) (provider w)).
  destruct (fst (respond _ _)); [eauto|contradiction].
Qed.

Lemma merge_pairs_length (title : str) (l : list str) :
  forall w l' w',
    Base.merge_pairs self title l w = (Ok l', w') ->
    length l' = half_up (length l).
Proof.
  induction l as [| a | a b rest IH] using pairs_ind; intros w l' w';
    cbn [Base.merge_pairs].
  - intros H; inversion H. reflexivity.
  - intros H; inversion H. reflexivity.
  - unfold bind, Base.merge_call.
    destruct (generate _ _ _ w) as [[m|e] w1]; [|discriminate].
    destruct (Base.merge_pairs self title rest w1) as [[ms|e] w2] eqn:E;
      [|discriminate].
    unfold ret. intros H; inversion H; subst.
    cbn [length]. rewrite half_up_SS. f_equal. eapply IH; eauto.
Qed.

Lemma merge_pairs_log (title : str) (l : list str) :
  forall w l' w',
    Base.merge_pairs self title l w = (Ok l', w') ->
    calls w' = calls w ++ map (pair_request self title) (adjacent_pairs l).
Proof.
  induction l as [| a | a b rest IH] using pairs_ind; intros w l' w';
    cbn [Base.merge_pairs adjacent_pairs map].
  - intros H; inversion H. now rewrite app_nil_r.
  - intros H; inversion H. now rewrite app_nil_r.
  - unfold bind, Base.merge_call. rewrite generate_answer.
    destruct (fst (respond _ _)) as [m|]; [|discriminate].
    destruct (Base.merge_pairs self title rest _) as [[ms|e] w2] eqn:E;
      [|discriminate].
    unfold ret. intros H; inversion H; subst.
    rewrite (IH _ _ _ E). cbn [calls]. now rewrite <- app_assoc.
Qed.

Lemma merge_pairs_odd (title : str) (l : list str) :
  forall w l' w',
    Nat.odd (length l) = true ->
    Base.merge_pairs self title l w = (Ok l', w') ->
    last l' [] = last l [].
Proof.
  induction l as [| a | a b rest IH] using pairs_ind; intros w l' w' Hodd;
    cbn [Base.merge_pairs].
  - discriminate.
  - intros H; inversion H. reflexivity.
  - unfold bind, Base.merge_call.
    destruct (generate _ _ _ w) as [[m|e] w1]; [|discriminate].
    destruct (Base.merge_pairs self title rest w1) as [[ms|e] w2] eqn:E;
      [|discriminate].
    unfold ret. intros H; inversion H; subst.
    change (Nat.odd (length rest) = true) in Hodd.
    pose proof (merge_pairs_length _ _ _ E) as Hlen.
    destruct rest as [|c rest]; [discriminate|].
    destruct ms as [|m' ms].
    { pose proof (half_up_pos (n := length (c :: rest))
                    ltac:(cbn [length]; lia)) as Hpos.
      rewrite <- Hlen in Hpos. cbn [length] in Hpos. lia. }
    change (last (m' :: ms) [] = last (c :: rest) []).
    eapply IH; eauto.
Qed.

Lemma merge_pairs_reliable (title : str) (l : list str) :
  reliable ->
  forall w, exists l' w', Base.merge_pairs self title l w = (Ok l', w').
Proof.
  intros R.
  induction l as [| a | a b rest IH] using pairs_ind; intros w;
    cbn [Base.merge_pairs]; unfold ret; eauto.
  unfold bind, Base.merge_call.
  match goal with |- context [generate ?s ?u ?n w] =>
    destruct (generate_reliable R s u n w) as (m & w1 & E) end.
  rewrite E.
  destruct (IH w1) as (ms & w2 & E'). rewrite E'. eauto.
Qed.

Lemma merge_pairs_raises (title : str) (l : list str) :
  forall w e w',
    Base.merge_pairs self title l w = (Raise e, w') -> e = GenerationError.
Proof.
  induction l as [| a | a b rest IH] using pairs_ind; intros w e w';
    cbn [Base.merge_pairs]; unfold ret; try discriminate.
  unfold bind, Base.merge_call. rewrite generate_answer.
  destruct (fst (respond _ _)).
  - destruct (Base.merge_pairs self title rest _) as [[ms|e'] w2] eqn:E.
    + discriminate.
    + intros H; inversion H; subst. eapply IH; eauto.
  - intros H; inversion H; reflexivity.
Qed.

(** ** Rounds, as they are observed *)

Lemma carried_SS (a b : str) (rest : list str) :
  carried (a :: b :: rest) = carried rest.
Proof.
  unfold carried. cbn [length].
  change (Nat.odd (S (S (length rest)))) with (Nat.odd (length rest)).
  destruct rest as [|c rest]; reflexivity.
Qed.

Lemma carried_length (l : list str) :
  length (adjacent_pairs l) + length (carried l) = half_up (length l).
Proof.
  induction l as [| a | a b rest IH] using pairs_ind; try reflexivity.
  rewrite carried_SS. cbn [adjacent_pairs length]. rewrite half_up_SS. lia.
Qed.

Lemma carried_last (l : list str) (merged : list str) :
  Nat.odd (length l) = true -> last (merged ++ carried l) [] = last l [].
Proof.
  intros H. unfold carried. rewrite H. apply last_last.
Qed.

Lemma answers_length (reqs : list request) :
  forall s merged s',
    answers reqs s = Some (merged, s') -> length merged = length reqs.
Proof.
  induction reqs as [|r reqs IH]; intros s merged s'; cbn [answers].
  - intros H; inversion H. reflexivity.
  - destruct (respond r s) as [[a|] s1]; [|discriminate].
    destruct (answers reqs s1) as [[rest s2]|] eqn:E; [|discriminate].
    intros H; inversion H; subst. cbn [length]. f_equal. eapply IH; eauto.
Qed.

(** What a round makes of the number of results. *)
Lemma round_of_length (title : str) (l : list str) (w : world)
      (l' : list str) (w' : world) :
  round_of self title l w l' w' ->
  length l' = half_up (length l)
  /\ (2 <= length l -> length l' < length l)
  /\ (Nat.odd (length l) = true -> last l' [] = last l []).
Proof.
  intros (merged & Ha & _ & ->).
  apply answers_length in Ha. rewrite length_map in Ha.
  assert (E : length (merged ++ carried l) = half_up (length l))
    by (rewrite length_app, Ha; apply carried_length).
  split; [exact E|]. split.
  - intros Hl. rewrite E. now apply half_up_lt.
  - apply carried_last.
Qed.

(** A pass of the [for] loop that succeeds is a round. *)
Lemma merge_pairs_round (title : str) (l : list str) :
  forall w l' w',
    Base.merge_pairs self title l w = (Ok l', w') ->
    round_of self title l w l' w'.
Proof.
  induction l as [| a | a b rest IH] using pairs_ind; intros w l' w';
    cbn [Base.merge_pairs].
  - intros H; inversion H; subst. exists []. cbn. now rewrite app_nil_r.
  - intros H; inversion H; subst. exists []. cbn. now rewrite app_nil_r.
  - unfold bind, Base.merge_call, generate.
    fold (merge_request self title (a ++ Base.separator ++ b)).
    destruct (respond _ (provider w)) as [[m|] s1] eqn:Er; [|discriminate].
    destruct (Base.merge_pairs self title rest _) as [[ms|e] w2] eqn:E;
      [|discriminate].
    unfold ret. intros H; inversion H; subst.
    destruct (IH _ _ _ E) as (merged & Ha & Hc & ->).
    exists (m :: merged). rewrite carried_SS.
    cbn [adjacent_pairs map answers]. unfold pair_request at 1.
    cbn [fst snd].
    match goal with
    | |- context [respond ?r (provider w)] =>
        replace (respond r (provider w)) with (Some m, s1)
          by (symmetry; exact Er)
    end.
    cbv beta iota. cbn [provider] in Ha. rewrite Ha.
    repeat split. rewrite Hc. cbn [calls]. now rewrite <- app_assoc.
Qed.

(** A pass of the [for] loop that raises is a failed round. *)
Lemma merge_pairs_failed (title : str) (l : list str) :
  forall w e w',
    Base.merge_pairs self title l w = (Raise e, w') ->
    e = GenerationError /\ failed_round self title l w w'.
Proof.
  induction l as [| a | a b rest IH] using pairs_ind; intros w e w';
    cbn [Base.merge_pairs]; unfold ret; try discriminate.
  unfold bind, Base.merge_call, generate.
  fold (merge_request self title (a ++ Base.separator ++ b)).
  destruct (respond _ (provider w)) as [[m|] s1] eqn:Er.
  - destruct (Base.merge_pairs self title rest _) as [[ms|e'] w2] eqn:E;
      [discriminate|].
    intros H; inversion H; subst.
    destruct (IH _ _ _ E) as (He & j & merged & s & Hj & Ha & Hr & Hc).
    split; [exact He|]. exists (S j), (m :: merged), s.
    cbn [adjacent_pairs map length firstn answers nth].
    change (pair_request self title (a, b))
      with (merge_request self title (a ++ Base.separator ++ b)).
    match goal with
    | |- context [respond ?r (provider w)] =>
        replace (respond r (provider w)) with (Some m, s1)
          by (symmetry; exact Er)
    end.
    cbv beta iota. cbn [provider] in Ha. rewrite Ha.
    repeat split; [lia|exact Hr|].
    rewrite Hc. cbn [calls]. now rewrite <- app_assoc.
  - intros H; inversion H; subst. split; [reflexivity|].
    exists 0, [], (provider w).
    cbn [adjacent_pairs map length firstn answers nth].
    change (pair_request self title (a, b))
      with (merge_request self title (a ++ Base.separator ++ b)).
    cbn [provider calls]. repeat split; [lia|exact Er].
Qed.

(** The number of rounds is decided by the number of results. *)
Lemma pair_rounds_count (title : str) (l : list str) (w : world) (k : nat)
      (l' : list str) (w' : world) :
  pair_rounds self title l w k l' w' ->
  Nat.log2_up (length l) = k + Nat.log2_up (length l').
Proof.
  induction 1 as [l w|l w l1 w1 k l' w' Hl Hround _ IH]; [reflexivity|].
  destruct (round_of_length Hround) as (Hlen & _).
  rewrite (log2_up_half Hl), <- Hlen, IH. reflexivity.
Qed.

(** The loop stops within ⌈log2 n⌉ rounds, whatever the provider does. *)
Lemma reduce_rounds_total (title : str) (fuel : nat) :
  forall l rounds w,
    Nat.log2_up (length l) <= fuel ->
    exists res w',
      Base.reduce_rounds self fuel title l rounds w = Some (res, w')
      /\ (forall final k, res = Ok (final, k) ->
            length final = Nat.min 1 (length l)
            /\ k = rounds + Nat.log2_up (length l))
      /\ (forall e, res = Raise e -> e = GenerationError)
      /\ (reliable -> exists final k, res = Ok (final, k)).
Proof.
  induction fuel as [|fuel IH]; intros l rounds w Hf;
    cbn [Base.reduce_rounds].
  - destruct (Nat.leb_spec (length l) 1) as [H1|H1].
    + eexists _, _. split; [reflexivity|]. repeat split.
      * inversion H; subst. lia.
      * inversion H; subst.
        destruct (length final) as [|[|n]]; cbn; lia.
      * discriminate.
      * eauto.
    + exfalso. pose proof (Nat.log2_up_pos (length l) ltac:(lia)). lia.
  - destruct (Nat.leb_spec (length l) 1) as [H1|H1].
    + eexists _, _. split; [reflexivity|]. repeat split.
      * inversion H; subst. lia.
      * inversion H; subst.
        destruct (length final) as [|[|n]]; cbn; lia.
      * discriminate.
      * eauto.
    + destruct (Base.merge_pairs self title l w) as [[merged|e] w1] eqn:E.
      * pose proof (merge_pairs_length _ _ _ E) as Hm.
        pose proof (log2_up_half (n := length l) ltac:(lia)) as Hl.
        pose proof (half_up_pos (n := length l) ltac:(lia)) as Hp.
        destruct (IH merged (S rounds) w1 ltac:(rewrite Hm; lia))
          as (res & w' & E' & HOk & HRaise & HRel).
        exists res, w'. split; [exact E'|]. repeat split.
        -- destruct (HOk _ _ H). lia.
        -- destruct (HOk _ _ H). rewrite Hm in *. lia.
        -- exact HRaise.
        -- exact HRel.
      * eexists _, _. split; [reflexivity|]. repeat split; try discriminate.
        -- intros e' H; inversion H; subst.
           eapply merge_pairs_raises; eauto.
        -- intros R. destruct (merge_pairs_reliable title l R w)
             as (l' & w' & E'). congruence.
Qed.

(** The rounds the loop has made when it ends with results. *)
Lemma reduce_rounds_ok (title : str) (fuel : nat) :
  forall l rounds w final k w',
    Base.reduce_rounds self fuel title l rounds w = Some (Ok (final, k), w') ->
    exists j,
      k = rounds + j
      /\ pair_rounds self title l w j final w'
      /\ length final <= 1.
Proof.
  induction fuel as [|fuel IH]; intros l rounds w final k w';
    cbn [Base.reduce_rounds];
    destruct (Nat.leb_spec (length l) 1) as [H1|H1].
  - intros H; inversion H; subst. exists 0.
    repeat split; [lia|constructor|exact H1].
  - discriminate.
  - intros H; inversion H; subst. exists 0.
    repeat split; [lia|constructor|exact H1].
  - destruct (Base.merge_pairs self title l w) as [[merged|e] w1] eqn:E;
      [|discriminate].
    intros H. destruct (IH _ _ _ _ _ _ H) as (j & Hk & Hrounds & Hlen).
    exists (S j). repeat split; [lia| |exact Hlen].
    econstructor; [lia| |exact Hrounds]. now apply merge_pairs_round.
Qed.

(** The rounds the loop has made when it raises. *)
Lemma reduce_rounds_raise (title : str) (fuel : nat) :
  forall l rounds w e w',
    Base.reduce_rounds self fuel title l rounds w = Some (Raise e, w') ->
    e = GenerationError
    /\ exists j l2 w2,
         pair_rounds self title l w j l2 w2
         /\ 2 <= length l2
         /\ failed_round self title l2 w2 w'.
Proof.
  induction fuel as [|fuel IH]; intros l rounds w e w';
    cbn [Base.reduce_rounds];
    destruct (Nat.leb_spec (length l) 1) as [H1|H1]; try discriminate.
  destruct (Base.merge_pairs self title l w) as [[merged|e'] w1] eqn:E.
  - intros H. destruct (IH _ _ _ _ _ H) as (He & j & l2 & w2 & Hr & Hl & Hf).
    split; [exact He|]. exists (S j), l2, w2.
    repeat split; [|exact Hl|exact Hf].
    econstructor; [lia| |exact Hr]. now apply merge_pairs_round.
  - intros H; inversion H; subst.
    destruct (merge_pairs_failed _ _ _ E) as [He Hf].
    split; [exact He|]. exists 0, l, w.
    repeat split; [constructor|lia|exact Hf].
Qed.

(** The hierarchical branch, by the rounds it makes. *)
Lemma reduce_hierarchically_trace (title : str) (partial : list str)
      (fuel : nat) (w : world) :
  1 <= length partial ->
  Nat.log2_up (length partial) <= fuel ->
  exists res w',
    Base.reduce_hierarchically self fuel title partial w = Some (res, w')
    /\ (forall text rounds,
          res = Ok (text, rounds) ->
          rounds = Nat.log2_up (length partial)
          /\ pair_rounds self title partial w
                         (Nat.log2_up (length partial)) [text] w')
    /\ (forall e,
          res = Raise e ->
          e = GenerationError
          /\ exists k l w2,
               k < Nat.log2_up (length partial)
               /\ pair_rounds self title partial w k l w2
               /\ failed_round self title l w2 w')
    /\ (reliable -> exists text rounds, res = Ok (text, rounds)).
Proof.
  intros Hn Hf. unfold Base.reduce_hierarchically.
  destruct (reduce_rounds_total title partial 0 w Hf)
    as (res & w' & E & HOk & _ & HRel).
  rewrite E. destruct res as [[final k]|e].
  - destruct (HOk _ _ eq_refl) as [Hlen Hk].
    destruct (reduce_rounds_ok _ _ _ _ _ E) as (j & Hj & Hrounds & _).
    destruct final as [|r [|r' final]];
      [cbn [length] in Hlen; lia| |cbn [length] in Hlen; lia].
    cbn [Base.first_of ret]. eexists _, _. split; [reflexivity|].
    repeat split.
    + inversion H; subst. reflexivity.
    + inversion H; subst.
      replace (Nat.log2_up (length partial)) with j by lia. exact Hrounds.
    + discriminate.
    + discriminate.
    + eauto.
  - eexists _, _. split; [reflexivity|].
    destruct (reduce_rounds_raise _ _ _ _ _ E)
      as (He & j & l2 & w2 & Hrounds & Hl & Hfail).
    split; [intros text rounds H; discriminate H|]. split.
    + intros e' H. injection H as <-. split; [exact He|].
      exists j, l2, w2. repeat split; [|exact Hrounds|exact Hfail].
      pose proof (pair_rounds_count Hrounds) as Hc.
      pose proof (Nat.log2_up_pos (length l2) ltac:(lia)). lia.
    + intros R. destruct (HRel R) as (f & k & H). discriminate.
Qed.

(** C5.  On two or more partial results the pairwise reduction stops.  A
    pass of its loop that succeeds is a round: it sends one merge request
    per pair of adjacent results, in order, keeps the answers and carries
    an odd last result over unmerged, so that [n] results become ceil(n/2),
    fewer than [n].  With fuel for ceil(log2 n) rounds the reduction
    returns.  When it returns a text, it has made exactly ceil(log2 n)
    rounds in a row, each on two or more results, and the text is the one
    result left after the last of them, in the world the rounds have
    made.  When it raises, it raises the failure of a provider call: fewer
    than ceil(log2 n) rounds were completed, and the next one failed at the
    first request that the provider did not answer.  With a provider that
    never fails it returns a text. *)
Theorem hierarchical_reduction_rounds (title : str) (partial : list str)
        (fuel : nat) (w : world) :
  2 <= length partial ->
  Nat.log2_up (length partial) <= fuel ->
  (forall l w0 l1 w1,
      Base.merge_pairs self title l w0 = (Ok l1, w1) ->
      round_of self title l w0 l1 w1
      /\ length l1 = half_up (length l)
      /\ (2 <= length l -> length l1 < length l)
      /\ (Nat.odd (length l) = true -> last l1 [] = last l []))
  /\ exists res w',
      Base.reduce_hierarchically self fuel title partial w = Some (res, w')
      /\ (forall text rounds,
            res = Ok (text, rounds) ->
            rounds = Nat.log2_up (length partial)
            /\ pair_rounds self title partial w
                           (Nat.log2_up (length partial)) [text] w')
      /\ (forall e,
            res = Raise e ->
            e = GenerationError
            /\ exists k l w2,
                 k < Nat.log2_up (length partial)
                 /\ pair_rounds self title partial w k l w2
                 /\ failed_round self title l w2 w')
      /\ (reliable -> exists text rounds, res = Ok (text, rounds)).
Proof.
  intros Hn Hf. split.
  - intros l w0 l1 w1 E.
    pose proof (merge_pairs_round _ _ _ E) as Hround.
    split; [exact Hround|]. now apply round_of_length in Hround.
  - apply reduce_hierarchically_trace; [lia|exact Hf].
Qed.

End Reduction.

Lemma hierarchical_reduction_rounds_witness :
  let partial := [lit "one"; lit "two"; lit "three"] in
  exists text w',
    Base.reduce_hierarchically (P := echo) plain 2 (lit "t") partial
                               (start (P := echo) 0)
    = Some (Ok (text, 2), w')
    /\ pair_rounds (P := echo) plain (lit "t") partial
                   (start (P := echo) 0) 2 [text] w'.
Proof.
  cbv zeta.
  assert (H1 : 2 <= length [lit "one"; lit "two"; lit "three"])
    by (vm_compute; lia).
  assert (H2 : Nat.log2_up (length [lit "one"; lit "two"; lit "three"]) <= 2)
    by (vm_compute; lia).
  destruct (hierarchical_reduction_rounds (P := echo) plain (lit "t")
              [lit "one"; lit "two"; lit "three"] (start (P := echo) 0) H1 H2)
    as [_ (res & w' & E & HOk & _ & HRel)].
  destruct (HRel echo_reliable) as (text & rounds & ->).
  destruct (HOk text rounds eq_refl) as [-> Hrounds].
  exists text, w'. split; [exact E|exact Hrounds].
Defined.

(** Three results take two rounds and two merge calls: the third result
    is carried over the first round unmerged. *)
Example three_results_two_rounds :
  Base.reduce_hierarchically (P := echo) plain 2 (lit "t")
    [lit "one"; lit "two"; lit "three"] (start (P := echo) 0)
  = Some (Ok (lit "one" ++ Base.separator ++ lit "two" ++ Base.separator
                ++ lit "three", 2),
          World (P := echo) 2
            [merge_request (P := echo) plain (lit "t")
               (lit "one" ++ Base.separator ++ lit "two");
             merge_request (P := echo) plain (lit "t")
               ((lit "one" ++ Base.separator ++ lit "two")
                  ++ Base.separator ++ lit "three")]).
Proof. reflexivity. Qed.

Section Orchestration.
Context {P : LLMProvider}.
Variable self : Base.NoteGenerator.
Variable generate_body : str -> str -> str -> M str.


(** With two results the pairwise reduction makes a single call, and its
    request is the merge request for the joined text. *)
Remark two_results_one_pair (title a b : str) :
  map (pair_request self title) (adjacent_pairs [a; b])
  = [merge_request self title (join Base.separator [a; b])].
Proof. reflexivity. Qed.

End Orchestration.


(** The three long results: the first round merges the first two and
    carries the third over, the second round merges what is left; the
    joined text of the three is never sent. *)
Example three_chunks_two_rounds :
  Base._generate_from_chunks (P := echo) plain
    (Base._generate_body plain) 2 three_long_paragraphs (lit "t")
    (lit "u") (start (P := echo) 0)
  = Some (Ok ((long_a ++ Base.separator ++ long_b)
                ++ Base.separator ++ long_c),
          World (P := echo) 5
            [direct_request (P := echo) plain long_a (lit "t") (lit "u");
             direct_request (P := echo) plain long_b (lit "t") (lit "u");
             direct_request (P := echo) plain long_c (lit "t") (lit "u");
             merge_request (P := echo) plain (lit "t")
               (long_a ++ Base.separator ++ long_b);
             merge_request (P := echo) plain (lit "t")
               ((long_a ++ Base.separator ++ long_b)
                  ++ Base.separator ++ long_c)]).
Proof. reflexivity. Qed.

(** A plan without a topic line parses to no topic. *)
Lemma parse_topics_none (plan : str) :
  (forall line, In line (split nl plan) ->
                Practice.is_topic_line (strip line) = false) ->
  Practice._parse_topics plan = [].
Proof.
  unfold Practice._parse_topics. intros H.
  assert (E : forall lines,
             incl lines (split nl plan) ->
             fold_left Practice.parse_line lines
                       (Practice.Parser [] None [] 5%Z)
             = Practice.Parser [] None [] 5%Z).
  { induction lines as [|line lines IH]; intros Hin; [reflexivity|].
    cbn [fold_left]. unfold Practice.parse_line at 2.
    rewrite (H line (Hin line (or_introl eq_refl))). cbn.
    apply IH. intros x Hx. apply Hin. now right. }
  now rewrite (E _ (incl_refl _)).
Qed.

(** An outline without a second-level heading parses to no section. *)
Lemma parse_outline_none (outline : str) :
  (forall line, In line (split nl outline) ->
                startswith (strip line) (lit "## ") = false) ->
  DeepDive._parse_outline_sections outline = [].
Proof.
  unfold DeepDive._parse_outline_sections. intros H.
  assert (E : forall lines,
             incl lines (split nl outline) ->
             fold_left DeepDive.parse_line lines (DeepDive.Parser [] None [])
             = DeepDive.Parser [] None []).
  { induction lines as [|line lines IH]; intros Hin; [reflexivity|].
    cbn [fold_left]. unfold DeepDive.parse_line at 2.
    rewrite (H line (Hin line (or_introl eq_refl))). cbn.
    apply IH. intros x Hx. apply Hin. now right. }
  now rewrite (E _ (incl_refl _)).
Qed.

Section Fallback.
Context {P : LLMProvider}.
Variable self : Base.NoteGenerator.

(** The two prompts of the practice style that call the helper methods
    raise before they return a text. *)
Lemma practice_system_prompt_raises (tpl : Practice.prompts) (w : world) :
  Practice._system_prompt tpl w = (Raise AttributeError, w)
  /\ Practice._section_system_prompt tpl w = (Raise AttributeError, w).
Proof. split; reflexivity. Qed.

(** C6.  When the outline of the deep dive style parses to no section,
    the body is produced by exactly one more call, made with the base
    system and user prompts of the style, and the outcome of that call is
    the outcome of the whole.  When the plan of the practice style parses
    to no topic, no further call is made: building the base system prompt
    raises [AttributeError], which is the outcome of the whole, and the
    plan call stays the only call of the run. *)
Theorem practice_fallback_raises (content title url : str) (w w1 : world) :
  (forall (tpl : DeepDive.prompts) (outline : str),
      generate (DeepDive._outline_system_prompt tpl)
               (DeepDive._outline_user_prompt tpl content title url)
               4096%Z w
      = (Ok outline, w1) ->
      DeepDive._parse_outline_sections outline = [] ->
      DeepDive._generate_body self tpl content title url w
      = one_call (direct_request self content title url) w1)
  /\ (forall (tpl : Practice.prompts) (plan : str),
      generate (Practice._plan_system_prompt tpl)
               (Practice._plan_user_prompt tpl content title url) 3072%Z w
      = (Ok plan, w1) ->
      Practice._parse_topics plan = [] ->
      Practice._generate_body self tpl content title url w
      = (Raise AttributeError, w1)
      /\ calls w1
         = calls w ++ [Request (Practice._plan_system_prompt tpl)
                               (Practice._plan_user_prompt tpl content
                                                           title url)
                               3072%Z]).
Proof.
  split.
  - intros tpl outline Hplan Hparse.
    unfold DeepDive._generate_body, bind. rewrite Hplan, Hparse.
    apply generate_answer.
  - intros tpl plan Hplan Hparse. split.
    + unfold Practice._generate_body, bind. rewrite Hplan, Hparse.
      reflexivity.
    + pose proof (generate_log (Practice._plan_system_prompt tpl)
                    (Practice._plan_user_prompt tpl content title url)
                    3072%Z w) as Hlog.
      rewrite Hplan in Hlog. exact Hlog.
Qed.

End Fallback.

Lemma practice_fallback_raises_witness :
  DeepDive._generate_body (P := terse) plain deep_dive_prompts
    (lit "content") (lit "t") (lit "u") (start (P := terse) 0)
  = (Ok (lit "ok"),
     World (P := terse) 2
       [Request (lit "outline") (lit "content") 4096;
        direct_request (P := terse) plain (lit "content") (lit "t")
                       (lit "u")])
  /\ Practice._generate_body (P := terse) plain practice_prompts
       (lit "content") (lit "t") (lit "u") (start (P := terse) 0)
     = (Raise AttributeError,
        World (P := terse) 1 [Request (lit "plan") (lit "content") 3072]).
Proof.
  pose proof (practice_fallback_raises (P := terse) plain (lit "content")
                (lit "t") (lit "u") (start (P := terse) 0)
                (World (P := terse) 1
                   [Request (lit "outline") (lit "content") 4096]))
    as [Hd _].
  pose proof (practice_fallback_raises (P := terse) plain (lit "content")
                (lit "t") (lit "u") (start (P := terse) 0)
                (World (P := terse) 1
                   [Request (lit "plan") (lit "content") 3072]))
    as [_ Hp].
  split.
  - exact (Hd deep_dive_prompts (lit "ok") eq_refl eq_refl).
  - exact (proj1 (Hp practice_prompts (lit "ok") eq_refl eq_refl)).
Defined.

Section Numbering.
Context {P : LLMProvider}.
Variable self : Base.NoteGenerator.
Variable tpl : Practice.prompts.

(** The loop over the topics raises at its first topic, before any call:
    the system prompt of the section is the first argument evaluated. *)
Lemma topic_sections_raises (fitted title url : str) (t : Practice.topic)
      (rest : list Practice.topic) (first : Z) (w : world) :
  Practice.topic_sections tpl fitted title url (t :: rest) first w
  = (Raise AttributeError, w).
Proof. reflexivity. Qed.

(** C9.  In the practice style, once the plan has parsed to one topic or
    more, no call is made for any topic: building the system prompt of the
    first section raises [AttributeError] before the first starting
    number is handed over, the run ends with that exception, and the plan
    call stays its only call. *)
Theorem topic_calls_never_made (content title url plan : str)
        (w w1 : world) :
  generate (Practice._plan_system_prompt tpl)
           (Practice._plan_user_prompt tpl content title url) 3072%Z w
  = (Ok plan, w1) ->
  Practice._parse_topics plan <> [] ->
  Practice._generate_body self tpl content title url w
  = (Raise AttributeError, w1)
  /\ calls w1
     = calls w ++ [Request (Practice._plan_system_prompt tpl)
                           (Practice._plan_user_prompt tpl content title url)
                           3072%Z].
Proof.
  intros Hplan Hne. split.
  - unfold Practice._generate_body, bind. rewrite Hplan.
    destruct (Practice._parse_topics plan) as [|t rest]; [contradiction|].
    now rewrite topic_sections_raises.
  - pose proof (generate_log (Practice._plan_system_prompt tpl)
                  (Practice._plan_user_prompt tpl content title url)
                  3072%Z w) as Hlog.
    rewrite Hplan in Hlog. exact Hlog.
Qed.

End Numbering.

Lemma topic_calls_never_made_witness :
  map Practice.count (Practice._parse_topics three_topics) = [3; 5; 2]%Z
  /\ Practice._generate_body (P := echo) plain practice_prompts
       three_topics (lit "t") (lit "u") (start (P := echo) 0)
     = (Raise AttributeError,
        World (P := echo) 1 [Request (lit "plan") three_topics 3072]).
Proof.
  split; [reflexivity|].
  refine (proj1 (@topic_calls_never_made echo plain practice_prompts
                   three_topics (lit "t") (lit "u") three_topics
                   (start (P := echo) 0)
                   (World (P := echo) 1
                      [Request (lit "plan") three_topics 3072])
                   eq_refl _)).
  discriminate.
Defined.

(* ================================================================== *)
(** * Further properties of the code *)
(* ================================================================== *)

(* ---------- lemmas ---------- *)

Lemma lstrip_nil_all_space (s : str) :
  lstrip_of isspace s = [] <-> forallb isspace s = true.
Proof.
  induction s as [|c s IH]; cbn [lstrip_of forallb]; [tauto|].
  destruct (isspace c); cbn [andb]; [exact IH|]. split; discriminate.
Qed.

Lemma blank_all_space (s : str) :
  Chunker.blank s = forallb isspace s.
Proof.
  unfold Chunker.blank, strip, strip_of.
  destruct (forallb isspace s) eqn:E.
  - apply lstrip_nil_all_space in E. now rewrite E.
  - destruct (rstrip_of isspace (lstrip_of isspace s)) eqn:R; [|reflexivity].
    apply rstrip_of_nil_lstrip in R. rewrite lstrip_of_idem in R.
    apply lstrip_nil_all_space in R. congruence.
Qed.

Lemma blank_app (a b : str) :
  Chunker.blank (a ++ b) = Chunker.blank a && Chunker.blank b.
Proof. rewrite !blank_all_space. apply forallb_app. Qed.

(** The loop of [_merge_sections] keeps its text: [current] is empty or
    has ink, and nothing but blank sections is dropped. *)
Lemma merge_loop_text (max_tokens : Z) (sections : list str) :
  forall (chunks : list str) (current : str),
    (current = [] \/ Chunker.blank current = false) ->
    Forall has_ink chunks ->
    let r := Chunker.merge_loop sections max_tokens chunks current in
    concat (fst r) ++ snd r
    = concat chunks ++ current
        ++ concat (filter (fun s => negb (Chunker.blank s)) sections)
    /\ (snd r = [] \/ Chunker.blank (snd r) = false)
    /\ Forall has_ink (fst r).
Proof.
  induction sections as [|section rest IH]; intros chunks current Hc Hk;
    cbn [Chunker.merge_loop filter concat].
  - cbn. rewrite app_nil_r. auto.
  - destruct (Chunker.blank section) eqn:Eb; cbn [negb].
    + apply IH; assumption.
    + assert (Hn : Chunker.blank (current ++ section) = false)
        by (rewrite blank_app, Eb; apply andb_false_r).
      destruct (estimate_tokens (current ++ section) <=? max_tokens)%Z.
      * destruct (IH chunks (current ++ section) (or_intror Hn) Hk)
          as (H1 & H2 & H3).
        cbv zeta in *. rewrite H1. cbn [concat].
        split; [now rewrite <- !app_assoc|auto].
      * destruct Hc as [->|Hc].
        -- change (Chunker.blank []) with true. cbv iota.
           destruct (IH chunks section (or_intror Eb) Hk) as (H1 & H2 & H3).
           cbv zeta in *. rewrite H1. cbn [concat app]. auto.
        -- rewrite Hc. cbv iota.
           assert (Hk' : Forall has_ink (chunks ++ [current])).
           { apply Forall_app. split; [exact Hk|]. repeat constructor.
             exact Hc. }
           destruct (IH (chunks ++ [current]) section (or_intror Eb) Hk')
             as (H1 & H2 & H3).
           cbv zeta in *. rewrite H1, concat_app. cbn [concat].
           rewrite app_nil_r. split; [now rewrite <- !app_assoc|auto].
Qed.

Lemma merged_text (sections : list str) (max_tokens : Z) :
  concat (Chunker._merge_sections sections max_tokens)
  = concat (filter (fun s => negb (Chunker.blank s)) sections)
  /\ Forall has_ink (Chunker._merge_sections sections max_tokens).
Proof.
  unfold Chunker._merge_sections.
  destruct (merge_loop_text max_tokens sections (chunks := [])
              (current := []) (or_introl eq_refl) (Forall_nil _))
    as (H1 & H2 & H3).
  cbv zeta in *.
  destruct (Chunker.merge_loop sections max_tokens [] [])
    as [chunks current].
  cbn [fst snd concat app] in *. rewrite <- H1.
  destruct H2 as [->|H2].
  - change (Chunker.blank []) with true. cbv iota. rewrite app_nil_r.
    destruct chunks; [split; [reflexivity|constructor]|split; auto].
  - rewrite H2.
    assert (E : concat (chunks ++ [current]) = concat chunks ++ current)
      by (rewrite concat_app; cbn [concat]; now rewrite app_nil_r).
    assert (F : Forall has_ink (chunks ++ [current]))
      by (apply Forall_app; split; [exact H3|now repeat constructor]).
    destruct (chunks ++ [current]) eqn:E'; [now destruct chunks|].
    split; assumption.
Qed.

(** X1.  [_merge_sections] returns the sections' text in order, without the
    whitespace-only sections, and none of its chunks is whitespace-only. *)
Theorem merge_sections_text (sections : list str) (max_tokens : Z) :
  concat (Chunker._merge_sections sections max_tokens)
  = concat (filter (fun s => negb (Chunker.blank s)) sections)
  /\ Forall has_ink (Chunker._merge_sections sections max_tokens).
Proof. exact (merged_text sections max_tokens). Qed.

Lemma split_lines_before_heads (m : ascii) (marker s : str) : forall bol,
  Forall (fun piece => exists t, piece = m :: t)
         (snd (Re.split_lines_before (m :: marker) bol s)).
Proof.
  induction s as [|c s IH]; intros bol; cbn [Re.split_lines_before].
  - constructor.
  - specialize (IH (is_nl c)).
    destruct (Re.split_lines_before (m :: marker) (is_nl c) s) as [cur rest].
    cbn [snd] in IH.
    destruct (bol && startswith (c :: s) (m :: marker)) eqn:E; [|exact IH].
    cbn [snd]. constructor; [|exact IH].
    apply andb_prop in E as [_ E]. cbn [startswith] in E.
    apply andb_prop in E as [E _]. apply Ascii.eqb_eq in E. subst. eauto.
Qed.

Lemma filter_all (A : Type) (f : A -> bool) (l : list A) :
  Forall (fun x => f x = true) l -> filter f l = l.
Proof.
  induction 1 as [|x l Hx _ IH]; [reflexivity|].
  cbn [filter]. now rewrite Hx, IH.
Qed.

(** Cut before headings and merged again, a text comes back whole, but for
    whitespace before its first heading. *)
Lemma merged_headings_text (m : ascii) (marker s : str) (max_tokens : Z) :
  isspace m = false ->
  exists w,
    forallb isspace w = true
    /\ s = w ++ concat (Chunker._merge_sections
                          (Re.split_before (m :: marker) s) max_tokens).
Proof.
  intros Hm. rewrite (proj1 (merged_text _ _)).
  pose proof (split_before_concat (m :: marker) s) as Hcat.
  unfold Re.split_before in *.
  pose proof (split_lines_before_heads m marker s true) as Hheads.
  destruct (Re.split_lines_before (m :: marker) true s) as [first rest].
  cbn [snd] in Hheads. cbn [concat] in Hcat.
  assert (Hrest : filter (fun x => negb (Chunker.blank x)) rest = rest).
  { apply filter_all. eapply Forall_impl; [|exact Hheads].
    intros x [t ->]. rewrite blank_all_space. cbn [forallb].
    now rewrite Hm. }
  cbn [filter]. rewrite Hrest.
  destruct (Chunker.blank first) eqn:Eb; cbn [negb].
  - exists first. split; [now rewrite <- blank_all_space|now symmetry].
  - exists []. split; [reflexivity|now symmetry].
Qed.

(** X2.  When every section between [##] headings fits the budget, the
    chunks are the text itself, cut in pieces, but for whitespace at its
    very start. *)
Theorem heading_split_lossless (markdown : str) (max_tokens : Z) :
  (forall piece,
      In piece (Re.split_before (lit "## ") markdown) ->
      (estimate_tokens piece <= max_tokens)%Z) ->
  exists w,
    forallb isspace w = true
    /\ markdown = w ++ concat (Chunker.split_by_headings markdown max_tokens).
Proof.
  intros H. unfold Chunker.split_by_headings.
  destruct (Chunker.fits max_tokens markdown).
  { exists []. split; [reflexivity|]. cbn. now rewrite app_nil_r. }
  assert (Hfit : forallb (Chunker.fits max_tokens)
                   (Chunker._merge_sections
                      (Re.split_before (lit "## ") markdown) max_tokens)
                 = true).
  { apply forallb_forall. apply Forall_forall.
    apply merge_sections_inv; [auto|].
    apply Forall_forall. intros x Hx. apply Z.leb_le. now apply H. }
  rewrite Hfit. apply (merged_headings_text "#" (lit "# ")). reflexivity.
Qed.

Lemma heading_split_lossless_witness :
  let markdown := lit "  " ++ nl :: lit "## A" ++ nl :: lit "aaaa" ++ nl ::
                  lit "## B" ++ nl :: lit "bbbbbbbb" in
  exists w,
    forallb isspace w = true
    /\ markdown = w ++ concat (Chunker.split_by_headings markdown 3).
Proof.
  cbv zeta. apply heading_split_lossless.
  intros piece Hin. vm_compute in Hin.
  repeat (destruct Hin as [<-|Hin]; [vm_compute; discriminate|]).
  contradiction.
Defined.

Lemma split_ink_or_nothing (markdown : str) (max_tokens : Z) :
  (max_tokens < estimate_tokens markdown)%Z ->
  Forall has_ink (Chunker.split_by_headings markdown max_tokens)
  /\ (Chunker.split_by_headings markdown max_tokens = []
      <-> Chunker.blank markdown = true).
Proof.
  intros Hover.
  assert (Hink : Forall has_ink
                        (Chunker.split_by_headings markdown max_tokens)).
  { unfold Chunker.split_by_headings, Chunker.fits.
    apply Z.leb_gt in Hover. rewrite Hover.
    match goal with |- context [forallb ?f ?l] => destruct (forallb f l) end.
    - apply merged_text.
    - apply Forall_flat_map. intros chunk Hchunk.
      destruct (estimate_tokens chunk <=? max_tokens)%Z eqn:E.
      + apply in_flat_map in Hchunk as (big & Hbig & Hin).
        destruct (estimate_tokens big <=? max_tokens)%Z.
        * destruct Hin as [<-|[]]. repeat constructor.
          pose proof (proj2 (merged_text
                               (Re.split_before (lit "## ") markdown)
                               max_tokens)) as Hall.
          rewrite Forall_forall in Hall. now apply Hall.
        * pose proof (proj2 (merged_text
                               (Re.split_before (lit "# ") big)
                               max_tokens)) as Hall.
          rewrite Forall_forall in Hall. repeat constructor.
          now apply Hall.
      + apply merged_text. }
  split; [exact Hink|].
  pose proof (split_keeps_ink markdown max_tokens) as Hkeep.
  split.
  - intros E. rewrite E in Hkeep. cbn in Hkeep.
    rewrite blank_all_space. clear - Hkeep.
    induction markdown as [|c s IH]; [reflexivity|].
    unfold ink in *. cbn [filter forallb] in *.
    destruct (isspace c); cbn in *; [auto|discriminate].
  - intros Hb. rewrite (ink_blank _ Hb) in Hkeep.
    destruct (Chunker.split_by_headings markdown max_tokens) as [|c l];
      [reflexivity|].
    exfalso. inversion Hink as [|? ? Hc _]; subst.
    cbn [concat] in Hkeep. rewrite ink_app in Hkeep.
    apply app_eq_nil in Hkeep as [Hkeep _].
    unfold has_ink in Hc. rewrite blank_all_space in Hc.
    clear - Hkeep Hc. induction c as [|x c IH]; [discriminate|].
    unfold ink in *. cbn [filter forallb] in *.
    destruct (isspace x); cbn in *; [auto|discriminate].
Qed.

(** X3.  The chunks of a text that does not fit are never whitespace-only,
    and there is no chunk at all exactly when the text is whitespace-only. *)
Theorem chunks_have_ink (markdown : str) (max_tokens : Z) :
  (max_tokens < estimate_tokens markdown)%Z ->
  Forall has_ink (Chunker.split_by_headings markdown max_tokens)
  /\ (Chunker.split_by_headings markdown max_tokens = []
      <-> Chunker.blank markdown = true).
Proof. apply split_ink_or_nothing. Qed.

Lemma chunks_have_ink_witness :
  (1 < estimate_tokens (lit "        "))%Z
  /\ Chunker.split_by_headings (lit "        ") 1 = [].
Proof.
  assert (H : (1 < estimate_tokens (lit "        "))%Z) by (vm_compute; auto).
  split; [exact H|].
  apply (proj2 (chunks_have_ink (lit "        ") H)). reflexivity.
Defined.

Lemma blank_ink_iff (s : str) : Chunker.blank s = true <-> ink s = [].
Proof.
  split; [apply ink_blank|]. rewrite blank_all_space.
  induction s as [|c s IH]; [reflexivity|].
  unfold ink in *. cbn [filter forallb].
  destruct (isspace c); cbn; [exact IH|discriminate].
Qed.

Lemma split_nil_iff_blank (markdown : str) (max_tokens : Z) :
  (max_tokens < estimate_tokens markdown)%Z ->
  Chunker.split_by_headings markdown max_tokens = []
  <-> Chunker.blank markdown = true.
Proof. intros H. apply (split_ink_or_nothing _ H). Qed.

(** X4.  [chunk_content] keeps every character that is not whitespace, once
    and in order; it returns the content alone when [needs_chunking] says
    no; and it returns no chunk at all exactly for a whitespace-only content
    that needs chunking. *)
Theorem chunk_content_keeps_ink (content : str) (max_input_tokens : Z) :
  ink (concat (Chunker.chunk_content content max_input_tokens)) = ink content
  /\ (Chunker.needs_chunking content max_input_tokens = false ->
      Chunker.chunk_content content max_input_tokens = [content])
  /\ (Chunker.chunk_content content max_input_tokens = []
      <-> Chunker.needs_chunking content max_input_tokens = true
          /\ Chunker.blank content = true).
Proof.
  unfold Chunker.chunk_content, Chunker.needs_chunking.
  destruct (Z.leb_spec (estimate_tokens content) (max_input_tokens - 10000))
    as [Hfit|Hover].
  - assert (E : (max_input_tokens - 10000 <? estimate_tokens content)%Z
                = false) by (apply Z.ltb_ge; lia).
    rewrite E. split; [cbn; now rewrite app_nil_r|].
    split; [reflexivity|]. split; [discriminate|intros [? _]; discriminate].
  - assert (E : (max_input_tokens - 10000 <? estimate_tokens content)%Z
                = true) by (apply Z.ltb_lt; lia).
    rewrite E. split; [apply split_keeps_ink|].
    split; [discriminate|].
    rewrite (split_nil_iff_blank _ Hover). tauto.
Qed.

Section Calls.
Context {P : LLMProvider}.
Variable self : Base.NoteGenerator.



Lemma reduce_rounds_calls (title : str) (fuel : nat) :
  forall l rounds w final k w',
    Base.reduce_rounds self fuel title l rounds w = Some (Ok (final, k), w') ->
    length (calls w') + length final = length (calls w) + length l.
Proof.
  induction fuel as [|fuel IH]; intros l rounds w final k w';
    cbn [Base.reduce_rounds].
  - destruct (length l <=? 1); [|discriminate].
    intros H; inversion H; subst. reflexivity.
  - destruct (length l <=? 1).
    { intros H; inversion H; subst. reflexivity. }
    destruct (Base.merge_pairs self title l w) as [[merged|e] w1] eqn:E;
      [|discriminate].
    intros H. apply IH in H.
    pose proof E as Hlog. apply merge_pairs_log in Hlog.
    pose proof E as Hlen. apply merge_pairs_length in Hlen.
    pose proof (adjacent_pairs_length l) as Hpairs.
    rewrite Hlog, length_app, length_map in H. lia.
Qed.

Lemma reduce_rounds_single (title : str) (fuel : nat) :
  forall l rounds w final k w',
    1 <= length l ->
    Base.reduce_rounds self fuel title l rounds w = Some (Ok (final, k), w') ->
    length final = 1.
Proof.
  induction fuel as [|fuel IH]; intros l rounds w final k w' Hn;
    cbn [Base.reduce_rounds].
  - destruct (Nat.leb_spec (length l) 1) as [Hle|Hgt]; [|discriminate].
    intros Hres; inversion Hres; subst. lia.
  - destruct (Nat.leb_spec (length l) 1) as [Hle|Hgt].
    { intros Hres; inversion Hres; subst. lia. }
    destruct (Base.merge_pairs self title l w) as [[merged|e] w1] eqn:Em;
      [|discriminate].
    apply IH. apply merge_pairs_length in Em. rewrite Em.
    apply half_up_pos. lia.
Qed.

(** X6.  A reduction of [n >= 1] results that ends with a text has made one
    merge call if the joined results fit the input budget, and [n - 1]
    merge calls otherwise. *)
Theorem reduce_results_calls (fuel : nat) (partial : list str)
        (title text : str) (w w' : world) :
  1 <= length partial ->
  Base._reduce_results self fuel partial title w = Some (Ok text, w') ->
  length (calls w')
  = length (calls w)
    + (if (estimate_tokens (join Base.separator partial)
           <=? max_input_tokens - 10000)%Z
       then 1 else length partial - 1).
Proof.
  intros Hn. unfold Base._reduce_results.
  destruct (estimate_tokens (join Base.separator partial)
            <=? max_input_tokens - 10000)%Z.
  - unfold Base.merge_call. rewrite generate_answer.
    intros H; inversion H; subst. cbn [calls].
    rewrite length_app. reflexivity.
  - unfold Base.reduce_hierarchically, Base.forget_rounds.
    destruct (Base.reduce_rounds self fuel title partial 0 w)
      as [[[[final k]|e] w1]|] eqn:E; try discriminate.
    pose proof E as Hc. apply reduce_rounds_calls in Hc.
    assert (Hone : length final = 1)
      by (eapply reduce_rounds_single; eauto).
    destruct final as [|r final]; cbn [Base.first_of ret raise];
      [discriminate|].
    intros Hres; inversion Hres; subst. lia.
Qed.

End Calls.

Lemma chunk_content_nil_iff (content : str) (max_input_tokens : Z) :
  Chunker.chunk_content content max_input_tokens = []
  <-> Chunker.needs_chunking content max_input_tokens = true
      /\ Chunker.blank content = true.
Proof.
  unfold Chunker.chunk_content, Chunker.needs_chunking.
  destruct (Z.leb_spec (estimate_tokens content) (max_input_tokens - 10000))
    as [Hfit|Hover].
  - assert (E : (max_input_tokens - 10000 <? estimate_tokens content)%Z
                = false) by (apply Z.ltb_ge; lia).
    rewrite E. split; [discriminate|intros [? _]; discriminate].
  - assert (E : (max_input_tokens - 10000 <? estimate_tokens content)%Z
                = true) by (apply Z.ltb_lt; lia).
    rewrite E, (split_nil_iff_blank _ Hover). tauto.
Qed.

Section Edge.
Context {P : LLMProvider}.
Variable self : Base.NoteGenerator.

(** X7.  A whitespace-only document that needs chunking yields no chunk and
    no per-chunk call; the reduction then asks the provider to merge the
    empty text, or, when [max_input_tokens] is below 10000, raises
    [IndexError] without any call. *)
Theorem blank_document_generation
        (generate_body : str -> str -> str -> M str) (fuel : nat)
        (markdown title url : str) (w : world) :
  Chunker.needs_chunking markdown max_input_tokens = true ->
  Chunker.blank markdown = true ->
  Base._generate_from_chunks self generate_body fuel markdown title url w
  = if (10000 <=? max_input_tokens)%Z
    then Some (one_call (merge_request self title []) w)
    else Some (Raise IndexError, w).
Proof.
  intros Hneeds Hblank. unfold Base._generate_from_chunks.
  rewrite (proj2 (chunk_content_nil_iff markdown max_input_tokens)
                 (conj Hneeds Hblank)).
  cbn [for_each ret length Nat.eqb]. unfold Base._reduce_results.
  cbn [join]. change (estimate_tokens []) with 0%Z.
  destruct (Z.leb_spec 10000 max_input_tokens) as [H|H].
  - assert (E : (0 <=? max_input_tokens - 10000)%Z = true)
      by (apply Z.leb_le; lia).
    rewrite E. unfold Base.merge_call. now rewrite generate_answer.
  - assert (E : (0 <=? max_input_tokens - 10000)%Z = false)
      by (apply Z.leb_gt; lia).
    rewrite E. unfold Base.reduce_hierarchically.
    destruct fuel; reflexivity.
Qed.


End Edge.

Lemma reduce_results_calls_witness :
  let partial := [lit "one"; lit "two"; lit "three"] in
  let final := (lit "one" ++ Base.separator ++ lit "two")
                 ++ Base.separator ++ lit "three" in
  let w' := World (P := echo) 2
              [merge_request (P := echo) plain (lit "t")
                 (lit "one" ++ Base.separator ++ lit "two");
               merge_request (P := echo) plain (lit "t") final] in
  1 <= length partial
  /\ Base._reduce_results (P := echo) plain 2 partial (lit "t")
                          (start (P := echo) 0)
     = Some (Ok final, w')
  /\ length (calls w') = 0 + 2.
Proof.
  cbv zeta.
  assert (H1 : 1 <= length [lit "one"; lit "two"; lit "three"])
    by (vm_compute; lia).
  split; [exact H1|]. split; [reflexivity|].
  refine (reduce_results_calls (P := echo) plain 2
            [lit "one"; lit "two"; lit "three"] (lit "t")
            (start (P := echo) 0) H1 _).
  reflexivity.
Defined.

Lemma blank_document_generation_witness :
  Base._generate_from_chunks (P := terse) plain (Base._generate_body plain)
    0 (lit "            ") (lit "t") (lit "u") (start (P := terse) 0)
  = Some (Ok (lit "ok"),
          World (P := terse) 1
            [merge_request (P := terse) plain (lit "t") []]).
Proof.
  rewrite (blank_document_generation (P := terse) plain
             (Base._generate_body plain) 0 (lit "            ")
             (lit "t") (lit "u") (start (P := terse) 0));
    reflexivity.
Defined.


Section Expand.
Context {P : LLMProvider}.
Variable self : Base.NoteGenerator.
Variable tpl : DeepDive.prompts.


End Expand.


Lemma ink_lstrip (s : str) : ink (lstrip s) = ink s.
Proof.
  unfold lstrip, ink. induction s as [|c s IH]; [reflexivity|].
  cbn [lstrip_of filter]. destruct (isspace c) eqn:E; cbn [negb].
  - exact IH.
  - cbn [filter]. now rewrite E.
Qed.

Lemma ink_rstrip (s : str) : ink (rstrip s) = ink s.
Proof.
  unfold rstrip, ink. induction s as [|c s IH]; [reflexivity|].
  cbn [rstrip_of filter]. rewrite <- IH.
  destruct (rstrip_of isspace s) as [|a r].
  - destruct (isspace c) eqn:E; cbn [negb filter]; [reflexivity|].
    now rewrite E.
  - reflexivity.
Qed.

Lemma ink_strip (s : str) : ink (strip s) = ink s.
Proof.
  unfold strip, strip_of. fold lstrip. 
  change (rstrip_of isspace (lstrip s)) with (rstrip (lstrip s)).
  now rewrite ink_rstrip, ink_lstrip.
Qed.

Lemma ink_newlines (n : nat) : ink (repeat nl n) = [].
Proof. induction n; [reflexivity|exact IHn]. Qed.

Lemma ink_collapse (s : str) : forall n, ink (Re.collapse_from n s) = ink s.
Proof.
  induction s as [|c s IH]; intros n; cbn [Re.collapse_from].
  - apply ink_newlines.
  - destruct (is_nl c) eqn:E.
    + rewrite IH. unfold is_nl in E. apply Ascii.eqb_eq in E. now subst.
    + unfold Re.emit_newlines. rewrite ink_app, ink_newlines.
      unfold ink. cbn [app filter]. fold (ink (Re.collapse_from 0 s)).
      now rewrite IH.
Qed.

Lemma ink_rstrip_each (s : str) : ink (rstrip_each s) = ink s.
Proof.
  induction s as [|c s IH]; [reflexivity|]. rewrite rstrip_each_cons.
  destruct (is_nl c) eqn:E.
  - unfold is_nl in E. apply Ascii.eqb_eq in E. subst. exact IH.
  - destruct (isspace c) eqn:Es; cbn [andb].
    + destruct (line_end (rstrip_each s)); unfold ink in *; cbn [filter];
        rewrite Es; cbn [negb]; exact IH.
    + unfold ink in *. cbn [filter]. rewrite Es. cbn [negb]. now rewrite IH.
Qed.

Lemma ink_finish (s : str) : ink (finish s) = ink s.
Proof.
  unfold finish, Re.collapse_newlines.
  now rewrite ink_strip, rstrip_lines_each, ink_rstrip_each, ink_collapse.
Qed.

Section Shape.
Variable note_type : str.
Variable title : str.

(** X10.  What the sanitizer returns has no whitespace at either end, and no
    line of it ends in whitespace. *)
Theorem clean_output_shape (x : str) :
  let y := Base._clean_output note_type x title in
  strip y = y /\ Base.rstrip_lines y = y
  /\ (y = [] \/ (isspace (hd nl y) = false /\ isspace (last y nl) = false)).
Proof.
  cbv zeta.
  pose proof (clean_is_trimmed note_type title x) as Ht.
  pose proof (clean_is_tidy note_type title x) as Hy.
  split; [exact Ht|]. split; [rewrite rstrip_lines_each; exact Hy|].
  destruct (Base._clean_output note_type x title) as [|c y] eqn:E;
    [now left|right].
  unfold strip, strip_of in Ht. split.
  - destruct (lstrip_of isspace (c :: y)) as [|d l] eqn:El;
      [discriminate|].
    pose proof (lstrip_of_head _ _ El) as Hd.
    destruct (rstrip_of_head _ _ Ht) as [s' Hs']. inversion Hs'; subst.
    exact Hd.
  - assert (Hr : rstrip_of isspace (c :: y) = c :: y).
    { pose proof (rstrip_of_idem isspace (lstrip_of isspace (c :: y)))
        as Hr. now rewrite Ht in Hr. }
    clear - Hr. revert c Hr. induction y as [|d y IH]; intros c Hr.
    + cbn in *. destruct (isspace c); [discriminate|reflexivity].
    + change (last (c :: d :: y) nl) with (last (d :: y) nl).
      apply IH.
      change (rstrip_of isspace (c :: d :: y))
        with (match rstrip_of isspace (d :: y) with
              | [] => if isspace c then [] else [c]
              | a :: r => c :: a :: r
              end) in Hr.
      destruct (rstrip_of isspace (d :: y)) as [|a r].
      * destruct (isspace c); discriminate.
      * now inversion Hr.
Qed.

(** X11.  When the trimmed text has no frontmatter block and no heading that
    duplicates the title, the sanitizer changes whitespace only. *)
Theorem clean_keeps_ink (x : str) :
  Re.match_ Base.frontmatter_re (strip x) = None ->
  Base.duplicates_title note_type (strip x) title = false ->
  ink (Base._clean_output note_type x title) = ink x.
Proof.
  intros Hf Hd. rewrite clean_strip, clean_trimmed.
  - unfold Base.strip_title_heading. rewrite Hd.
    fold (finish (strip x)). now rewrite ink_finish, ink_strip.
  - apply strip_idem.
  - unfold Re.sub_at_start. now rewrite Hf.
Qed.

End Shape.

Lemma clean_keeps_ink_witness :
  let x := lit "  ## Orbit  " ++ nl :: nl :: nl :: nl :: nl ::
           lit "Mars has two moons.  " ++ [nl] in
  ink (Base._clean_output summary x mars_title) = ink x.
Proof. cbv zeta. apply clean_keeps_ink; reflexivity. Defined.

(* ---------- headings ---------- *)

Lemma rstrip_of_prefix (p : ascii -> bool) (s : str) :
  exists t, s = rstrip_of p s ++ t /\ forallb p t = true.
Proof.
  induction s as [|c s (t & Hs & Ht)]; [now exists []|].
  cbn [rstrip_of]. destruct (rstrip_of p s) as [|a r] eqn:E.
  - cbn [app] in Hs. subst t. destruct (p c) eqn:Ec.
    + exists (c :: s). cbn [forallb app]. now rewrite Ec, Ht.
    + exists s. auto.
  - exists t. split; [|exact Ht]. cbn [app]. now rewrite Hs at 1.
Qed.

Lemma rstrip_of_keeps_head (p : ascii -> bool) (c : ascii) (s : str) :
  p c = false -> exists r, rstrip_of p (c :: s) = c :: r.
Proof.
  intros H. cbn [rstrip_of]. destruct (rstrip_of p s); rewrite ?H; eauto.
Qed.

Lemma find_nl_none (l : str) :
  forallb not_nl l = true -> find [nl] l = None.
Proof.
  induction l as [|c l IH]; [reflexivity|]. cbn [forallb find startswith].
  intros H. apply andb_prop in H as [Hc H]. rewrite (IH H).
  unfold not_nl, is_nl in Hc. apply negb_true_iff in Hc.
  rewrite Ascii.eqb_sym, Hc. reflexivity.
Qed.

Lemma find_nl_line (l t : str) :
  forallb not_nl l = true -> find [nl] (l ++ nl :: t) = Some (length l).
Proof.
  induction l as [|c l IH]; intros H.
  - cbn. now rewrite Ascii.eqb_refl.
  - cbn [forallb] in H. apply andb_prop in H as [Hc H].
    cbn [app find startswith]. rewrite (IH H).
    unfold not_nl, is_nl in Hc. apply negb_true_iff in Hc.
    rewrite Ascii.eqb_sym, Hc. reflexivity.
Qed.

Lemma forallb_app_l (A : Type) (f : A -> bool) (a b : list A) :
  forallb f (a ++ b) = true -> forallb f a = true.
Proof. rewrite forallb_app. intros H. now apply andb_prop in H. Qed.

Lemma duplicates_title_line (nt title : str) (c : ascii) (h tail : str) :
  isspace c = false ->
  forallb not_nl (c :: h) = true ->
  stops not_nl tail ->
  Base.duplicates_title nt (lit "# " ++ (c :: h) ++ tail) title
  = heading_matches nt title (c :: h).
Proof.
  intros Hc Hh Ht. unfold Base.duplicates_title.
  rewrite (h1_match_line c h tail Hc Hh Ht). reflexivity.
Qed.

Lemma strip_lower_rstrip (s : str) :
  strip (lower (strip (rstrip s))) = strip (lower (strip s)).
Proof. unfold strip at 2 4, rstrip. now rewrite strip_of_rstrip_of. Qed.

(** The sanitizer on a text whose first line is a level-1 heading. *)
Lemma clean_heading_line (nt title : str) (c : ascii) (h rest : str) :
  isspace c = false ->
  forallb not_nl (c :: h) = true ->
  Base._clean_output nt (lit "# " ++ (c :: h) ++ nl :: rest) title
  = if heading_matches nt title (c :: h) then finish (strip rest)
    else finish (strip (lit "# " ++ (c :: h) ++ nl :: rest)).
Proof.
  intros Hc Hh. rewrite clean_strip.
  set (line := lit "# " ++ c :: h).
  assert (Hline : forallb not_nl line = true) by exact Hh.
  assert (Etext : lit "# " ++ (c :: h) ++ nl :: rest = line ++ nl :: rest)
    by (unfold line; now rewrite <- app_assoc).
  rewrite Etext.
  assert (Estrip : strip (line ++ nl :: rest)
                   = match rstrip rest with
                     | [] => rstrip line
                     | r => line ++ nl :: r
                     end).
  { unfold strip, strip_of.
    change (line ++ nl :: rest) with ("#"%char :: (lit " " ++ (c :: h))
                                        ++ nl :: rest).
    rewrite lstrip_of_fixed by reflexivity.
    change ("#"%char :: (lit " " ++ (c :: h)) ++ nl :: rest)
      with (line ++ nl :: rest).
    rewrite rstrip_of_app. unfold rstrip.
    change (rstrip_of isspace (nl :: rest))
      with (match rstrip_of isspace rest with
            | [] => if isspace nl then [] else [nl]
            | x :: r => nl :: x :: r
            end).
    destruct (rstrip_of isspace rest); reflexivity. }
  destruct (rstrip rest) as [|a r] eqn:E.
  - (* the heading is the whole text *)
    destruct (rstrip_of_keeps_head isspace c h Hc) as [r' Hr'].
    destruct (rstrip_of_prefix isspace (c :: h)) as (t & Hpre & _).
    rewrite Hr' in Hpre.
    assert (Eline : rstrip line = lit "# " ++ (c :: r') ++ []).
    { unfold rstrip, line. rewrite rstrip_of_app, Hr'.
      now rewrite app_nil_r. }
    assert (Hr'nl : forallb not_nl (c :: r') = true).
    { rewrite Hpre in Hh. now apply forallb_app_l in Hh. }
    assert (Hm : heading_matches nt title (c :: r')
                 = heading_matches nt title (c :: h)).
    { unfold heading_matches. rewrite <- Hr'.
      change (rstrip_of isspace (c :: h)) with (rstrip (c :: h)).
      now rewrite strip_lower_rstrip. }
    assert (Hrest : strip rest = []).
    { unfold strip, strip_of. unfold rstrip in E.
      now rewrite (rstrip_of_nil_lstrip isspace rest E). }
    rewrite Estrip, Eline, clean_trimmed.
    + unfold Base.strip_title_heading.
      rewrite (duplicates_title_line nt title c r' [] Hc Hr'nl I), Hm.
      destruct (heading_matches nt title (c :: h)).
      * unfold Base.drop_first_line. rewrite find_nl_none.
        -- now rewrite Hrest.
        -- rewrite app_nil_r. exact Hr'nl.
      * rewrite <- Eline, <- Estrip. reflexivity.
    + rewrite <- Eline, <- Estrip. apply strip_idem.
    + apply frontmatter_needs_dash. reflexivity.
  - rewrite Estrip.
    assert (Etail : line ++ nl :: a :: r
                    = lit "# " ++ (c :: h) ++ nl :: a :: r)
      by (unfold line; now rewrite <- app_assoc).
    rewrite clean_trimmed.
    + unfold Base.strip_title_heading. rewrite Etail at 1.
      rewrite (duplicates_title_line nt title c h (nl :: a :: r) Hc Hh)
        by reflexivity.
      destruct (heading_matches nt title (c :: h)).
      * unfold Base.drop_first_line. rewrite (find_nl_line _ _ Hline).
        unfold slice_from. rewrite Nat.add_1_r.
        replace (skipn (S (length line)) (line ++ nl :: a :: r))
          with (a :: r).
        -- rewrite <- E. unfold strip, rstrip.
           now rewrite strip_of_rstrip_of.
        -- change (S (length line)) with (1 + length line).
           rewrite <- skipn_skipn, skipn_app, skipn_all, Nat.sub_diag.
           reflexivity.
      * reflexivity.
    + rewrite <- Estrip. apply strip_idem.
    + apply frontmatter_needs_dash. reflexivity.
Qed.

Lemma strip_trailing_newline (s : str) : strip (s ++ [nl]) = strip s.
Proof.
  unfold strip, strip_of. rewrite <- !lstrip_rstrip_comm.
  f_equal. rewrite rstrip_of_app. reflexivity.
Qed.

Lemma finish_nil : finish [] = [].
Proof. reflexivity. Qed.

(** X12.  On a text whose first line is a level-1 heading, the sanitizer drops
    that line exactly when the normalized heading equals the normalized
    title, is a prefix of it, starts with it, or contains the note type;
    otherwise it keeps the text, and applies its last three steps in both
    cases. *)
Theorem duplicate_heading_rule (nt title : str) (c : ascii) (h rest : str) :
  isspace c = false ->
  forallb not_nl (c :: h) = true ->
  Base._clean_output nt (lit "# " ++ (c :: h) ++ nl :: rest) title
  = (if heading_matches nt title (c :: h) then finish (strip rest)
     else finish (strip (lit "# " ++ (c :: h) ++ nl :: rest)))
  /\ Base._clean_output nt (lit "# " ++ (c :: h)) title
     = (if heading_matches nt title (c :: h) then []
        else finish (strip (lit "# " ++ (c :: h)))).
Proof.
  intros Hc Hh. split; [now apply clean_heading_line|].
  assert (E : lit "# " ++ (c :: h) ++ [nl] = (lit "# " ++ c :: h) ++ [nl])
    by now rewrite <- app_assoc.
  rewrite (clean_strip nt title (lit "# " ++ c :: h)).
  rewrite <- strip_trailing_newline, <- E, <- clean_strip.
  rewrite (clean_heading_line nt title c h [] Hc Hh).
  destruct (heading_matches nt title (c :: h)); [reflexivity|].
  now rewrite E, strip_trailing_newline.
Qed.

Lemma duplicate_heading_rule_witness :
  Base._clean_output summary
    (lit "# " ++ lit "Mars - Summary Notes" ++ nl :: lit "Body.")
    mars_title
  = lit "Body.".
Proof.
  refine (eq_trans (proj1 (duplicate_heading_rule summary mars_title
                             "M" (lit "ars - Summary Notes") (lit "Body.")
                             eq_refl eq_refl)) _).
  reflexivity.
Defined.

Lemma lower_keeps_space (c : ascii) : isspace (lower_char c) = isspace c.
Proof. destruct c as [[] [] [] [] [] [] [] []]; reflexivity. Qed.

Lemma lower_all_space (s : str) :
  forallb isspace (lower s) = forallb isspace s.
Proof.
  induction s as [|c s IH]; [reflexivity|].
  cbn [lower map forallb]. fold (lower s). now rewrite lower_keeps_space, IH.
Qed.

Lemma strip_all_space (s : str) : forallb isspace s = true -> strip s = [].
Proof.
  intros H. unfold strip, strip_of.
  now rewrite (proj2 (lstrip_nil_all_space s) H).
Qed.

(** X13.  With an empty or whitespace-only title, every level-1 heading on the
    first line is dropped, whatever it says. *)
Theorem blank_title_drops_heading (nt title : str) (c : ascii)
        (h rest : str) :
  forallb isspace title = true ->
  isspace c = false ->
  forallb not_nl (c :: h) = true ->
  Base._clean_output nt (lit "# " ++ (c :: h) ++ nl :: rest) title
  = finish (strip rest).
Proof.
  intros Ht Hc Hh. rewrite (clean_heading_line nt title c h rest Hc Hh).
  assert (E : heading_matches nt title (c :: h) = true).
  { unfold heading_matches.
    rewrite (strip_all_space (lower title))
      by (now rewrite lower_all_space).
    cbn [startswith]. now rewrite orb_true_r. }
  now rewrite E.
Qed.

Lemma blank_title_drops_heading_witness :
  Base._clean_output summary
    (lit "# " ++ lit "Anything at all" ++ nl :: lit "Body.") (lit " ")
  = lit "Body.".
Proof.
  refine (eq_trans (blank_title_drops_heading summary (lit " ")
                      "A" (lit "nything at all") (lit "Body.")
                      eq_refl eq_refl eq_refl) _).
  reflexivity.
Defined.

(** X14.  A first line that starts with [#] followed by anything but
    whitespace, a deeper heading such as [## Orbit] or a tag such as
    [#mars], is never dropped: the sanitizer only applies its last three
    steps. *)
Theorem deeper_heading_kept (nt title : str) (c : ascii) (rest : str) :
  isspace c = false ->
  Base._clean_output nt ("#"%char :: c :: rest) title
  = finish (strip ("#"%char :: c :: rest)).
Proof.
  intros Hc. rewrite clean_strip.
  assert (E : exists t, strip ("#"%char :: c :: rest) = "#"%char :: c :: t).
  { unfold strip, strip_of. rewrite lstrip_of_fixed by reflexivity.
    cbn [rstrip_of].
    destruct (rstrip_of isspace rest); rewrite ?Hc; eauto. }
  destruct E as [t E]. rewrite clean_trimmed.
  - unfold Base.strip_title_heading, finish. rewrite E at 1.
    assert (D : Base.duplicates_title nt ("#"%char :: c :: t) title = false).
    { unfold Base.duplicates_title, Re.match_, Base.h1_re, Re.Plus.
      cbn -[Ascii.eqb isspace is_nl Nat.sub firstn].
      change (Ascii.eqb "#" "#") with true. cbv iota. now rewrite Hc. }
    now rewrite D.
  - apply strip_idem.
  - apply frontmatter_needs_dash. now rewrite E.
Qed.

Lemma deeper_heading_kept_witness :
  Base._clean_output summary
    (lit "## Mars - Summary" ++ nl :: lit "Body.  ") mars_title
  = lit "## Mars - Summary" ++ nl :: lit "Body.".
Proof.
  refine (eq_trans (deeper_heading_kept summary mars_title "#"
                      (lit " Mars - Summary" ++ nl :: lit "Body.  ")
                      eq_refl) _).
  reflexivity.
Defined.

(* ---------- frontmatter ---------- *)

Lemma run_lit (A : Type) (l s : str) (caps : list str)
      (k : str -> list str -> option A) :
  Re.run (Re.Lit l) s caps k
  = if startswith s l then k (skipn (length l) s) caps else None.
Proof.
  revert s. induction l as [|x l IH]; intros s; [reflexivity|].
  cbn [Re.Lit Re.run startswith length].
  destruct s as [|y s]; [reflexivity|].
  destruct (Ascii.eqb x y); cbn [andb skipn]; [apply IH|reflexivity].
Qed.

Lemma star_lazy_skip (A : Type) (a b : str) (k : str -> option A) (x : A) :
  (forall u v, a = u ++ v -> v <> [] -> k (v ++ b) = None) ->
  k b = Some x ->
  Re.star_lazy (fun _ => true) (a ++ b) k = Some x.
Proof.
  revert k. induction a as [|c a IH]; intros k Hskip Hk.
  - cbn [app]. destruct b; cbn [Re.star_lazy]; now rewrite Hk.
  - cbn [app Re.star_lazy].
    pose proof (Hskip [] (c :: a) eq_refl ltac:(discriminate)) as E.
    cbn [app] in E. rewrite E.
    apply IH; [|exact Hk].
    intros u v -> Hv. apply (Hskip (c :: u) v); [reflexivity|exact Hv].
Qed.

Lemma startswith_app_long (s x p : str) :
  length p <= length s -> startswith (s ++ x) p = startswith s p.
Proof.
  revert s. induction p as [|c p IH]; intros s H; [reflexivity|].
  destruct s as [|d s]; [simpl in H; lia|].
  cbn [app startswith]. f_equal. apply IH. simpl in H. lia.
Qed.

Lemma contains_false_startswith (p s : str) :
  contains p s = false -> startswith s p = false.
Proof.
  destruct s; cbn [contains]; intros H; now apply orb_false_iff in H.
Qed.

Lemma lstrip_split (s : str) :
  exists ws, s = ws ++ lstrip s /\ forallb isspace ws = true
             /\ stops isspace (lstrip s).
Proof.
  unfold lstrip. induction s as [|c s (ws & Hs & Hw & Hst)].
  - now exists [].
  - cbn [lstrip_of]. destruct (isspace c) eqn:E.
    + exists (c :: ws). cbn [app forallb]. rewrite E, Hw.
      split; [now rewrite Hs at 1|auto].
    + exists []. cbn. auto.
Qed.

Lemma isspace_not_nl (c : ascii) : isspace c = false -> is_nl c = false.
Proof.
  intros H. destruct (is_nl c) eqn:E; [|reflexivity].
  unfold is_nl in E. apply Ascii.eqb_eq in E. now subst.
Qed.

(** The frontmatter pattern on a block whose body starts with a character
    that is not whitespace and has no line that starts with three dashes. *)
Lemma frontmatter_match (c : ascii) (b rest : str) :
  isspace c = false ->
  contains (nl :: fence) ((c :: b) ++ nl :: lit "--") = false ->
  Re.match_ Base.frontmatter_re
            (fence ++ nl :: (c :: b) ++ nl :: fence ++ rest)
  = Some (lstrip rest, []).
Proof.
  intros Hc Hbody. unfold Re.match_, Base.frontmatter_re.
  cbn [Re.run]. rewrite run_lit.
  change (startswith (fence ++ nl :: (c :: b) ++ nl :: fence ++ rest)
                     (lit "---")) with true.
  cbv iota.
  change (skipn (length (lit "---"))
                (fence ++ nl :: (c :: b) ++ nl :: fence ++ rest))
    with (nl :: (c :: b) ++ nl :: fence ++ rest).
  cbn [Re.star_greedy app]. change (isspace nl) with true. cbv iota.
  rewrite Hc. cbn [Re.run]. rewrite (isspace_not_nl c Hc).
  change (is_nl nl) with true. cbv iota.
  change (c :: b ++ nl :: fence ++ rest)
    with ((c :: b) ++ (nl :: fence) ++ rest).
  destruct (lstrip_split rest) as (ws & Hrest & Hws & Hstop).
  apply star_lazy_skip.
  - intros u v Huv Hv. rewrite run_lit.
    assert (E : startswith (v ++ (nl :: fence) ++ rest) (nl :: lit "---")
                = false).
    { rewrite Huv, <- app_assoc in Hbody. apply contains_app_r in Hbody.
      apply contains_false_startswith in Hbody.
      change ((nl :: fence) ++ rest)
        with ((nl :: lit "--") ++ "-"%char :: rest).
      rewrite app_assoc, startswith_app_long; [exact Hbody|].
      rewrite length_app. destruct v; [contradiction|]. simpl. lia. }
    now rewrite E.
  - rewrite run_lit.
    change (startswith ((nl :: fence) ++ rest) (nl :: lit "---")) with true.
    cbv iota.
    change (skipn (length (nl :: lit "---")) ((nl :: fence) ++ rest))
      with rest.
    cbn [Re.run]. rewrite Hrest at 1.
    apply star_greedy_exact; [exact Hws|exact Hstop|].
    destruct (lstrip rest) as [|d r]; [reflexivity|].
    cbn [stops] in Hstop. now rewrite (isspace_not_nl d Hstop).
Qed.

Lemma strip_lstrip (s : str) : strip (lstrip s) = strip s.
Proof. unfold strip, strip_of, lstrip. now rewrite lstrip_of_idem. Qed.

(** X15.  A leading frontmatter block, whose body starts with a character that
    is not whitespace and has no line starting with three dashes, is
    removed whole; the rest goes through the heading test and the last
    three steps. *)
Theorem frontmatter_removed (nt title : str) (c : ascii) (b rest : str) :
  isspace c = false ->
  contains (nl :: fence) ((c :: b) ++ nl :: lit "--") = false ->
  Base._clean_output nt (fence ++ nl :: (c :: b) ++ nl :: fence ++ rest)
                     title
  = finish (Base.strip_title_heading nt (strip rest) title).
Proof.
  intros Hc Hbody.
  set (block := fence ++ nl :: (c :: b) ++ [nl] ++ fence).
  assert (Etext : forall r,
             fence ++ nl :: (c :: b) ++ nl :: fence ++ r = block ++ r).
  { intros r. unfold block.
    repeat (rewrite <- app_assoc || rewrite <- app_comm_cons).
    reflexivity. }
  assert (Hblock : rstrip block = block).
  { unfold rstrip, block.
    replace (fence ++ nl :: (c :: b) ++ [nl] ++ fence)
      with ((fence ++ nl :: (c :: b) ++ [nl]) ++ fence)
      by (repeat (rewrite <- app_assoc || rewrite <- app_comm_cons);
          reflexivity).
    now rewrite rstrip_of_app. }
  assert (Estrip : strip (block ++ rest) = block ++ rstrip rest).
  { unfold strip, strip_of.
    change (block ++ rest) with ("-"%char :: (lit "--" ++ nl :: (c :: b)
                                   ++ [nl] ++ fence) ++ rest).
    rewrite lstrip_of_fixed by reflexivity.
    change ("-"%char :: (lit "--" ++ nl :: (c :: b) ++ [nl] ++ fence)
              ++ rest) with (block ++ rest).
    rewrite rstrip_of_app. unfold rstrip in *.
    destruct (rstrip_of isspace rest); [now rewrite app_nil_r|reflexivity]. }
  unfold Base._clean_output. rewrite Etext.
  change (is_empty (block ++ rest)) with false. cbv iota.
  rewrite Estrip, <- Etext. unfold Re.sub_at_start.
  rewrite (frontmatter_match c b (rstrip rest) Hc Hbody).
  rewrite strip_lstrip.
  replace (strip (rstrip rest)) with (strip rest)
    by (unfold strip, rstrip; now rewrite strip_of_rstrip_of).
  reflexivity.
Qed.

Lemma frontmatter_removed_witness :
  Base._clean_output summary
    (fence ++ nl :: lit "title: Mars" ++ nl :: fence
       ++ nl :: nl :: lit "Mars is red.")
    mars_title
  = lit "Mars is red.".
Proof.
  refine (eq_trans (frontmatter_removed summary mars_title "t"
                      (lit "itle: Mars") (nl :: nl :: lit "Mars is red.")
                      eq_refl eq_refl) _).
  reflexivity.
Defined.

Section FitBound.
Context {P : LLMProvider}.

Lemma estimate_tokens_app_marker (s : str) (a : Z) :
  (0 <= a)%Z -> (Z.of_nat (length s) <= 4 * a)%Z ->
  (estimate_tokens (s ++ Base.truncation_marker) <= a + 10)%Z.
Proof.
  intros Ha H. unfold estimate_tokens. rewrite length_app.
  change (length Base.truncation_marker) with 43.
  enough (Z.of_nat (length s + 43) / 4 < a + 11)%Z by lia.
  apply Z.div_lt_upper_bound; lia.
Qed.

(** X16.  The fitted content is estimated at no more than the allowance plus
    ten tokens: the truncation marker is appended after the cut and is not
    counted in the allowance.  So, when the allowance before its floor is
    positive, the fitted content, the other parts and the 10000 tokens of
    overhead stay within the provider's input limit plus ten; and cut
    content keeps more than half of the allowed characters. *)
Theorem fitted_content_bound (content : str) (others : list str) :
  let allowance := Base.available_for others in
  let fitted := Base._fit_content_to_context content others in
  (estimate_tokens fitted <= allowance + 10)%Z
  /\ ((0 < raw_allowance others)%Z ->
      (estimate_tokens fitted + Base.sum_tokens others + 10000
       <= max_input_tokens + 10)%Z)
  /\ ((allowance < estimate_tokens content)%Z ->
      (2 * allowance + 43 <= Z.of_nat (length fitted) <= 4 * allowance + 43)%Z).
Proof.
  intros allowance fitted.
  pose proof (available_positive others) as Hpos. fold allowance in Hpos.
  assert (Hcut : (allowance < estimate_tokens content)%Z ->
                 exists cut,
                   fitted = firstn cut content ++ Base.truncation_marker
                   /\ length (firstn cut content) = cut
                   /\ (2 * allowance <= Z.of_nat cut <= 4 * allowance)%Z).
  { intros H. pose proof (over_allowance_length content Hpos H) as Hlen.
    unfold fitted, Base._fit_content_to_context. fold allowance.
    apply Z.leb_gt in H. rewrite H. unfold slice_to.
    set (region := firstn (Z.to_nat (allowance * 4)) content).
    assert (Hr : length region = Z.to_nat (allowance * 4)).
    { unfold region. rewrite length_firstn. lia. }
    assert (Hhalf : (allowance * 4 / 2 = 2 * allowance)%Z).
    { replace (allowance * 4)%Z with (2 * allowance * 2)%Z by lia.
      apply Z.div_mul. lia. }
    destruct (rfind [nl; nl] region) as [b|] eqn:Eb; cbn [index_of].
    - pose proof (rfind_bound _ _ Eb) as Hb. simpl in Hb.
      destruct (Z.ltb_spec (allowance * 4 / 2) (Z.of_nat b)) as [Hmid|Hmid].
      + exists b. rewrite Nat2Z.id. unfold region.
        rewrite firstn_firstn.
        replace (Nat.min b (Z.to_nat (allowance * 4))) with b by lia.
        repeat split; [rewrite length_firstn; lia|lia|lia].
      + exists (Z.to_nat (allowance * 4)).
        repeat split; [rewrite length_firstn; lia|lia|lia].
    - exists (Z.to_nat (allowance * 4)).
      destruct (Z.ltb_spec (allowance * 4 / 2) (-1)) as [Hmid|Hmid]; [lia|].
      repeat split; [rewrite length_firstn; lia|lia|lia]. }
  assert (Hfit : (estimate_tokens fitted <= allowance + 10)%Z).
  { destruct (Z.leb_spec (estimate_tokens content) allowance) as [Hle|Hgt].
    - unfold fitted, Base._fit_content_to_context. fold allowance.
      apply Z.leb_le in Hle as Hle'. rewrite Hle'. lia.
    - destruct (Hcut Hgt) as (cut & -> & Hlen & Hc).
      apply estimate_tokens_app_marker; lia. }
  split; [exact Hfit|]. split.
  - intros Hraw. unfold allowance, Base.available_for in Hfit.
    unfold raw_allowance in Hraw.
    destruct (Z.leb_spec (max_input_tokens - 10000 - Base.sum_tokens others)
                         0); lia.
  - intros Hgt. destruct (Hcut Hgt) as (cut & -> & Hlen & Hc).
    rewrite length_app, Hlen.
    change (length Base.truncation_marker) with 43. lia.
Qed.

End FitBound.

(* ---------- lines ---------- *)

Lemma split_char_no_nl (s : str) :
  no_nl (fst (split_char nl s)) /\ Forall no_nl (snd (split_char nl s)).
Proof.
  induction s as [|c s [IH1 IH2]]; [now split|].
  cbn [split_char]. destruct (split_char nl s) as [cur rest].
  cbn [fst snd] in *.
  destruct (Ascii.eqb c nl) eqn:E; cbn [fst snd].
  - split; [reflexivity|]. now constructor.
  - split; [|exact IH2]. unfold no_nl in *. cbn [forallb].
    unfold not_nl at 1, is_nl. now rewrite E.
Qed.

Lemma split_no_nl (s : str) : Forall no_nl (split nl s).
Proof.
  unfold split. pose proof (split_char_no_nl s) as [H1 H2].
  destruct (split_char nl s). now constructor.
Qed.

Lemma split_single (l : str) : no_nl l -> split nl l = [l].
Proof.
  unfold split. intros H. induction l as [|c l IH]; [reflexivity|].
  unfold no_nl in *. cbn [forallb] in H. apply andb_prop in H as [Hc H].
  specialize (IH H). cbn [split_char].
  destruct (split_char nl l) as [cur rest].
  unfold not_nl, is_nl in Hc. apply negb_true_iff in Hc. rewrite Hc.
  now injection IH as -> ->.
Qed.

Lemma split_join (ls : list str) :
  ls <> [] -> Forall no_nl ls -> split nl (join [nl] ls) = ls.
Proof.
  induction ls as [|a ls IH]; [congruence|]. intros _ H.
  apply Forall_cons_iff in H as [Ha H].
  destruct ls as [|b ls]; [now apply split_single|].
  change (join [nl] (a :: b :: ls)) with (a ++ nl :: join [nl] (b :: ls)).
  unfold split at 1. rewrite (split_char_line _ _ Ha).
  f_equal. apply IH; [discriminate|exact H].
Qed.

(* ---------- the outline parser ---------- *)

Lemma outline_flush_sections (ls : list str) (p : DeepDive.parser) :
  DeepDive.flush (fold_left DeepDive.parse_line ls p)
  = DeepDive.sections p
    ++ DeepDive.flush
         (fold_left DeepDive.parse_line ls
            (DeepDive.Parser [] (DeepDive.current_heading p)
                             (DeepDive.current_points p))).
Proof.
  revert p. induction ls as [|l ls IH]; intros [secs cur pts].
  - cbn [fold_left DeepDive.sections DeepDive.current_heading
         DeepDive.current_points].
    unfold DeepDive.flush.
    cbn [DeepDive.current_heading DeepDive.sections DeepDive.current_points].
    destruct cur as [[|c h]|]; cbn [app]; now rewrite ?app_nil_r.
  - cbn [fold_left DeepDive.sections DeepDive.current_heading
         DeepDive.current_points].
    rewrite IH. rewrite (IH (DeepDive.parse_line (DeepDive.Parser [] cur pts) l)).
    unfold DeepDive.parse_line, DeepDive.headed, DeepDive.flush.
    cbn [DeepDive.current_heading DeepDive.sections DeepDive.current_points].
    destruct (startswith (strip l) (lit "## ")
              && negb (startswith (strip l) (lit "### "))).
    + cbn [DeepDive.current_heading DeepDive.sections DeepDive.current_points].
      destruct cur as [[|c h]|]; cbn [app]; rewrite ?app_nil_r;
        try reflexivity.
      now rewrite <- app_assoc.
    + destruct cur as [[|c h]|];
        cbn [DeepDive.current_heading DeepDive.sections
             DeepDive.current_points];
        try reflexivity.
      destruct (is_empty (strip l));
        cbn [DeepDive.current_heading DeepDive.sections
             DeepDive.current_points]; reflexivity.
Qed.

Lemma outline_body (body : list str) (c : ascii) (h : str) :
  forall pts,
    forallb (fun l => negb (is_section_line l)) body = true ->
    fold_left DeepDive.parse_line body (DeepDive.Parser [] (Some (c :: h)) pts)
    = DeepDive.Parser [] (Some (c :: h)) (pts ++ filter has_text body).
Proof.
  induction body as [|l body IH]; intros pts H.
  - cbn. now rewrite app_nil_r.
  - cbn [forallb] in H. apply andb_prop in H as [Hl H].
    apply negb_true_iff in Hl. unfold is_section_line in Hl.
    cbn [fold_left filter]. unfold DeepDive.parse_line at 2.
    rewrite Hl. unfold DeepDive.headed.
    cbn [DeepDive.current_heading DeepDive.sections DeepDive.current_points].
    replace (has_text l) with (negb (is_empty (strip l))) by reflexivity.
    destruct (is_empty (strip l)); cbn [negb].
    + now apply IH.
    + rewrite (IH _ H). now rewrite <- app_assoc.
Qed.

Lemma outline_heading_line (p : DeepDive.parser) (h : str) :
  is_section_line h = true ->
  DeepDive.parse_line p h
  = DeepDive.Parser (DeepDive.flush p) (Some (strip h)) [].
Proof.
  unfold is_section_line, DeepDive.parse_line. now intros ->.
Qed.

Lemma outline_lines_empty : outline_lines [[]] = outline_lines [].
Proof. reflexivity. Qed.

Lemma outline_of_join (ls : list str) :
  Forall no_nl ls ->
  DeepDive._parse_outline_sections (join [nl] ls) = outline_lines ls.
Proof.
  intros H. unfold DeepDive._parse_outline_sections.
  destruct ls as [|a ls]; [reflexivity|].
  rewrite split_join; [reflexivity|discriminate|exact H].
Qed.

(** X17.  The last section of an outline.  When the lines of the outline are
    [before], then a line [h] that starts, once stripped, with two hashes
    and a space and not with three hashes and a space, then lines [body]
    none of which is such a line: the parsed sections are those of the
    lines [before] alone, followed by one section whose heading is [h]
    stripped and whose points are the lines of [body] that are not blank,
    unstripped and joined by newlines. *)
Theorem outline_last_section (outline : str) (before : list str) (h : str)
        (body : list str) :
  split nl outline = before ++ h :: body ->
  is_section_line h = true ->
  forallb (fun l => negb (is_section_line l)) body = true ->
  DeepDive._parse_outline_sections outline
  = DeepDive._parse_outline_sections (join [nl] before)
    ++ [DeepDive.Section_ (strip h) (join [nl] (filter has_text body))].
Proof.
  intros Hsplit Hh Hbody.
  assert (Hnl : Forall no_nl before).
  { pose proof (split_no_nl outline) as H. rewrite Hsplit in H.
    now apply Forall_app in H as [H _]. }
  rewrite (outline_of_join Hnl).
  unfold DeepDive._parse_outline_sections, outline_lines.
  rewrite Hsplit, fold_left_app. cbn [fold_left].
  rewrite (@outline_heading_line _ h Hh), outline_flush_sections.
  cbn [DeepDive.current_heading DeepDive.sections DeepDive.current_points].
  f_equal. unfold is_section_line in Hh.
  destruct (strip h) as [|c s] eqn:E; [discriminate|].
  refine (eq_trans (f_equal DeepDive.flush
                            (@outline_body body c s [] Hbody)) _).
  reflexivity.
Qed.

Lemma outline_last_section_witness :
  DeepDive._parse_outline_sections
    (lit "intro" ++ nl :: lit "## A" ++ nl :: lit "- a" ++ nl :: nl
       :: lit "## B" ++ nl :: lit "  - b" ++ nl :: lit "### C" ++ [nl])
  = DeepDive._parse_outline_sections
      (lit "intro" ++ nl :: lit "## A" ++ nl :: lit "- a" ++ [nl])
    ++ [DeepDive.Section_ (lit "## B")
                          (lit "  - b" ++ nl :: lit "### C")].
Proof.
  refine (eq_trans
            (@outline_last_section
               (lit "intro" ++ nl :: lit "## A" ++ nl :: lit "- a" ++ nl :: nl
                  :: lit "## B" ++ nl :: lit "  - b" ++ nl :: lit "### C"
                  ++ [nl])
               [lit "intro"; lit "## A"; lit "- a"; []] (lit "## B")
               [lit "  - b"; lit "### C"; []] eq_refl eq_refl eq_refl) _).
  reflexivity.
Defined.

(* ---------- the plan parser ---------- *)

Lemma plan_flush_topics (ls : list str) (p : Practice.parser) :
  Practice.flush (fold_left Practice.parse_line ls p)
  = Practice.topics p
    ++ Practice.flush
         (fold_left Practice.parse_line ls
            (Practice.Parser [] (Practice.current_name p)
                             (Practice.current_concepts p)
                             (Practice.current_count p))).
Proof.
  revert p. induction ls as [|l ls IH]; intros [tops cur cs n].
  - cbn [fold_left Practice.topics Practice.current_name
         Practice.current_concepts Practice.current_count].
    unfold Practice.flush.
    cbn [Practice.topics Practice.current_name
         Practice.current_concepts Practice.current_count].
    destruct cur as [[|c h]|]; cbn [app]; now rewrite ?app_nil_r.
  - cbn [fold_left Practice.topics Practice.current_name
         Practice.current_concepts Practice.current_count].
    rewrite IH.
    rewrite (IH (Practice.parse_line (Practice.Parser [] cur cs n) l)).
    unfold Practice.parse_line, Practice.named, Practice.flush.
    cbn [Practice.topics Practice.current_name
         Practice.current_concepts Practice.current_count].
    destruct (Practice.is_topic_line (strip l)).
    + cbn [Practice.topics Practice.current_name
           Practice.current_concepts Practice.current_count].
      destruct cur as [[|c h]|]; cbn [app]; rewrite ?app_nil_r;
        try reflexivity.
      now rewrite <- app_assoc.
    + destruct cur as [[|c h]|]; cbn [andb];
        cbn [Practice.topics Practice.current_name
             Practice.current_concepts Practice.current_count];
        try reflexivity.
      destruct (startswith (strip l) (lit "-"));
        cbn [Practice.topics Practice.current_name
             Practice.current_concepts Practice.current_count]; reflexivity.
Qed.

Lemma plan_body_named (body : list str) (c : ascii) (name : str) (n : Z) :
  forall cs,
    forallb (fun l => negb (Practice.is_topic_line (strip l))) body = true ->
    fold_left Practice.parse_line body
              (Practice.Parser [] (Some (c :: name)) cs n)
    = Practice.Parser [] (Some (c :: name))
                      (cs ++ filter is_bullet (map strip body)) n.
Proof.
  induction body as [|l body IH]; intros cs H.
  - cbn. now rewrite app_nil_r.
  - cbn [forallb] in H. apply andb_prop in H as [Hl H].
    apply negb_true_iff in Hl.
    cbn [fold_left map filter]. unfold Practice.parse_line at 2.
    rewrite Hl. unfold Practice.named.
    cbn [Practice.topics Practice.current_name
         Practice.current_concepts Practice.current_count andb].
    replace (is_bullet (strip l)) with (startswith (strip l) (lit "-"))
      by reflexivity.
    destruct (startswith (strip l) (lit "-")).
    + rewrite (IH _ H). now rewrite <- app_assoc.
    + now apply IH.
Qed.

Lemma plan_body_unnamed (body : list str) (n : Z) :
  forallb (fun l => negb (Practice.is_topic_line (strip l))) body = true ->
  fold_left Practice.parse_line body (Practice.Parser [] (Some []) [] n)
  = Practice.Parser [] (Some []) [] n.
Proof.
  induction body as [|l body IH]; intros H; [reflexivity|].
  cbn [forallb] in H. apply andb_prop in H as [Hl H].
  apply negb_true_iff in Hl.
  cbn [fold_left]. unfold Practice.parse_line at 2.
  rewrite Hl. unfold Practice.named.
  cbn [Practice.current_name andb]. now apply IH.
Qed.

Lemma plan_topic_line (p : Practice.parser) (h : str) :
  Practice.is_topic_line (strip h) = true ->
  Practice.parse_line p h
  = Practice.Parser (Practice.flush p) (Some (Practice.topic_name (strip h)))
                    [] (Practice.topic_count (strip h)).
Proof. unfold Practice.parse_line. now intros ->. Qed.

Lemma plan_of_join (ls : list str) :
  Forall no_nl ls -> Practice._parse_topics (join [nl] ls) = plan_lines ls.
Proof.
  intros H. unfold Practice._parse_topics.
  destruct ls as [|a ls]; [reflexivity|].
  rewrite split_join; [reflexivity|discriminate|exact H].
Qed.

(** X18.  The last topic of a plan.  When the lines of the plan are [before],
    then a topic line [h] (stripped, it starts with a digit and contains two
    asterisks), then lines [body] none of which is a topic line: the parsed
    topics are those of the lines [before] alone, followed, when the name
    taken from [h] is not empty, by one topic with that name, with the
    count taken from [h], and with the stripped lines of [body] that start
    with a dash, joined by newlines, as its concepts.  A topic line whose
    name is empty adds no topic, and the lines under it are dropped. *)
Theorem plan_last_topic (plan : str) (before : list str) (h : str)
        (body : list str) :
  split nl plan = before ++ h :: body ->
  Practice.is_topic_line (strip h) = true ->
  forallb (fun l => negb (Practice.is_topic_line (strip l))) body = true ->
  Practice._parse_topics plan
  = Practice._parse_topics (join [nl] before)
    ++ match Practice.topic_name (strip h) with
       | [] => []
       | name =>
           [Practice.Topic name
              (join [nl] (filter is_bullet (map strip body)))
              (Practice.topic_count (strip h))]
       end.
Proof.
  intros Hsplit Hh Hbody.
  assert (Hnl : Forall no_nl before).
  { pose proof (split_no_nl plan) as H. rewrite Hsplit in H.
    now apply Forall_app in H as [H _]. }
  rewrite (plan_of_join Hnl).
  unfold Practice._parse_topics, plan_lines.
  rewrite Hsplit, fold_left_app. cbn [fold_left].
  rewrite (@plan_topic_line _ h Hh), plan_flush_topics.
  cbn [Practice.topics Practice.current_name
       Practice.current_concepts Practice.current_count].
  f_equal.
  destruct (Practice.topic_name (strip h)) as [|c name].
  - refine (eq_trans (f_equal Practice.flush
                              (@plan_body_unnamed body _ Hbody)) _).
    reflexivity.
  - refine (eq_trans (f_equal Practice.flush
                              (@plan_body_named body c name _ [] Hbody)) _).
    reflexivity.
Qed.

Lemma plan_last_topic_witness :
  Practice._parse_topics small_plan
  = Practice._parse_topics
      (lit "Plan:" ++ nl :: lit "1. **Basics** (3 questions)" ++ nl
         :: lit "   - orbit")
    ++ [Practice.Topic (lit "Moons") (lit "- Phobos" ++ nl :: lit "- Deimos")
                       5%Z].
Proof.
  refine (eq_trans
            (@plan_last_topic small_plan
               [lit "Plan:"; lit "1. **Basics** (3 questions)";
                lit "   - orbit"]
               (lit "2. **Moons**")
               [lit "  - Phobos"; lit "  see also"; lit "- Deimos"]
               eq_refl eq_refl eq_refl) _).
  reflexivity.
Defined.

(* ---------- what a topic line gives ---------- *)

Lemma find_stars (a rest : str) :
  contains stars (a ++ lit "*") = false ->
  find stars (a ++ stars ++ rest) = Some (length a).
Proof.
  induction a as [|x a IH]; intros H; [reflexivity|].
  cbn [app contains] in H. apply orb_false_iff in H as [Hx H].
  cbn [app find length].
  assert (E : startswith (x :: a ++ stars ++ rest) stars = false).
  { destruct a as [|y a]; cbn [app startswith stars lit] in *.
    - cbn -[Ascii.eqb] in *.
      change (Ascii.eqb "*" "*") with true in Hx.
      destruct (Ascii.eqb "*" x); [discriminate|reflexivity].
    - cbn -[Ascii.eqb] in *. now rewrite !andb_true_r in *. }
  rewrite E, (IH H). reflexivity.
Qed.

(** X19.  On a line made of [pre], two asterisks, [name], two asterisks and
    [post], where neither [pre] nor [name] contains two asterisks in a row
    or ends with one, the topic name is [name]. *)
Theorem topic_name_between_stars (pre name post : str) :
  contains stars (pre ++ lit "*") = false ->
  contains stars (name ++ lit "*") = false ->
  Practice.topic_name (pre ++ stars ++ name ++ stars ++ post) = name.
Proof.
  intros Hpre Hname. unfold Practice.topic_name.
  change (lit "**") with stars.
  rewrite (find_stars pre (name ++ stars ++ post) Hpre).
  unfold find_from.
  assert (Hlen : (length (pre ++ stars ++ name ++ stars ++ post)
                  <? length pre + 2) = false).
  { apply Nat.ltb_ge. rewrite !length_app. simpl. lia. }
  rewrite Hlen.
  assert (Hskip : skipn (length pre + 2) (pre ++ stars ++ name ++ stars ++ post)
                  = name ++ stars ++ post).
  { rewrite skipn_app, skipn_all2 by lia.
    replace (length pre + 2 - length pre) with 2 by lia. reflexivity. }
  rewrite Hskip, (find_stars name post Hname). cbn [option_map].
  unfold slice_to, slice_from. rewrite Hskip.
  replace (length pre + 2 + length name - (length pre + 2))
    with (length name) by lia.
  rewrite firstn_app, Nat.sub_diag, firstn_all. cbn [firstn].
  apply app_nil_r.
Qed.

Lemma topic_name_between_stars_witness :
  Practice.topic_name (lit "1. **Basics of *orbits*** (3 questions)")
  = lit "Basics of *orbits".
Proof.
  exact (@topic_name_between_stars (lit "1. ") (lit "Basics of *orbits")
           (lit "* (3 questions)") eq_refl eq_refl).
Defined.

Lemma space_not_decimal (c : ascii) : isspace c = true -> isdecimal c = false.
Proof.
  unfold isspace, isdecimal. generalize (code c). intros n H.
  destruct (N.leb_spec 48 n); [|reflexivity].
  destruct (N.leb_spec n 57); [|reflexivity].
  exfalso.
  repeat match type of H with
         | (_ || _)%bool = true => apply orb_prop in H as [H|H]
         | (_ && _)%bool = true => apply andb_prop in H as [? H]
         end;
    repeat match goal with
           | H : (_ <=? _)%N = true |- _ => apply N.leb_le in H
           | H : (_ =? _)%N = true |- _ => apply N.eqb_eq in H
           end; lia.
Qed.

Lemma count_match (digits ws post : str) (d w : ascii) :
  forallb isdecimal (d :: digits) = true ->
  forallb isspace (w :: ws) = true ->
  exists rest,
    Re.match_ Practice.count_re
              ("("%char :: (d :: digits) ++ (w :: ws)
                 ++ lit "question" ++ post)
    = Some (rest, [d :: digits]).
Proof.
  intros Hd Hw. cbn [forallb] in Hd, Hw.
  apply andb_prop in Hd as [Hd Hds]. apply andb_prop in Hw as [Hw Hws].
  unfold Re.match_, Practice.count_re, Re.Plus.
  cbn [Re.run app]. change (Ascii.eqb "(" "(") with true. cbv iota.
  rewrite Hd.
  exists (match post with
          | c :: post' => if Ascii.eqb "s" c then post' else post
          | [] => post
          end).
  apply star_greedy_exact; [exact Hds| |].
  - cbn [app stops]. now apply space_not_decimal.
  - cbn [app length]. rewrite Hw.
    pose proof (taken_prefix (d :: digits)
                             (w :: ws ++ lit "question" ++ post)) as Ht.
    cbn [app length] in Ht. rewrite Ht.
    apply star_greedy_exact; [exact Hws|reflexivity|].
    change (Re.Cat (Re.Chr (Ascii.eqb "q"))
              (Re.Cat (Re.Chr (Ascii.eqb "u"))
              (Re.Cat (Re.Chr (Ascii.eqb "e"))
              (Re.Cat (Re.Chr (Ascii.eqb "s"))
              (Re.Cat (Re.Chr (Ascii.eqb "t"))
              (Re.Cat (Re.Chr (Ascii.eqb "i"))
              (Re.Cat (Re.Chr (Ascii.eqb "o"))
              (Re.Cat (Re.Chr (Ascii.eqb "n")) Re.Eps))))))))
      with (Re.Lit (lit "question")) || idtac.
    cbn -[Ascii.eqb].
    repeat match goal with
           | |- context [Ascii.eqb ?a ?a] =>
               change (Ascii.eqb a a) with true
           end.
    cbv iota.
    destruct post as [|c post']; [reflexivity|].
    destruct (Ascii.eqb "s" c); reflexivity.
Qed.

Lemma search_skip (r : ascii -> bool) (tail : Re.regex) (pre s : str) :
  forallb (fun c => negb (r c)) pre = true ->
  Re.search (Re.Cat (Re.Chr r) tail) (pre ++ s)
  = Re.search (Re.Cat (Re.Chr r) tail) s.
Proof.
  induction pre as [|c pre IH]; intros H; [reflexivity|].
  cbn [forallb] in H. apply andb_prop in H as [Hc H].
  apply negb_true_iff in Hc.
  cbn [app Re.search]. unfold Re.match_ at 1. cbn [Re.run].
  rewrite Hc. now apply IH.
Qed.

(** X20.  On a line made of [pre] without an opening parenthesis, then an
    opening parenthesis, one or more decimal digits, one or more whitespace
    characters and the word [question], the count is the number the digits
    write. *)
Theorem topic_count_stated (pre digits ws post : str) (d w : ascii) :
  forallb (fun c => negb (Ascii.eqb "(" c)) pre = true ->
  forallb isdecimal (d :: digits) = true ->
  forallb isspace (w :: ws) = true ->
  Practice.topic_count
    (pre ++ "("%char :: (d :: digits) ++ (w :: ws) ++ lit "question" ++ post)
  = int_of_digits (d :: digits).
Proof.
  intros Hpre Hd Hw. unfold Practice.topic_count, Practice.count_re.
  rewrite (@search_skip _ _ pre _ Hpre).
  destruct (@count_match digits ws post d w Hd Hw) as [rest E].
  unfold Practice.count_re in E.
  destruct ("("%char :: (d :: digits) ++ (w :: ws) ++ lit "question" ++ post)
    as [|x s] eqn:Es; [discriminate|].
  cbn [Re.search]. rewrite E. reflexivity.
Qed.

Lemma topic_count_stated_witness :
  Practice.topic_count (lit "1. **Basics** (12  questions)") = 12%Z.
Proof.
  exact (@topic_count_stated (lit "1. **Basics** ") (lit "2") (lit " ")
           (lit "s)") "1" " " eq_refl eq_refl eq_refl).
Defined.

(* ---------- lemmas ---------- *)

Lemma forallb_lstrip_of (q p : ascii -> bool) (s : str) :
  forallb q s = true -> forallb q (lstrip_of p s) = true.
Proof.
  induction s as [|c s IH]; [auto|]. intros H. cbn [lstrip_of].
  destruct (p c); [|exact H].
  cbn [forallb] in H. apply andb_prop in H as [_ H]. auto.
Qed.

Lemma lstrip_of_suffix (p : ascii -> bool) (s : str) :
  exists t, s = t ++ lstrip_of p s.
Proof.
  induction s as [|c s [t Hs]]; [now exists []|].
  cbn [lstrip_of]. destruct (p c).
  - exists (c :: t). cbn [app]. now rewrite Hs at 1.
  - now exists [].
Qed.

Lemma forallb_rstrip_of (q p : ascii -> bool) (s : str) :
  forallb q s = true -> forallb q (rstrip_of p s) = true.
Proof.
  destruct (rstrip_of_prefix p s) as (t & Hs & _). intros H.
  rewrite Hs in H. now apply forallb_app_l in H.
Qed.

Lemma forallb_strip_of (q p : ascii -> bool) (s : str) :
  forallb q s = true -> forallb q (strip_of p s) = true.
Proof.
  intros H. unfold strip_of. now apply forallb_rstrip_of, forallb_lstrip_of.
Qed.

Lemma forallb_firstn (A : Type) (q : A -> bool) (n : nat) (s : list A) :
  forallb q s = true -> forallb q (firstn n s) = true.
Proof.
  intros H. rewrite <- (firstn_skipn n s) in H.
  now apply forallb_app_l in H.
Qed.

Lemma startswith_app (s x p : str) :
  startswith s p = true -> startswith (s ++ x) p = true.
Proof.
  revert s. induction p as [|c p IH]; intros s H; [reflexivity|].
  destruct s as [|d s]; [discriminate|].
  cbn [app startswith] in *. apply andb_prop in H as [-> H].
  now rewrite (IH _ H).
Qed.

Lemma contains_app_l (p a b : str) :
  contains p (a ++ b) = false -> contains p a = false.
Proof.
  induction a as [|c a IH]; intros H.
  - destruct p as [|x p]; [|reflexivity].
    destruct b; cbn in H; discriminate.
  - cbn [app contains] in *. apply orb_false_iff in H as [H1 H2].
    rewrite (IH H2), orb_false_r.
    destruct (startswith (c :: a) p) eqn:E; [|reflexivity].
    apply (startswith_app _ b) in E. cbn [app] in E. congruence.
Qed.

Lemma contains_lstrip_of (q : str) (p : ascii -> bool) (s : str) :
  contains q s = false -> contains q (lstrip_of p s) = false.
Proof.
  destruct (lstrip_of_suffix p s) as [t Hs]. intros H.
  rewrite Hs in H. now apply contains_app_r in H.
Qed.

Lemma contains_rstrip_of (q : str) (p : ascii -> bool) (s : str) :
  contains q s = false -> contains q (rstrip_of p s) = false.
Proof.
  destruct (rstrip_of_prefix p s) as (t & Hs & _). intros H.
  rewrite Hs in H. now apply contains_app_l in H.
Qed.

Lemma contains_firstn (q : str) (n : nat) (s : str) :
  contains q s = false -> contains q (firstn n s) = false.
Proof.
  intros H. rewrite <- (firstn_skipn n s) in H.
  now apply contains_app_l in H.
Qed.

Lemma strip_of_none (p : ascii -> bool) (s : str) :
  forallb (fun c => negb (p c)) s = true -> strip_of p s = s.
Proof.
  intros H. unfold strip_of.
  assert (E : lstrip_of p s = s).
  { destruct s as [|c s]; [reflexivity|]. cbn [forallb] in H.
    apply andb_prop in H as [Hc _]. apply negb_true_iff in Hc.
    cbn [lstrip_of]. now rewrite Hc. }
  rewrite E. induction s as [|c s IH]; [reflexivity|].
  cbn [forallb] in H. apply andb_prop in H as [Hc H].
  apply negb_true_iff in Hc. cbn [rstrip_of].
  rewrite IH; [|exact H|].
  - destruct s; [now rewrite Hc|reflexivity].
  - destruct s as [|d s]; [reflexivity|]. cbn [forallb] in H.
    apply andb_prop in H as [Hd _]. apply negb_true_iff in Hd.
    cbn [lstrip_of]. now rewrite Hd.
Qed.

Lemma filter_forallb (A : Type) (f : A -> bool) (l : list A) :
  forallb f l = true -> filter f l = l.
Proof.
  induction l as [|a l IH]; [reflexivity|]. cbn [forallb filter].
  intros H. apply andb_prop in H as [-> H]. now rewrite IH.
Qed.

Lemma forallb_filter (A : Type) (f : A -> bool) (l : list A) :
  forallb f (filter f l) = true.
Proof.
  induction l as [|a l IH]; [reflexivity|]. cbn [filter].
  destruct (f a) eqn:E; [|exact IH]. cbn [forallb]. now rewrite E.
Qed.

Lemma forallb_filter_keeps (A : Type) (f g : A -> bool) (l : list A) :
  forallb g l = true -> forallb g (filter f l) = true.
Proof.
  induction l as [|a l IH]; [reflexivity|]. cbn [filter forallb].
  intros H. apply andb_prop in H as [Ha H].
  destruct (f a); [cbn [forallb]; rewrite Ha|]; auto.
Qed.

Lemma forallb_impl (A : Type) (f g : A -> bool) (l : list A) :
  (forall a, f a = true -> g a = true) ->
  forallb f l = true -> forallb g l = true.
Proof.
  intros Hfg. induction l as [|a l IH]; [reflexivity|]. cbn [forallb].
  intros H. apply andb_prop in H as [Ha H]. now rewrite (Hfg _ Ha), IH.
Qed.

Lemma forallb_and (A : Type) (f g : A -> bool) (l : list A) :
  forallb f l = true -> forallb g l = true ->
  forallb (fun a => f a && g a) l = true.
Proof.
  induction l as [|a l IH]; [reflexivity|]. cbn [forallb].
  intros H1 H2. apply andb_prop in H1 as [-> H1].
  apply andb_prop in H2 as [-> H2]. now rewrite IH.
Qed.

(* ---------- sanitize_filename ---------- *)

Lemma sanitize_is_filename (name : str) : is_filename (sanitize_filename name).
Proof.
  unfold sanitize_filename.
  set (kept := filter (fun c => negb (forbidden c)) name).
  destruct (strip_of dot_or_space kept) as [|c s] eqn:E; cbn [is_empty].
  - repeat split; reflexivity.
  - rewrite <- E. repeat split.
    + now rewrite E.
    + apply forallb_strip_of. apply forallb_filter.
    + apply strip_of_idem.
Qed.

Lemma filename_fixed (s : str) : is_filename s -> sanitize_filename s = s.
Proof.
  intros (Hne & Hchars & Hstrip). unfold sanitize_filename.
  rewrite (filter_forallb _ _ Hchars), Hstrip.
  destruct s; [discriminate|reflexivity].
Qed.

(** X21.  A sanitized file name is never empty, holds none of the nine
    forbidden characters, and has no dot and no space at either end. *)
Theorem sanitize_filename_shape (name : str) :
  let s := sanitize_filename name in
  is_empty s = false
  /\ forallb (fun c => negb (forbidden c)) s = true
  /\ strip_of dot_or_space s = s.
Proof. exact (sanitize_is_filename name). Qed.

(** X22.  Sanitizing a file name twice gives what sanitizing it once
    gives. *)
Theorem sanitize_filename_idempotent (name : str) :
  sanitize_filename (sanitize_filename name) = sanitize_filename name.
Proof. apply filename_fixed, sanitize_is_filename. Qed.

(** X23.  A name made only of forbidden characters, dots and spaces becomes
    [untitled]. *)
Theorem sanitize_filename_fallback (name : str) :
  forallb (fun c => forbidden c || dot_or_space c) name = true ->
  sanitize_filename name = lit "untitled".
Proof.
  intros H. unfold sanitize_filename.
  set (kept := filter (fun c => negb (forbidden c)) name).
  assert (Hk : forallb dot_or_space kept = true).
  { unfold kept. clear kept. induction name as [|c name IH]; [reflexivity|].
    cbn [forallb filter] in *. apply andb_prop in H as [Hc H].
    destruct (forbidden c); cbn [negb orb] in *; [now apply IH|].
    cbn [forallb]. now rewrite Hc, IH. }
  assert (E : lstrip_of dot_or_space kept = []).
  { induction kept as [|c k IH]; [reflexivity|]. cbn [forallb] in Hk.
    apply andb_prop in Hk as [Hc Hk]. cbn [lstrip_of]. rewrite Hc. auto. }
  unfold strip_of. now rewrite E.
Qed.

Lemma sanitize_filename_fallback_witness :
  sanitize_filename (lit ".. ?*: .") = lit "untitled".
Proof. exact (@sanitize_filename_fallback (lit ".. ?*: .") eq_refl). Defined.

(* ---------- slugify ---------- *)

Lemma lower_char_idem (c : ascii) : lower_char (lower_char c) = lower_char c.
Proof. destruct c as [[] [] [] [] [] [] [] []]; reflexivity. Qed.

Lemma slug_char_of_kept (c : ascii) :
  slug_keep c = true -> space_or_underscore c = false ->
  Ascii.eqb (lower_char c) c = true -> slug_char c = true.
Proof.
  unfold slug_keep, space_or_underscore, slug_char. intros Hk Hs Hl.
  apply orb_false_iff in Hs as [Hsp Hu]. rewrite Hsp, Hu, Hl in *.
  destruct (is_dash c); [reflexivity|].
  rewrite !orb_false_r in Hk. now rewrite Hk.
Qed.

Lemma dash_slug_char : slug_char "-" = true.
Proof. reflexivity. Qed.

Lemma is_dash_eq (c : ascii) : is_dash c = true -> c = "-"%char.
Proof. unfold is_dash. apply Ascii.eqb_eq. Qed.

Lemma sub_runs_chars (q p : ascii -> bool) (r : ascii) (s : str) :
  q r = true ->
  forallb (fun c => p c || q c) s = true ->
  forall b, forallb q (Re.sub_runs p [r] b s) = true.
Proof.
  intros Hr. induction s as [|c s IH]; intros H b; [reflexivity|].
  cbn [forallb] in H. apply andb_prop in H as [Hc H].
  cbn [Re.sub_runs]. destruct (p c) eqn:Ep.
  - destruct b; [now apply IH|]. cbn [app forallb]. rewrite Hr. now apply IH.
  - cbn [orb] in Hc. cbn [forallb]. rewrite Hc. now apply IH.
Qed.

Lemma sub_runs_none (p : ascii -> bool) (rep : str) (s : str) :
  forallb (fun c => negb (p c)) s = true ->
  forall b, Re.sub_runs p rep b s = s.
Proof.
  induction s as [|c s IH]; intros H b; [reflexivity|].
  cbn [forallb] in H. apply andb_prop in H as [Hc H].
  apply negb_true_iff in Hc. cbn [Re.sub_runs]. rewrite Hc.
  now rewrite IH.
Qed.

Lemma startswith_dash (c : ascii) (s : str) :
  startswith (c :: s) (lit "-") = is_dash c.
Proof.
  cbn [lit startswith]. cbn -[Ascii.eqb]. rewrite andb_true_r.
  unfold is_dash. apply Ascii.eqb_sym.
Qed.

Lemma startswith_dashes (c d : ascii) (s : str) :
  startswith (c :: d :: s) (lit "--") = is_dash c && is_dash d.
Proof.
  cbn -[Ascii.eqb]. rewrite andb_true_r. unfold is_dash.
  now rewrite (Ascii.eqb_sym c), (Ascii.eqb_sym d).
Qed.

Lemma startswith_one_dash (c : ascii) :
  startswith [c] (lit "--") = false.
Proof. cbn -[Ascii.eqb]. apply andb_false_r. Qed.

Lemma sub_runs_dashes (s : str) (b : bool) :
  let out := Re.sub_runs is_dash (lit "-") b s in
  contains (lit "--") out = false
  /\ (b = true -> startswith out (lit "-") = false).
Proof.
  revert b. induction s as [|c s IH]; intros b; [now split|].
  cbn [Re.sub_runs]. destruct (is_dash c) eqn:Ec.
  - destruct (IH true) as [H1 H2]. specialize (H2 eq_refl).
    destruct b; [now split|].
    split; [|discriminate].
    change (lit "-" ++ Re.sub_runs is_dash (lit "-") true s)
      with ("-"%char :: Re.sub_runs is_dash (lit "-") true s).
    cbn [contains]. rewrite H1, orb_false_r.
    destruct (Re.sub_runs is_dash (lit "-") true s) as [|d out];
      [reflexivity|].
    rewrite startswith_dashes. rewrite startswith_dash in H2.
    now rewrite H2, andb_false_r.
  - destruct (IH false) as [H1 _]. split.
    + cbn [contains]. rewrite H1, orb_false_r.
      destruct (Re.sub_runs is_dash (lit "-") false s) as [|d out];
        [apply startswith_one_dash|].
      now rewrite startswith_dashes, Ec.
    + intros _. now rewrite startswith_dash.
Qed.

Lemma sub_runs_dashes_fixed (s : str) :
  contains (lit "--") s = false ->
  forall b, (b = true -> startswith s (lit "-") = false) ->
            Re.sub_runs is_dash (lit "-") b s = s.
Proof.
  induction s as [|c s IH]; intros H b Hb; [reflexivity|].
  cbn [contains] in H. apply orb_false_iff in H as [Hc H].
  cbn [Re.sub_runs]. destruct (is_dash c) eqn:Ec.
  - destruct b.
    + specialize (Hb eq_refl). rewrite startswith_dash in Hb. congruence.
    + apply is_dash_eq in Ec as Ec'. subst c. cbn [app lit]. 
      change (lit "-" ++ Re.sub_runs is_dash (lit "-") true s)
        with ("-"%char :: Re.sub_runs is_dash (lit "-") true s).
      f_equal. apply IH; [exact H|]. intros _.
      destruct s as [|d s]; [reflexivity|].
      rewrite startswith_dashes in Hc. rewrite startswith_dash.
      now rewrite Ec in Hc.
  - f_equal. apply IH; [exact H|discriminate].
Qed.

Lemma word_not_space (c : ascii) : Re.is_word c = true -> isspace c = false.
Proof. destruct c as [[] [] [] [] [] [] [] []]; intros H; try reflexivity; discriminate. Qed.

Lemma slug_char_plain (c : ascii) :
  slug_char c = true ->
  Ascii.eqb (lower_char c) c = true /\ isspace c = false
  /\ slug_keep c = true /\ space_or_underscore c = false.
Proof.
  unfold slug_char, slug_keep, space_or_underscore. intros H.
  apply orb_prop in H as [H|H].
  - apply is_dash_eq in H. subst c. repeat split.
  - apply andb_prop in H as [H Hl]. apply andb_prop in H as [Hw Hu].
    apply negb_true_iff in Hu. rewrite Hw, Hu, (word_not_space _ Hw).
    repeat split. exact Hl.
Qed.

Lemma untitled_is_slug : is_slug (lit "untitled").
Proof. repeat split. Qed.

Lemma slug_body_chars (text : str) :
  forallb slug_char (slug_body text) = true.
Proof.
  unfold slug_body. apply forallb_strip_of.
  apply sub_runs_chars; [reflexivity|].
  apply forallb_impl with (f := slug_char); [intros a ->; apply orb_true_r|].
  apply sub_runs_chars; [reflexivity|].
  set (t := strip (lower text)).
  assert (Hl : forallb (fun c => Ascii.eqb (lower_char c) c) t = true).
  { unfold t. apply forallb_strip_of. unfold lower.
    induction text as [|c text IH]; [reflexivity|]. cbn [map forallb].
    now rewrite lower_char_idem, Ascii.eqb_refl, IH. }
  pose proof (forallb_filter slug_keep t) as Hk.
  apply (forallb_filter_keeps slug_keep) in Hl.
  pose proof (forallb_and _ _ _ Hk Hl) as H.
  revert H. apply forallb_impl. intros a Ha.
  apply andb_prop in Ha as [Hk' Hl'].
  destruct (space_or_underscore a) eqn:Es; [reflexivity|].
  cbn [orb]. now apply slug_char_of_kept.
Qed.

Lemma slug_body_dashes (text : str) :
  contains (lit "--") (slug_body text) = false.
Proof.
  unfold slug_body, strip_of.
  apply contains_rstrip_of, contains_lstrip_of.
  apply (sub_runs_dashes _ false).
Qed.

Lemma rstrip_of_nonempty_strip (p : ascii -> bool) (s : str) :
  stops p s -> stops p (rstrip_of p s).
Proof.
  destruct s as [|c s]; [auto|]. cbn [stops rstrip_of]. intros H.
  destruct (rstrip_of p s); [now rewrite H|exact H].
Qed.

Lemma lstrip_of_stops (p : ascii -> bool) (s : str) : stops p (lstrip_of p s).
Proof.
  induction s as [|c s IH]; [exact I|]. cbn [lstrip_of].
  destruct (p c) eqn:E; [exact IH|exact E].
Qed.

Lemma stops_lstrip_of (p : ascii -> bool) (s : str) :
  stops p s -> lstrip_of p s = s.
Proof. destruct s as [|c s]; [auto|]. cbn [stops lstrip_of]. now intros ->. Qed.

Lemma stops_firstn (p : ascii -> bool) (n : nat) (s : str) :
  stops p s -> stops p (firstn n s).
Proof. destruct s, n; cbn [firstn stops]; auto. Qed.

Lemma strip_of_stops (p : ascii -> bool) (s : str) : stops p (strip_of p s).
Proof. apply rstrip_of_nonempty_strip, lstrip_of_stops. Qed.

Lemma rstrip_stops_fixed (p : ascii -> bool) (s : str) :
  stops p s -> strip_of p (rstrip_of p s) = rstrip_of p s.
Proof.
  intros H. unfold strip_of.
  rewrite (stops_lstrip_of _ _ (rstrip_of_nonempty_strip _ _ H)).
  apply rstrip_of_idem.
Qed.

Lemma slice_to_int_firstn (n : Z) (s : str) :
  exists k, slice_to_int n s = firstn k s
            /\ ((0 <= n)%Z -> Z.of_nat k <= n)%Z.
Proof.
  unfold slice_to_int. destruct (Z.ltb_spec n 0).
  - eexists. split; [reflexivity|lia].
  - exists (Z.to_nat n). split; [reflexivity|lia].
Qed.

Lemma rstrip_of_length (p : ascii -> bool) (s : str) :
  length (rstrip_of p s) <= length s.
Proof.
  destruct (rstrip_of_prefix p s) as (t & Hs & _).
  rewrite Hs at 2. rewrite length_app. lia.
Qed.

Lemma slugify_cut (text : str) (max_length : Z) :
  slugify text max_length
  = if is_empty (slug_cut text max_length) then lit "untitled"
    else slug_cut text max_length.
Proof. reflexivity. Qed.

Lemma slug_cut_shape (text : str) (m : Z) :
  forallb slug_char (slug_cut text m) = true
  /\ contains (lit "--") (slug_cut text m) = false
  /\ strip_of is_dash (slug_cut text m) = slug_cut text m.
Proof.
  unfold slug_cut. cbv zeta.
  pose proof (slug_body_chars text) as Hc.
  pose proof (slug_body_dashes text) as Hd.
  assert (Hs : stops is_dash (slug_body text))
    by (unfold slug_body; apply strip_of_stops).
  destruct (m <? Z.of_nat (length (slug_body text)))%Z.
  - destruct (slice_to_int_firstn m (slug_body text)) as (k & -> & _).
    repeat split.
    + now apply forallb_rstrip_of, forallb_firstn.
    + now apply contains_rstrip_of, contains_firstn.
    + apply rstrip_stops_fixed. now apply stops_firstn.
  - repeat split; [exact Hc|exact Hd|].
    unfold slug_body. apply strip_of_idem.
Qed.

Lemma slugify_is_slug (text : str) (m : Z) : is_slug (slugify text m).
Proof.
  rewrite slugify_cut.
  destruct (slug_cut_shape text m) as (Hc & Hd & Hs).
  destruct (slug_cut text m) as [|c s] eqn:E; cbn [is_empty].
  - apply untitled_is_slug.
  - repeat split; assumption.
Qed.

Lemma slug_cut_length (text : str) (m : Z) :
  (0 <= m)%Z -> (Z.of_nat (length (slug_cut text m)) <= m)%Z.
Proof.
  intros Hm. unfold slug_cut. cbv zeta.
  destruct (Z.ltb_spec m (Z.of_nat (length (slug_body text)))); [|lia].
  destruct (slice_to_int_firstn m (slug_body text)) as (k & -> & Hk).
  pose proof (rstrip_of_length is_dash (firstn k (slug_body text))).
  rewrite length_firstn in *. specialize (Hk Hm). lia.
Qed.

Lemma slug_fixed (s : str) (m : Z) :
  is_slug s -> (Z.of_nat (length s) <= m)%Z -> slugify s m = s.
Proof.
  intros (Hne & Hchars & Hd & Hs) Hlen.
  assert (Hl : lower s = s).
  { unfold lower. clear -Hchars. induction s as [|c s IH]; [reflexivity|].
    cbn [forallb map] in *. apply andb_prop in Hchars as [Hc H].
    apply slug_char_plain in Hc as (Hc & _). apply Ascii.eqb_eq in Hc.
    now rewrite Hc, IH. }
  assert (Hsp : forallb (fun c => negb (isspace c)) s = true).
  { revert Hchars. apply forallb_impl. intros a Ha.
    apply slug_char_plain in Ha as (_ & -> & _). reflexivity. }
  assert (Hk : forallb slug_keep s = true).
  { revert Hchars. apply forallb_impl. intros a Ha.
    now apply slug_char_plain in Ha as (_ & _ & -> & _). }
  assert (Hu : forallb (fun c => negb (space_or_underscore c)) s = true).
  { revert Hchars. apply forallb_impl. intros a Ha.
    apply slug_char_plain in Ha as (_ & _ & _ & ->). reflexivity. }
  assert (Hbody : slug_body s = s).
  { unfold slug_body. rewrite Hl. unfold strip.
    rewrite (@strip_of_none _ _ Hsp), (@filter_forallb _ _ _ Hk).
    rewrite (@sub_runs_none _ _ _ Hu).
    rewrite (@sub_runs_dashes_fixed _ Hd); [exact Hs|discriminate]. }
  rewrite slugify_cut. unfold slug_cut. cbv zeta. rewrite Hbody.
  destruct (Z.ltb_spec m (Z.of_nat (length s))); [lia|].
  now rewrite Hne.
Qed.

(** X24.  A slug is never empty; it is made of dashes and of word characters
    that are neither underscores nor changed by [str.lower]; it has no two
    dashes in a row and no dash at either end.  Whitespace, underscores
    and capital letters never reach it. *)
Theorem slugify_shape (text : str) (max_length : Z) :
  let s := slugify text max_length in
  is_empty s = false
  /\ forallb slug_char s = true
  /\ contains (lit "--") s = false
  /\ strip_of is_dash s = s.
Proof. exact (slugify_is_slug text max_length). Qed.

(** X25.  For a [max_length] that is not negative, the slug has at most
    [max_length] characters, or it is the eight characters of [untitled],
    which are not cut. *)
Theorem slugify_length (text : str) (max_length : Z) :
  (0 <= max_length)%Z ->
  (Z.of_nat (length (slugify text max_length)) <= max_length)%Z
  \/ slugify text max_length = lit "untitled".
Proof.
  intros Hm. rewrite slugify_cut.
  destruct (slug_cut text max_length) as [|c s] eqn:E; cbn [is_empty].
  - now right.
  - left. rewrite <- E. now apply slug_cut_length.
Qed.

Lemma slugify_length_witness :
  (Z.of_nat (length (slugify (lit "Hello, World_of  Mars!") 11)) <= 11)%Z
  \/ slugify (lit "Hello, World_of  Mars!") 11 = lit "untitled".
Proof.
  exact (@slugify_length (lit "Hello, World_of  Mars!") 11 ltac:(lia)).
Defined.

(** X26.  For a [max_length] of eight or more, the slug of a slug is that
    slug. *)
Theorem slugify_idempotent (text : str) (max_length : Z) :
  (8 <= max_length)%Z ->
  slugify (slugify text max_length) max_length = slugify text max_length.
Proof.
  intros Hm. apply slug_fixed; [apply slugify_is_slug|].
  rewrite slugify_cut.
  destruct (slug_cut text max_length) as [|c s] eqn:E; cbn [is_empty].
  - cbn. lia.
  - rewrite <- E. apply slug_cut_length. lia.
Qed.

Lemma slugify_idempotent_witness :
  slugify (slugify (lit "Hello, World_of  Mars!") 11) 11
  = slugify (lit "Hello, World_of  Mars!") 11.
Proof.
  exact (@slugify_idempotent (lit "Hello, World_of  Mars!") 11 ltac:(lia)).
Defined.
